(** * SmartCart: explainable ranking and session recommendations

    A shallow embedding of the ranking and recommendation engine of the
    SmartCart server (TypeScript) and the properties its specification
    states about it.

    Source embedded here (the repository keeps several modules in one
    file; the names are those of the modules):
    - [semanticSearch] (in [src/server/irMetrics.test.ts]): the
      deterministic embedding, the feature normalizers, matched terms,
      the linear ranker;
    - [irMetrics] (same file): automatic relevance judgments;
    - [src/server/recommendations.ts]: session recommendations;
    - [src/server/db.ts]: the repository functions the above call;
    - [src/server/routers.ts]: the [search.semantic] handler on its local
      path.

    Conventions.
    - JavaScript strings are sequences of code units; the model keeps the
      code units U+0000..U+00FF (Stdlib [ascii], read as Latin-1).
    - JavaScript numbers in the ranker and the recommender are exact
      rationals ([Q]); rounding of IEEE doubles is not modelled.  The
      embedding kernel, which needs [sin], [tanh] and [sqrt], is modelled
      over the reals ([R]) in module [Embedding].
    - Database access is explicit state passing over a record of tables;
      [None] stands for the unreachable database ([getDb()] returning
      null). *)

From Stdlib Require Import ZArith QArith Qminmax Lia Lra Lqa List String Ascii Bool Sorted Reals.
From stdpp Require Import gmap.
From Equations.Prop Require Import Equations.
Import ListNotations.

Close Scope R_scope.
Close Scope Q_scope.
Open Scope string_scope.
Open Scope list_scope.

(* ===================================================================== *)
(** ** JavaScript strings *)
(* ===================================================================== *)

Module Js.

(** [c.charCodeAt(0)] *)
Definition charCode (c : ascii) : N := N_of_ascii c.

(** The code units matched by the regular expression class [\s] (and
    stripped by [trim]) below U+0100: TAB, LF, VT, FF, CR, SPACE, NBSP. *)
Definition isWhiteSpace (c : ascii) : bool :=
  let n := charCode c in
  ((9 <=? n) && (n <=? 13) || (n =? 32) || (n =? 160))%N.

(** [toLowerCase] on one code unit: A-Z, and the Latin-1 capitals
    U+00C0..U+00DE without the multiplication sign U+00D7. *)
Definition lowerChar (c : ascii) : ascii :=
  let n := charCode c in
  if ((65 <=? n) && (n <=? 90)
      || (192 <=? n) && (n <=? 222) && negb (n =? 215))%N
  then ascii_of_N (n + 32) else c.

Fixpoint toLowerCase (s : string) : string :=
  match s with
  | EmptyString => EmptyString
  | String c s' => String (lowerChar c) (toLowerCase s')
  end.

(** [s.split(/\s+/)]: the pieces between maximal runs of white space; a
    leading or trailing run leaves an empty first or last piece, and
    the empty string splits into one empty piece. *)
Fixpoint split_ws (s : string) : list string :=
  match s with
  | EmptyString => [EmptyString]
  | String c s' =>
      if isWhiteSpace c then
        match s' with
        | String c' _ => if isWhiteSpace c' then split_ws s'
                         else EmptyString :: split_ws s'
        | EmptyString => EmptyString :: split_ws s'
        end
      else
        match split_ws s' with
        | t :: ts => String c t :: ts
        | [] => [String c EmptyString]
        end
  end.

(** [s.includes(t)] *)
Fixpoint includes (s t : string) : bool :=
  String.prefix t s ||
  match s with
  | EmptyString => false
  | String _ s' => includes s' t
  end.

Fixpoint trimStart (s : string) : string :=
  match s with
  | EmptyString => EmptyString
  | String c s' => if isWhiteSpace c then trimStart s' else s
  end.

Fixpoint trimEnd (s : string) : string :=
  match s with
  | EmptyString => EmptyString
  | String c s' =>
      match trimEnd s' with
      | EmptyString => if isWhiteSpace c then EmptyString
                       else String c EmptyString
      | t => String c t
      end
  end.

(** [s.trim()] *)
Definition trim (s : string) : string := trimEnd (trimStart s).

(** [a || EMPTY] for a nullable string, EMPTY being the empty string. *)
Definition orEmpty (o : option string) : string :=
  match o with Some s => s | None => EmptyString end.

(** [query.toLowerCase().split(/\s+/).filter(t => t.length > 2)] *)
Definition queryTermsOf (query : string) : list string :=
  List.filter (fun t => (2 <? String.length t)%nat)
              (split_ws (toLowerCase query)).

End Js.

(* ===================================================================== *)
(** ** Data model ([drizzle/schema.ts]) *)
(* ===================================================================== *)

Inductive Availability := in_stock | low_stock | out_of_stock.

Inductive InteractionType := view | click | search_click | add_to_cart | purchase.

(** A row of [products]; decimal columns are kept as the rationals they
    denote, nullable columns as options, timestamps as milliseconds. *)
Record Product := mkProduct {
  id : Z;
  title : string;
  description : option string;
  category : option string;
  price : option Q;
  rating : option Q;
  availability : option Availability;
  stockQuantity : option Z;
  isFeatured : bool;
  createdAt : Z
}.

Definition Availability_eqb (a b : Availability) : bool :=
  match a, b with
  | in_stock, in_stock | low_stock, low_stock | out_of_stock, out_of_stock => true
  | _, _ => false
  end.

(** [availability === a] on the nullable column. *)
Definition availabilityIs (o : option Availability) (a : Availability) : bool :=
  match o with Some b => Availability_eqb b a | None => false end.

(** The template literal
    [`${product.title} ${product.description || EMPTY} ${product.category || EMPTY}`],
    EMPTY being the empty string. *)
Definition productTextOf (p : Product) : string :=
  (title p ++ " " ++ Js.orEmpty (description p) ++ " " ++ Js.orEmpty (category p))%string.

(* ===================================================================== *)
(** ** Matched terms ([semanticSearch]) *)
(* ===================================================================== *)

Definition extractMatchedTerms (query productText : string) : list string :=
  let queryTerms := Js.queryTermsOf query in
  let productLower := Js.toLowerCase productText in
  List.filter (fun term => Js.includes productLower term) queryTerms.

(** The matched-terms rule in the words of the specification: tokenize on
    white space, drop tokens of length at most 2, lowercase, keep the
    tokens that occur in the lowercased product text. *)
Definition matchedTerms_spec (query productText : string) : list string :=
  List.filter (fun t => Js.includes (Js.toLowerCase productText) t)
    (List.map Js.toLowerCase
       (List.filter (fun t => (2 <? String.length t)%nat) (Js.split_ws query))).

(** The same rule followed by the deduplication the specification adds
    (first occurrence kept, query order). *)
Fixpoint dedup_in_order (seen l : list string) : list string :=
  match l with
  | [] => []
  | t :: l' => if existsb (String.eqb t) seen then dedup_in_order seen l'
               else t :: dedup_in_order (t :: seen) l'
  end.

Definition matchedTerms_spec_dedup (query productText : string) : list string :=
  dedup_in_order [] (matchedTerms_spec query productText).

(* ===================================================================== *)
(** ** Automatic relevance judgments ([irMetrics]) *)
(* ===================================================================== *)

Record RelevanceJudgment := mkJudgment {
  productId : Z;
  relevanceScore : Z
}.

(** One product of [generateAutoRelevanceJudgments]: the [for] loop over
    the query terms threads [(matchCount, exactTitleMatch)]. *)
Definition judgeProduct (queryTerms : list string) (product : Product)
  : RelevanceJudgment :=
  let productText := Js.toLowerCase (productTextOf product) in
  let '(matchCount, exactTitleMatch) :=
    fold_left
      (fun (st : nat * bool) term =>
         let '(matchCount, exactTitleMatch) := st in
         let matchCount :=
           if Js.includes productText term then S matchCount else matchCount in
         let exactTitleMatch :=
           if Js.includes (Js.toLowerCase (title product)) term then true
           else exactTitleMatch in
         (matchCount, exactTitleMatch))
      queryTerms (0%nat, false) in
  let relevanceScore :=
    if (0 <? List.length queryTerms)%nat then
      let matchRatio :=
        (inject_Z (Z.of_nat matchCount) / inject_Z (Z.of_nat (List.length queryTerms)))%Q in
      if Qle_bool (8 # 10) matchRatio && exactTitleMatch then 3%Z
      else if Qle_bool (5 # 10) matchRatio || exactTitleMatch then 2%Z
      else if negb (Qle_bool matchRatio 0) then 1%Z
      else 0%Z
    else 0%Z in
  {| productId := id product; relevanceScore := relevanceScore |}.

Definition generateAutoRelevanceJudgments (query : string) (products : list Product)
  : list RelevanceJudgment :=
  let queryTerms := Js.queryTermsOf query in
  List.map (judgeProduct queryTerms) products.

(** The piecewise relevance in the words of the specification, from the
    number [m] of query terms found in the product text, the number [n]
    of query terms and the title flag. *)
Definition relevance_spec (m n : nat) (exactTitle : bool) : Z :=
  if (n =? 0)%nat then 0%Z
  else
    let ratio := (inject_Z (Z.of_nat m) / inject_Z (Z.of_nat n))%Q in
    if Qle_bool (8 # 10) ratio && exactTitle then 3%Z
    else if Qle_bool (5 # 10) ratio || exactTitle then 2%Z
    else if (0 <? m)%nat then 1%Z
    else 0%Z.

Definition matchCount_spec (queryTerms : list string) (p : Product) : nat :=
  List.length
    (List.filter (fun t => Js.includes (Js.toLowerCase (productTextOf p)) t) queryTerms).

Definition exactTitle_spec (queryTerms : list string) (p : Product) : bool :=
  existsb (fun t => Js.includes (Js.toLowerCase (title p)) t) queryTerms.

(** The query terms in the words of the specification: the white-space
    tokens of the query that are longer than 2, lowercased.  (The code
    lowercases first and splits then.) *)
Definition queryTerms_spec (query : string) : list string :=
  List.map Js.toLowerCase
    (List.filter (fun t => (2 <? String.length t)%nat) (Js.split_ws query)).

(** The judgments in the words of the specification: every product, in
    order, with the piecewise relevance of its counts. *)
Definition judgments_spec (query : string) (products : list Product)
  : list RelevanceJudgment :=
  List.map
    (fun p =>
       {| productId := id p;
          relevanceScore :=
            relevance_spec (matchCount_spec (queryTerms_spec query) p)
                           (List.length (queryTerms_spec query))
                           (exactTitle_spec (queryTerms_spec query) p) |})
    products.

(* ===================================================================== *)
(** ** The embedding kernel over the reals ([semanticSearch]) *)
(* ===================================================================== *)

Module Embedding.

Local Open Scope R_scope.

Definition EMBEDDING_DIMENSION : nat := 384.

Definition charCodeAt (c : ascii) : R := INR (nat_of_ascii c).

(** The inner [for (j ...)] loop of [generateDeterministicEmbedding]:
    [value += text.charCodeAt(j) * Math.sin((i + 1) * (j + 1) * 0.01)]. *)
Fixpoint innerLoop (i j : nat) (text : string) (value : R) : R :=
  match text with
  | EmptyString => value
  | String c rest =>
      innerLoop i (S j) rest
        (value + charCodeAt c * sin (INR (i + 1) * INR (j + 1) * (1 / 100)))
  end.

(** The vector before normalization: [Math.tanh(value * 0.001)] for each
    index [i] below the dimension. *)
Definition rawEmbedding (text : string) : list R :=
  let normalizedText := Js.toLowerCase text in
  List.map (fun i => tanh (innerLoop i 0 normalizedText 0 * (1 / 1000)))
           (seq 0 EMBEDDING_DIMENSION).

(** [vector.reduce((sum, val) => sum + val * val, 0)] *)
Definition sumSquares (vector : list R) : R :=
  fold_left (fun sum val => sum + val * val) vector 0.

Definition normalizeVector (vector : list R) : list R :=
  let magnitude := sqrt (sumSquares vector) in
  if Req_dec_T magnitude 0 then vector
  else List.map (fun val => val / magnitude) vector.

Definition generateDeterministicEmbedding (text : string) : list R :=
  normalizeVector (rawEmbedding text).

(** The Euclidean length of a vector. *)
Definition l2norm (vector : list R) : R := sqrt (sumSquares vector).

(** The reference construction in the words of the specification:
    the sum over the positions [j] of the text and its [tanh]. *)
Fixpoint refSum (i j : nat) (text : string) : R :=
  match text with
  | EmptyString => 0
  | String c rest =>
      charCodeAt c * sin ((1 / 100) * INR (i + 1) * INR (j + 1))
      + refSum i (S j) rest
  end.

Definition refComponent (text : string) (i : nat) : R :=
  tanh ((1 / 1000) * refSum i 0 (Js.toLowerCase text)).

End Embedding.

(* ===================================================================== *)
(** ** Repository ([db.ts]) *)
(* ===================================================================== *)

(** A row of [ranking_weights]. *)
Record RankingWeight := mkRankingWeight {
  weightId : Z;
  weightName : string;
  alpha : Q;
  beta : Q;
  gamma : Q;
  delta : Q;
  epsilon : Q;
  isActive : bool
}.

(** A row of [interactions]. *)
Record Interaction := mkInteraction {
  sessionId : string;
  interactionProductId : Z;
  interactionType : InteractionType
}.

(** The filter bag stored with a search log. *)
Record Filters := mkFilters {
  filterCategory : option string;
  filterMinPrice : option Q;
  filterMaxPrice : option Q;
  filterInStockOnly : bool
}.

(** A row of [search_logs]. *)
Record SearchLog := mkSearchLog {
  logId : Z;
  logSessionId : string;
  logQuery : string;
  queryEmbedding : list Q;
  resultsCount : nat;
  logResponseTimeMs : Z;
  filters : Filters
}.

(** A row of [search_result_explanations]; the scores are stored as they
    are (the six-decimal rendering [toFixed(6)] is not modelled). *)
Record ExplanationRow := mkExplanationRow {
  searchLogId : Z;
  explainedProductId : Z;
  explainedPosition : nat;
  finalScore : Q;
  semanticScore : Q;
  ratingScore : Q;
  priceScore : Q;
  stockScore : Q;
  recencyScore : Q;
  explainedTerms : list string
}.

(** The tables.  [products] is kept in the order in which the store
    returns its rows; [interactions] in the order of insertion. *)
Record Db := mkDb {
  products : list Product;
  productEmbeddings : list (Z * list Q);
  interactions : list Interaction;
  rankingWeights : list RankingWeight;
  searchLogs : list SearchLog;
  searchResultExplanations : list ExplanationRow
}.

(** The result of [getDb()]: [None] when the database is not available. *)
Definition World : Type := option Db.

(** The next value of a [serial] column of a table that only grows. *)
Definition nextSerial {A : Type} (table : list A) : Z :=
  Z.of_nat (List.length table) + 1.

Definition getEmbeddingByProductId (pid : Z) (w : World) : option (list Q) :=
  match w with
  | None => None
  | Some db =>
      match List.find (fun row => (fst row =? pid)%Z) (productEmbeddings db) with
      | Some row => Some (snd row)
      | None => None
      end
  end.

(** Modelled from the spec: [getAllProductsWithOptionalEmbeddings] is
    imported by [semanticSearch] from [db.ts] but is not in the source
    at hand; the specification has the orchestrator fetch the bounded
    candidate set of products together with their embeddings, a product
    without an embedding remaining usable. *)
Definition getAllProductsWithOptionalEmbeddings (limit offset : nat) (w : World)
  : list (Product * option (list Q)) :=
  match w with
  | None => []
  | Some db =>
      List.map (fun p => (p, getEmbeddingByProductId (id p) w))
               (firstn limit (skipn offset (products db)))
  end.

(** [products INNER JOIN product_embeddings] on the product id. *)
Definition getProductsWithEmbeddings (w : World) : list (Product * list Q) :=
  match w with
  | None => []
  | Some db =>
      flat_map (fun p => match getEmbeddingByProductId (id p) w with
                         | Some e => [(p, e)]
                         | None => []
                         end)
               (products db)
  end.

(** A stable sort: [before y x] says that [y] has to come before [x];
    elements that need not be swapped keep their order.  Both
    [Array.prototype.sort] (stable since ES2019) and [ORDER BY] are
    instances. *)
Fixpoint insertStable {A : Type} (before : A -> A -> bool) (x : A) (l : list A)
  : list A :=
  match l with
  | [] => [x]
  | y :: l' => if before y x then y :: insertStable before x l'
               else x :: y :: l'
  end.

Definition stableSort {A : Type} (before : A -> A -> bool) (l : list A) : list A :=
  fold_right (insertStable before) [] l.

(** [array.sort(compareFn)]: [compareFn(a, b) > 0] puts [b] first. *)
Definition Array_sort {A : Type} (compareFn : A -> A -> Q) (l : list A) : list A :=
  stableSort (fun y x => negb (Qle_bool (compareFn x y) 0)) l.

(** [ORDER BY rating DESC] (nulls first, as PostgreSQL orders them). *)
Definition ratingDescBefore (y x : Product) : bool :=
  match rating y, rating x with
  | None, Some _ => true
  | Some ry, Some rx => negb (Qle_bool ry rx)
  | _, _ => false
  end.

(** [SELECT ... WHERE is_featured ORDER BY rating DESC LIMIT limit].
    PostgreSQL leaves the order among rows of equal rating open; the
    model fixes one admissible order (table order, by a stable sort).
    The statements below about featured products speak of membership,
    of the count and of the order of the ratings, never of the order
    among equal ratings. *)
Definition getFeaturedProducts (limit : nat) (w : World) : list Product :=
  match w with
  | None => []
  | Some db =>
      firstn limit (stableSort ratingDescBefore (List.filter isFeatured (products db)))
  end.

(** [ORDER BY created_at DESC LIMIT limit] over the interactions of one
    session: the most recent insertion first. *)
Definition getSessionInteractions (sid : string) (limit : nat) (w : World)
  : list Interaction :=
  match w with
  | None => []
  | Some db =>
      firstn limit
        (rev (List.filter (fun i => String.eqb (sessionId i) sid) (interactions db)))
  end.

(** The defaults that [getActiveRankingWeights] returns or inserts. *)
Definition defaultWeights (rowId : Z) : RankingWeight :=
  {| weightId := rowId; weightName := "default";
     alpha := 500 # 1000; beta := 200 # 1000; gamma := 150 # 1000;
     delta := 100 # 1000; epsilon := 50 # 1000; isActive := true |}.

(** [db.insert(rankingWeights).values({...defaults, isActive: true})] *)
Definition insertDefaultWeights (db : Db) : Db :=
  {| products := products db;
     productEmbeddings := productEmbeddings db;
     interactions := interactions db;
     rankingWeights :=
       rankingWeights db ++ [defaultWeights (nextSerial (rankingWeights db))];
     searchLogs := searchLogs db;
     searchResultExplanations := searchResultExplanations db |}.

(** [select().from(rankingWeights).where(eq(isActive, true)).limit(1)] *)
Definition selectActiveWeights (db : Db) : option RankingWeight :=
  List.find isActive (rankingWeights db).

(** The number of insertions [getActiveRankingWeights] still has to make
    before its read finds a row. *)
Definition missingWeights (w : World) : nat :=
  match w with
  | None => 0
  | Some db => if existsb isActive (rankingWeights db) then 0 else 1
  end.

Definition inspect {A : Type} (x : A) : { y : A | x = y } := exist _ x eq_refl.

(** [getActiveRankingWeights]: read the active row; when there is none,
    insert the defaults and call itself again. *)
Equations? getActiveRankingWeights (w : World) : RankingWeight * World
  by wf (missingWeights w) lt :=
getActiveRankingWeights None := (defaultWeights 0, None);
getActiveRankingWeights (Some db) with inspect (selectActiveWeights db) := {
  | exist _ (Some row) _ => (row, Some db)
  | exist _ None Hnone => getActiveRankingWeights (Some (insertDefaultWeights db)) }.
Proof.
  unfold missingWeights, insertDefaultWeights, selectActiveWeights in *; simpl.
  rewrite existsb_app; simpl. rewrite orb_true_r.
  destruct (existsb isActive (rankingWeights db)) eqn:E; [| lia].
  apply existsb_exists in E as (x & Hin & Hx).
  pose proof (find_none _ _ Hnone _ Hin). congruence.
Qed.

(** [logSearch]: insert the row and return its id, 0 without database.
    [None] is a thrown error: the insertion is refused because the
    session id does not fit the column [session_id varchar(64)] of
    [search_logs]. *)
Definition logSearch (sid query : string) (qe : list Q) (count : nat)
    (ms : Z) (fs : Filters) (w : World) : option (Z * World) :=
  match w with
  | None => Some (0%Z, None)
  | Some db =>
      if (String.length sid <=? 64)%nat then
        let newId := nextSerial (searchLogs db) in
        Some (newId,
              Some {| products := products db;
                      productEmbeddings := productEmbeddings db;
                      interactions := interactions db;
                      rankingWeights := rankingWeights db;
                      searchLogs := searchLogs db ++
                        [{| logId := newId; logSessionId := sid; logQuery := query;
                            queryEmbedding := qe; resultsCount := count;
                            logResponseTimeMs := ms; filters := fs |}];
                      searchResultExplanations := searchResultExplanations db |})
      else None
  end.

(** Whether the insertion of [logSearch] goes through. *)
Definition logSearchAccepts (sid : string) (w : World) : bool :=
  match w with
  | None => true
  | Some _ => (String.length sid <=? 64)%nat
  end.

Definition saveSearchExplanations (rows : list ExplanationRow) (w : World) : World :=
  match w with
  | None => None
  | Some db =>
      match rows with
      | [] => w
      | _ =>
          Some {| products := products db;
                  productEmbeddings := productEmbeddings db;
                  interactions := interactions db;
                  rankingWeights := rankingWeights db;
                  searchLogs := searchLogs db;
                  searchResultExplanations := searchResultExplanations db ++ rows |}
      end
  end.

(** The SQL predicate [text LIKE pattern] on lowercased code units (which
    makes it [ILIKE]): [%] matches any run, [_] any one code unit, and a
    backslash takes the next pattern character literally. *)
Fixpoint ilike (pattern text : string) : bool :=
  match pattern with
  | EmptyString => match text with EmptyString => true | _ => false end
  | String c pattern' =>
      if Ascii.eqb c "%" then
        (fix anyRun (t : string) : bool :=
           ilike pattern' t ||
           match t with
           | EmptyString => false
           | String _ t' => anyRun t'
           end) text
      else if Ascii.eqb c "_" then
        match text with
        | EmptyString => false
        | String _ text' => ilike pattern' text'
        end
      else if Ascii.eqb c "092" then
        match pattern' with
        | EmptyString => false
        | String e pattern'' =>
            match text with
            | EmptyString => false
            | String d text' =>
                Ascii.eqb (Js.lowerChar e) (Js.lowerChar d) && ilike pattern'' text'
            end
        end
      else
        match text with
        | EmptyString => false
        | String d text' =>
            Ascii.eqb (Js.lowerChar c) (Js.lowerChar d) && ilike pattern' text'
        end
  end.

(** [searchProductsByKeyword]: [title ILIKE term OR coalesce(description,
    '') ILIKE term OR coalesce(category, '') ILIKE term], [LIMIT limit],
    with [term = `%${keyword.trim()}%`]. *)
(** A keyword free of the pattern characters [%], [_] and backslash. *)
Fixpoint noLikeMeta (s : string) : bool :=
  match s with
  | EmptyString => true
  | String c s' =>
      negb (Ascii.eqb c "%" || Ascii.eqb c "_" || Ascii.eqb c "092") && noLikeMeta s'
  end.

(** [f] holds of some suffix of [t]. *)
Fixpoint anySuffix (f : string -> bool) (t : string) : bool :=
  f t || match t with
         | EmptyString => false
         | String _ t' => anySuffix f t'
         end.

Definition keywordMatches (keyword : string) (p : Product) : bool :=
  let searchTerm := ("%" ++ Js.trim keyword ++ "%")%string in
  ilike searchTerm (title p)
  || ilike searchTerm (Js.orEmpty (description p))
  || ilike searchTerm (Js.orEmpty (category p)).

Definition searchProductsByKeyword (keyword : string) (limit : nat) (w : World)
  : list Product :=
  match w with
  | None => []
  | Some db => firstn limit (List.filter (keywordMatches keyword) (products db))
  end.

(* ===================================================================== *)
(** ** Feature normalizers and the ranker ([semanticSearch]) *)
(* ===================================================================== *)

Local Open Scope Q_scope.

Definition normalizePriceScore (price minPrice maxPrice : Q) : Q :=
  if Qeq_bool maxPrice minPrice then 1 # 2
  else 1 - ((price - minPrice) / (maxPrice - minPrice)).

Definition normalizeRatingScore (rating : option Q) : Q :=
  match rating with
  | None => 1 # 2
  | Some r => r / 5
  end.

Definition normalizeStockScore (availability : option Availability)
    (quantity : option Z) : Q :=
  match availability with
  | Some out_of_stock => 0
  | Some low_stock => 1 # 2
  | Some in_stock =>
      let qty := match quantity with Some q => q | None => 100%Z end in
      Qmin 1 ((7 # 10) + (inject_Z qty / 500) * (3 # 10))
  | None => 1 # 2
  end.

(** [now] is the reading of [Date.now()], in milliseconds like
    [createdAt.getTime()]. *)
Definition normalizeRecencyScore (now createdAt : Z) : Q :=
  let daysSinceCreation :=
    inject_Z (now - createdAt) / inject_Z (1000 * 60 * 60 * 24) in
  if Qle_bool daysSinceCreation 30 then 1
  else if Qle_bool 365 daysSinceCreation then 1 # 10
  else 1 - ((daysSinceCreation - 30) / 335) * (9 # 10).

(** [Number(product.price) || 0] *)
Definition priceNumber (p : Product) : Q :=
  match price p with Some q => q | None => 0 end.

(** [Math.min(...xs, last)] and [Math.max(...xs, last)] *)
Definition Math_min (xs : list Q) (last : Q) : Q := fold_right Qmin last xs.
Definition Math_max (xs : list Q) (last : Q) : Q := fold_right Qmax last xs.

Record Scores := mkScores {
  final : Q;
  semantic : Q;
  scoreRating : Q;
  scorePrice : Q;
  scoreStock : Q;
  scoreRecency : Q
}.

(** A search result; the explanation text, which no property below
    reads, is left out. *)
Record SearchResult := mkSearchResult {
  product : Product;
  scores : Scores;
  matchedTerms : list string;
  position : nat
}.

Record SemanticSearchOptions := mkOptions {
  optLimit : nat;
  optMinScore : Q;
  optCategory : option string;
  optMinPrice : option Q;
  optMaxPrice : option Q;
  optInStockOnly : bool;
  optSessionId : string
}.

(** The defaults of the destructuring in [semanticSearch]. *)
Definition defaultOptions : SemanticSearchOptions :=
  {| optLimit := 20; optMinScore := 1 # 10; optCategory := None;
     optMinPrice := None; optMaxPrice := None; optInStockOnly := false;
     optSessionId := "anonymous" |}.

(** [p.product.category?.toLowerCase() === category.toLowerCase()] *)
Definition categoryMatches (p : Product) (cat : string) : bool :=
  match category p with
  | Some c => String.eqb (Js.toLowerCase c) (Js.toLowerCase cat)
  | None => false
  end.

(** A non-empty string is truthy. *)
Definition truthyString (o : option string) : option string :=
  match o with
  | Some EmptyString => None
  | _ => o
  end.

(** The keyword match boost of [semanticSearch]: 0 to 0.5 by the share
    of the query terms that matched. *)
Definition keywordBoost (query : string) (matchedTerms : list string) : Q :=
  let queryTerms := Js.queryTermsOf query in
  if (0 <? List.length queryTerms)%nat
  then (inject_Z (Z.of_nat (List.length matchedTerms))
        / inject_Z (Z.of_nat (List.length queryTerms))) * (5 # 10)
  else 0.

Section Engine.

(** [Math.sqrt] and the embedding provider are parameters of the
    rational model: their values are irrational in general. *)
Variable Math_sqrt : Q -> Q.
Variable generateDeterministicEmbedding : string -> list Q.

Definition generateEmbedding (text : string) : list Q :=
  generateDeterministicEmbedding text.

Definition cosineSimilarity (a b : list Q) : Q :=
  if negb (List.length a =? List.length b)%nat then 0
  else
    let '(dotProduct, normA, normB) :=
      fold_left
        (fun (acc : Q * Q * Q) (xy : Q * Q) =>
           let '(dotProduct, normA, normB) := acc in
           let '(x, y) := xy in
           (dotProduct + x * y, normA + x * x, normB + y * y))
        (combine a b) (0, 0, 0) in
    let magnitude := Math_sqrt normA * Math_sqrt normB in
    if Qeq_bool magnitude 0 then 0 else dotProduct / magnitude.

Definition minPriceInSet (cands : list (Product * option (list Q))) : Q :=
  Math_min (List.filter (fun p => negb (Qle_bool p 0))
              (List.map (fun c => priceNumber (fst c)) cands)) 0.

Definition maxPriceInSet (cands : list (Product * option (list Q))) : Q :=
  Math_max (List.filter (fun p => negb (Qle_bool p 0))
              (List.map (fun c => priceNumber (fst c)) cands)) 1.

(** The body of the [map] that scores one candidate. *)
Definition scoreProduct (query : string) (queryEmbedding : list Q)
    (weights : RankingWeight) (minPriceInSet maxPriceInSet : Q) (now : Z)
    (cand : Product * option (list Q)) : SearchResult :=
  let '(product, embedding) := cand in
  let fallbackProductEmbedding :=
    generateDeterministicEmbedding (productTextOf product) in
  let semanticScore :=
    cosineSimilarity queryEmbedding
      (match embedding with Some e => e | None => fallbackProductEmbedding end) in
  let ratingScore := normalizeRatingScore (rating product) in
  let priceScore :=
    normalizePriceScore (priceNumber product) minPriceInSet maxPriceInSet in
  let stockScore :=
    normalizeStockScore (availability product) (stockQuantity product) in
  let recencyScore := normalizeRecencyScore now (createdAt product) in
  let productText := productTextOf product in
  let matchedTerms := extractMatchedTerms query productText in
  let keywordBoost := keywordBoost query matchedTerms in
  let finalScore :=
    alpha weights * Qmax 0 (semanticScore + keywordBoost)
    + beta weights * ratingScore
    + gamma weights * priceScore
    + delta weights * stockScore
    + epsilon weights * recencyScore in
  {| product := product;
     scores := {| final := finalScore;
                  semantic := Qmax 0 semanticScore;
                  scoreRating := ratingScore;
                  scorePrice := priceScore;
                  scoreStock := stockScore;
                  scoreRecency := recencyScore |};
     matchedTerms := matchedTerms;
     position := 0 |}.

(** The four optional filters, in the order of the source. *)
Definition applyFilters (options : SemanticSearchOptions)
    (scoredProducts : list SearchResult) : list SearchResult :=
  let scoredProducts :=
    match truthyString (optCategory options) with
    | Some cat => List.filter (fun p => categoryMatches (product p) cat) scoredProducts
    | None => scoredProducts
    end in
  let scoredProducts :=
    match optMinPrice options with
    | Some minPrice =>
        List.filter (fun p => Qle_bool minPrice (priceNumber (product p))) scoredProducts
    | None => scoredProducts
    end in
  let scoredProducts :=
    match optMaxPrice options with
    | Some maxPrice =>
        List.filter (fun p => Qle_bool (priceNumber (product p)) maxPrice) scoredProducts
    | None => scoredProducts
    end in
  if optInStockOnly options
  then List.filter (fun p => negb (availabilityIs (availability (product p)) out_of_stock))
         scoredProducts
  else scoredProducts.

(** [.map((result, index) => ({ ...result, position: index + 1 }))] *)
Fixpoint withPositions (index : nat) (l : list SearchResult) : list SearchResult :=
  match l with
  | [] => []
  | r :: l' =>
      {| product := product r; scores := scores r;
         matchedTerms := matchedTerms r; position := index + 1 |}
      :: withPositions (S index) l'
  end.

(** [.filter(minScore).sort(final descending).slice(0, limit).map(position)] *)
Definition rankResults (options : SemanticSearchOptions)
    (scoredProducts : list SearchResult) : list SearchResult :=
  withPositions 0
    (firstn (optLimit options)
       (Array_sort (fun a b => final (scores b) - final (scores a))
          (List.filter (fun p => Qle_bool (optMinScore options) (final (scores p)))
             scoredProducts))).

Definition explanationRowOf (logId : Z) (r : SearchResult) : ExplanationRow :=
  {| searchLogId := logId;
     explainedProductId := id (product r);
     explainedPosition := position r;
     finalScore := final (scores r);
     semanticScore := semantic (scores r);
     ratingScore := scoreRating (scores r);
     priceScore := scorePrice (scores r);
     stockScore := scoreStock (scores r);
     recencyScore := scoreRecency (scores r);
     explainedTerms := matchedTerms r |}.

(** [semanticSearch(query, options)].  [now] is the reading of the clock
    used for recency and [responseTimeMs] the measured duration.  The
    first component is what the call returns, [None] when [logSearch]
    throws (nothing catches it); the second is the database afterwards,
    which then still holds what [getActiveRankingWeights] has written. *)
Definition semanticSearch (query : string) (options : SemanticSearchOptions)
    (now responseTimeMs : Z) (w : World)
  : option (list SearchResult * Z * Z) * World :=
  let queryEmbedding := generateEmbedding query in
  let productsWithEmbeddings := getAllProductsWithOptionalEmbeddings 5000 0 w in
  let '(weights, w) := getActiveRankingWeights w in
  let minPriceInSet := minPriceInSet productsWithEmbeddings in
  let maxPriceInSet := maxPriceInSet productsWithEmbeddings in
  let scoredProducts :=
    List.map (scoreProduct query queryEmbedding weights minPriceInSet maxPriceInSet now)
             productsWithEmbeddings in
  let scoredProducts := applyFilters options scoredProducts in
  let results := rankResults options scoredProducts in
  match logSearch (optSessionId options) query queryEmbedding (List.length results)
          responseTimeMs
          {| filterCategory := optCategory options;
             filterMinPrice := optMinPrice options;
             filterMaxPrice := optMaxPrice options;
             filterInStockOnly := optInStockOnly options |} w with
  | None => (None, w)
  | Some (searchLogId, w) =>
      let w :=
        if negb (searchLogId =? 0)%Z && (0 <? List.length results)%nat
        then saveSearchExplanations (List.map (explanationRowOf searchLogId) results) w
        else w in
      (Some (results, searchLogId, responseTimeMs), w)
  end.

End Engine.

(** The [results] field of what [semanticSearch] returns; a call that
    throws returns no result. *)
Definition searchResultsOf (r : option (list SearchResult * Z * Z) * World)
  : list SearchResult :=
  match fst r with
  | Some (results, _, _) => results
  | None => []
  end.

(* ===================================================================== *)
(** ** The search handler ([routers.ts], [search.semantic]) *)
(* ===================================================================== *)

(** The validated input of [search.semantic]. *)
Record SearchInput := mkSearchInput {
  inputQuery : string;
  inputLimit : nat;
  inputMinScore : Q;
  inputCategory : option string;
  inputMinPrice : option Q;
  inputMaxPrice : option Q;
  inputInStockOnly : bool
}.

Record SearchResponse := mkSearchResponse {
  results : list SearchResult;
  responseSearchLogId : Z;
  responseTimeMs : Z;
  responseQuery : string;
  aiServiceUsed : bool;
  fallbackUsed : option string
}.

(** The predicate of [keywordProducts.filter(...)]. *)
Definition keepKeywordProduct (input : SearchInput) (product : Product) : bool :=
  let productPrice := priceNumber product in
  match truthyString (inputCategory input) with
  | Some cat => categoryMatches product cat
  | None => true
  end
  && match inputMinPrice input with
     | Some minPrice => Qle_bool minPrice productPrice
     | None => true
     end
  && match inputMaxPrice input with
     | Some maxPrice => Qle_bool productPrice maxPrice
     | None => true
     end
  && negb (inputInStockOnly input
           && availabilityIs (availability product) out_of_stock).

(** One result of the keyword fallback. *)
Definition keywordResult (product : Product) (index : nat) : SearchResult :=
  {| product := product;
     scores := {| final := 5 # 10;
                  semantic := 0;
                  scoreRating := match rating product with
                                 | Some r => r / 5
                                 | None => 5 # 10
                                 end;
                  scorePrice := 5 # 10;
                  scoreStock := if availabilityIs (availability product) out_of_stock
                                then 0 else 1;
                  scoreRecency := 5 # 10 |};
     matchedTerms := [];
     position := index + 1 |}.

Fixpoint mapWithIndex {A B : Type} (f : A -> nat -> B) (index : nat) (l : list A)
  : list B :=
  match l with
  | [] => []
  | x :: l' => f x index :: mapWithIndex f (S index) l'
  end.

(** The options that the handler passes to [semanticSearch]. *)
Definition optionsOfInput (input : SearchInput) (sid : string)
  : SemanticSearchOptions :=
  {| optLimit := inputLimit input;
     optMinScore := inputMinScore input;
     optCategory := inputCategory input;
     optMinPrice := inputMinPrice input;
     optMaxPrice := inputMaxPrice input;
     optInStockOnly := inputInStockOnly input;
     optSessionId := sid |}.

Section Handler.

Variable Math_sqrt : Q -> Q.
Variable generateDeterministicEmbedding : string -> list Q.

(** The handler of [search.semantic] from "Fallback to local semantic
    search" on, that is with [useAIService] false or the AI service not
    available; [sid] is the session id of the request.  The response is
    [None] when [semanticSearch] throws: the handler does not catch. *)
Definition searchSemanticLocal (input : SearchInput) (sid : string)
    (now elapsed : Z) (w : World) : option SearchResponse * World :=
  let '(result, w) :=
    semanticSearch Math_sqrt generateDeterministicEmbedding (inputQuery input)
      (optionsOfInput input sid) now elapsed w in
  match result with
  | None => (None, w)
  | Some (resultResults, resultSearchLogId, resultResponseTimeMs) =>
      if (List.length resultResults =? 0)%nat then
        let keywordProducts :=
          searchProductsByKeyword (inputQuery input) (inputLimit input) w in
        let filteredKeywordProducts :=
          List.filter (keepKeywordProduct input) keywordProducts in
        (Some {| results := mapWithIndex keywordResult 0 filteredKeywordProducts;
                 responseSearchLogId := resultSearchLogId;
                 responseTimeMs := resultResponseTimeMs;
                 responseQuery := inputQuery input;
                 aiServiceUsed := false;
                 fallbackUsed := Some "keyword" |}, w)
      else
        (Some {| results := resultResults;
                 responseSearchLogId := resultSearchLogId;
                 responseTimeMs := resultResponseTimeMs;
                 responseQuery := inputQuery input;
                 aiServiceUsed := false;
                 fallbackUsed := None |}, w)
  end.

End Handler.

(* ===================================================================== *)
(** ** Session recommendations ([recommendations.ts]) *)
(* ===================================================================== *)

Record RecommendationResult := mkRecommendation {
  recommended : Product;
  score : Q;
  reason : string;
  sourceProductId : option Z
}.

(** The table [interactionWeights]. *)
Definition interactionWeights (t : InteractionType) : Q :=
  match t with
  | purchase => 5
  | add_to_cart => 4
  | search_click => 3
  | click => 2
  | view => 1
  end.

(** A JavaScript [Map<number, V>]: the entries in insertion order;
    [set] on a present key replaces the value in place. *)
Definition JsMap (V : Type) : Type := list (Z * V).

Definition Map_get {V : Type} (key : Z) (m : JsMap V) : option V :=
  match List.find (fun kv => (fst kv =? key)%Z) m with
  | Some kv => Some (snd kv)
  | None => None
  end.

Fixpoint Map_set {V : Type} (key : Z) (value : V) (m : JsMap V) : JsMap V :=
  match m with
  | [] => [(key, value)]
  | (k, v) :: m' => if (k =? key)%Z then (key, value) :: m'
                    else (k, v) :: Map_set key value m'
  end.

Definition Map_keys {V : Type} (m : JsMap V) : list Z := List.map fst m.

(** The [forEach] over the interactions that fills [productScores]. *)
Fixpoint scoreInteractions (total : nat) (index : nat) (l : list Interaction)
    (productScores : JsMap (Q * InteractionType)) : JsMap (Q * InteractionType) :=
  match l with
  | [] => productScores
  | interaction :: rest =>
      let weight := interactionWeights (interactionType interaction) in
      let recencyBoost :=
        1 + (inject_Z (Z.of_nat total) - inject_Z (Z.of_nat index))
            / inject_Z (Z.of_nat total) in
      let score := weight * recencyBoost in
      let existing := Map_get (interactionProductId interaction) productScores in
      let productScores :=
        match existing with
        | Some (existingScore, _) =>
            if negb (Qle_bool score existingScore)
            then Map_set (interactionProductId interaction)
                         (score, interactionType interaction) productScores
            else productScores
        | None => Map_set (interactionProductId interaction)
                          (score, interactionType interaction) productScores
        end in
      scoreInteractions total (S index) rest productScores
  end.

Definition generateRecommendationReason (similarity : Q)
    (interactionType : option InteractionType) : string :=
  let reason0 :=
    if negb (Qle_bool similarity (8 # 10)) then "Very similar to items you viewed"
    else if negb (Qle_bool similarity (6 # 10)) then "Similar to your interests"
    else if negb (Qle_bool similarity (4 # 10)) then "Related to your browsing"
    else "You might like this" in
  match interactionType with
  | Some purchase => "Based on your purchase"
  | Some add_to_cart => "Similar to items in your cart"
  | _ => reason0
  end.

Definition getColdStartRecommendations (limit : nat) (excludeProductIds : list Z)
    (w : World) : list RecommendationResult :=
  let featured := getFeaturedProducts (limit + List.length excludeProductIds) w in
  let excludeSet : gset Z := list_to_set excludeProductIds in
  List.map (fun product => {| recommended := product; score := 1;
                              reason := "Popular product";
                              sourceProductId := None |})
    (firstn limit
       (List.filter (fun p => negb (bool_decide (elem_of (id p) excludeSet))) featured)).

(** An entry of [interactedEmbeddings]. *)
Record Interacted := mkInteracted {
  interactedId : Z;
  interactedEmbedding : list Q;
  interactedScore : Q
}.

Section Recommender.

Variable Math_sqrt : Q -> Q.

(** The loop that looks up the embedding of each interacted product;
    [score || 1] replaces a zero score by 1. *)
Definition collectInteracted (productScores : JsMap (Q * InteractionType))
    (w : World) : list Interacted :=
  flat_map
    (fun productId =>
       match getEmbeddingByProductId productId w with
       | Some embedding =>
           [{| interactedId := productId;
               interactedEmbedding := embedding;
               interactedScore :=
                 match Map_get productId productScores with
                 | Some (s, _) => if Qeq_bool s 0 then 1 else s
                 | None => 1
                 end |}]
       | None => []
       end)
    (Map_keys productScores).

(** The inner loop over [interactedEmbeddings] for one candidate: the
    total weighted similarity and the best raw match. *)
Definition matchCandidate (embedding : list Q) (interactedEmbeddings : list Interacted)
  : Q * (Z * Q) :=
  fold_left
    (fun (acc : Q * (Z * Q)) interacted =>
       let '(totalScore, bestMatch) := acc in
       let similarity :=
         cosineSimilarity Math_sqrt embedding (interactedEmbedding interacted) in
       let weightedSimilarity := similarity * interactedScore interacted in
       let totalScore := totalScore + weightedSimilarity in
       let bestMatch :=
         if negb (Qle_bool similarity (snd bestMatch))
         then (interactedId interacted, similarity) else bestMatch in
       (totalScore, bestMatch))
    interactedEmbeddings (0, (0%Z, 0)).

Definition getSessionRecommendations (sid : string) (limit : nat)
    (excludeProductIds : list Z) (w : World) : list RecommendationResult :=
  let interactions := getSessionInteractions sid 20 w in
  if (List.length interactions =? 0)%nat then
    getColdStartRecommendations limit excludeProductIds w
  else
    let productScores :=
      scoreInteractions (List.length interactions) 0 interactions [] in
    let interactedProductIds := Map_keys productScores in
    let interactedEmbeddings := collectInteracted productScores w in
    if (List.length interactedEmbeddings =? 0)%nat then
      getColdStartRecommendations limit excludeProductIds w
    else
      let allProducts := getProductsWithEmbeddings w in
      let excludeSet : gset Z :=
        list_to_set (excludeProductIds ++ interactedProductIds) in
      let recommendations :=
        flat_map
          (fun pe : Product * list Q =>
             let '(product, embedding) := pe in
             if bool_decide (elem_of (id product) excludeSet) then []
             else
               let '(totalScore, bestMatch) :=
                 matchCandidate embedding interactedEmbeddings in
               let avgScore :=
                 totalScore / inject_Z (Z.of_nat (List.length interactedEmbeddings)) in
               if negb (Qle_bool avgScore (1 # 10)) then
                 [{| recommended := product;
                     score := avgScore;
                     reason :=
                       generateRecommendationReason (snd bestMatch)
                         (match Map_get (fst bestMatch) productScores with
                          | Some (_, t) => Some t
                          | None => None
                          end);
                     sourceProductId := Some (fst bestMatch) |}]
               else [])
          allProducts in
      firstn limit (Array_sort (fun a b => score b - score a) recommendations).

End Recommender.

(* ===================================================================== *)
(** ** Concrete catalogues and sessions used as test inputs *)
(* ===================================================================== *)

Module Scenario.

(** A square root on the rationals that is exact on the squares of
    rationals (and rounds down the numerator elsewhere). *)
Definition sqrtQ (q : Q) : Q :=
  Z.sqrt (Qnum q * Zpos (Qden q)) # Qden q.

Definition emptyDb : Db :=
  {| products := []; productEmbeddings := []; interactions := [];
     rankingWeights := []; searchLogs := []; searchResultExplanations := [] |}.

Definition msPerDay : Z := 1000 * 60 * 60 * 24.

(** *** S1: two products, one query *)

Definition queryS1 : string := "wireless bluetooth headphones".

(** Unit vectors: the query vector and two stored embeddings at cosine
    22/25 = 0.88 and 1/20 = 0.05 from it. *)
Definition queryVector : list Q := [1; 0; 0; 0; 0].
Definition embeddingA : list Q := [22 # 25; 11 # 25; 4 # 25; 2 # 25; 0].
Definition embeddingB : list Q := [1 # 20; 19 # 20; 6 # 20; 1 # 20; 1 # 20].

Definition embedConst (_ : string) : list Q := queryVector.

Definition productA (qty : option Z) (created : Z) : Product :=
  {| id := 1;
     title := "Sony WH-1000XM5 Wireless Bluetooth Headphones";
     description := None; category := None;
     price := Some (32999 # 100); rating := Some (48 # 10);
     availability := Some in_stock; stockQuantity := qty;
     isFeatured := false; createdAt := created |}.

Definition productB (qty : option Z) (created : Z) : Product :=
  {| id := 2;
     title := "Luxury Leather Office Chair";
     description := None; category := None;
     price := Some (32999 # 100); rating := Some 5;
     availability := Some in_stock; stockQuantity := qty;
     isFeatured := false; createdAt := created |}.

(** The catalogue of S1 with B stored before A, and the active weights
    (0.5, 0.2, 0.15, 0.1, 0.05). *)
Definition dbS1 (eA eB : list Q) (qty : option Z) (created : Z) : Db :=
  {| products := [productB qty created; productA qty created];
     productEmbeddings := [(1%Z, eA); (2%Z, eB)];
     interactions := [];
     rankingWeights := [defaultWeights 1];
     searchLogs := []; searchResultExplanations := [] |}.

Definition optionsS1 : SemanticSearchOptions := defaultOptions.

(** *** Ties: two products that differ in their id only, the larger id
    stored first, no stored embeddings *)

Definition tiedProduct (pid : Z) : Product :=
  {| id := pid; title := "Desk Lamp"; description := None; category := None;
     price := Some 20; rating := Some 4;
     availability := Some in_stock; stockQuantity := Some 100%Z;
     isFeatured := false; createdAt := 0 |}.

Definition dbTies : Db :=
  {| products := [tiedProduct 2; tiedProduct 1];
     productEmbeddings := []; interactions := [];
     rankingWeights := [defaultWeights 1];
     searchLogs := []; searchResultExplanations := [] |}.

(** *** Prices: one product without a price, two with prices 10 and 20 *)

Definition pricedProduct (pid : Z) (p : option Q) : Product :=
  {| id := pid; title := "Desk Lamp"; description := None; category := None;
     price := p; rating := Some 4;
     availability := Some in_stock; stockQuantity := Some 100%Z;
     isFeatured := false; createdAt := 0 |}.

(** One candidate, priced 10. *)
Definition dbOnePrice : Db :=
  {| products := [pricedProduct 2 (Some 10)];
     productEmbeddings := []; interactions := [];
     rankingWeights := [defaultWeights 1];
     searchLogs := []; searchResultExplanations := [] |}.

Definition dbPrices : Db :=
  {| products := [pricedProduct 1 None; pricedProduct 2 (Some 10);
                  pricedProduct 3 (Some 20)];
     productEmbeddings := []; interactions := [];
     rankingWeights := [defaultWeights 1];
     searchLogs := []; searchResultExplanations := [] |}.

(** *** S5: a catalogue with two products that only the keyword search
    finds, the first of them low in stock; a request for one result with
    threshold 1 *)

Definition unicorn : Product :=
  {| id := 7; title := "Unicorn Plush Toy"; description := None;
     category := Some "Toys";
     price := Some 15; rating := None;
     availability := Some low_stock; stockQuantity := Some 3%Z;
     isFeatured := false; createdAt := 0 |}.

Definition unicornGiant : Product :=
  {| id := 8; title := "Giant Unicorn Plush"; description := None;
     category := Some "Toys";
     price := Some 15; rating := None;
     availability := Some in_stock; stockQuantity := Some 100%Z;
     isFeatured := false; createdAt := 0 |}.

Definition dbS5 : Db :=
  {| products := [unicorn; unicornGiant];
     productEmbeddings := [(7%Z, [0; 1; 0; 0; 0]); (8%Z, [0; 1; 0; 0; 0])];
     interactions := [];
     rankingWeights := [defaultWeights 1];
     searchLogs := []; searchResultExplanations := [] |}.

Definition inputS5 : SearchInput :=
  {| inputQuery := "unicorn plush"; inputLimit := 1; inputMinScore := 1;
     inputCategory := None; inputMinPrice := None; inputMaxPrice := None;
     inputInStockOnly := false |}.

(** *** S4: a session with a view of p1 (most recent) and an addition of
    p2 to the cart, and two candidates cX and cY *)

Definition plainProduct (pid : Z) (name : string) : Product :=
  {| id := pid; title := name; description := None; category := None;
     price := Some 10; rating := Some 4;
     availability := Some in_stock; stockQuantity := Some 100%Z;
     isFeatured := false; createdAt := 0 |}.

Definition p1 : Product := plainProduct 1 "p1".
Definition p2 : Product := plainProduct 2 "p2".
Definition cX : Product := plainProduct 3 "cX".
Definition cY : Product := plainProduct 4 "cY".

Definition dbS4 (e1 e2 eX eY : list Q) : Db :=
  {| products := [p1; p2; cX; cY];
     productEmbeddings := [(1%Z, e1); (2%Z, e2); (3%Z, eX); (4%Z, eY)];
     interactions := [ {| sessionId := "s4"; interactionProductId := 2;
                          interactionType := add_to_cart |};
                       {| sessionId := "s4"; interactionProductId := 1;
                          interactionType := view |} ];
     rankingWeights := [defaultWeights 1];
     searchLogs := []; searchResultExplanations := [] |}.

(** Unit vectors with cos(p1,cX) = 0.9, cos(p2,cX) = 0.6 and
    cos(p1,cY) = cos(p2,cY) = 0.1. *)
Definition embeddingP1 : list Q := [1; 0; 0; 0; 0; 0].
Definition embeddingP2 : list Q := [4 # 5; 3 # 5; 0; 0; 0; 0].
Definition embeddingX : list Q := [9 # 10; -2 # 10; 3 # 10; 2 # 10; 1 # 10; 1 # 10].
Definition embeddingY : list Q := [1 # 10; 1 # 30; 29 # 30; 7 # 30; 0; 0].

(** *** A session whose only interaction is with a featured product that
    has no stored embedding *)

Definition featuredProduct : Product :=
  {| id := 1; title := "Espresso Machine"; description := None; category := None;
     price := Some 199; rating := Some (45 # 10);
     availability := Some in_stock; stockQuantity := Some 100%Z;
     isFeatured := true; createdAt := 0 |}.

Definition dbViewedFeatured : Db :=
  {| products := [featuredProduct];
     productEmbeddings := [];
     interactions := [ {| sessionId := "s5"; interactionProductId := 1;
                          interactionType := view |} ];
     rankingWeights := [defaultWeights 1];
     searchLogs := []; searchResultExplanations := [] |}.

End Scenario.

(* ===================================================================== *)
(** ** Retrieval metrics ([irMetrics]) *)
(* ===================================================================== *)

Module IR.

(** [xs.slice(0, k)] for an integer [k]: the first [k] elements, and for
    a negative [k] all but the last [-k]. *)
Definition Array_slice0 {A : Type} (k : Z) (xs : list A) : list A :=
  if (0 <=? k)%Z then firstn (Z.to_nat k) xs
  else firstn (List.length xs - Z.to_nat (- k)) xs.

(** The [SearchResult] of [irMetrics]: a product id at a position. *)
Record SearchResult := mkSearchResult {
  resultProductId : Z;
  resultPosition : nat;
  resultFinalScore : Q
}.

Record IRMetricsResult := mkIRMetricsResult {
  ndcg : Q;
  recall : Q;
  precision : Q;
  mrr : Q;
  averagePrecision : Q
}.

(** [new Set(judgments.filter(j => j.relevanceScore >= relevanceThreshold)
              .map(j => j.productId))] *)
Definition relevantItemsOf (judgments : list RelevanceJudgment)
    (relevanceThreshold : Z) : gset Z :=
  list_to_set
    (List.map productId
       (List.filter (fun j => (relevanceThreshold <=? relevanceScore j)%Z) judgments)).

(** [relevantItems.has(r.productId)] *)
Definition isRelevant (relevantItems : gset Z) (r : SearchResult) : bool :=
  bool_decide (elem_of (resultProductId r) relevantItems).

(** The cutoff [k] is a JavaScript number: the model takes the integers,
    the negative ones included. *)
Definition calculateRecall (results : list SearchResult)
    (judgments : list RelevanceJudgment) (k : Z) (relevanceThreshold : Z) : Q :=
  let relevantItems := relevantItemsOf judgments relevanceThreshold in
  if (size relevantItems =? 0)%nat then 0
  else
    let topKResults := Array_slice0 k results in
    let retrievedRelevant :=
      List.length (List.filter (isRelevant relevantItems) topKResults) in
    inject_Z (Z.of_nat retrievedRelevant) / inject_Z (Z.of_nat (size relevantItems)).

Definition calculatePrecision (results : list SearchResult)
    (judgments : list RelevanceJudgment) (k : Z) (relevanceThreshold : Z) : Q :=
  let relevantItems := relevantItemsOf judgments relevanceThreshold in
  let topKResults := Array_slice0 k results in
  let actualK := Z.min k (Z.of_nat (List.length topKResults)) in
  if (actualK =? 0)%Z then 0
  else
    let retrievedRelevant :=
      List.length (List.filter (isRelevant relevantItems) topKResults) in
    inject_Z (Z.of_nat retrievedRelevant) / inject_Z actualK.

(** The loop of [calculateMRR] from index [i] on. *)
Fixpoint mrrLoop (relevantItems : gset Z) (i : nat) (results : list SearchResult) : Q :=
  match results with
  | [] => 0
  | r :: rest =>
      if isRelevant relevantItems r then 1 / (inject_Z (Z.of_nat i) + 1)
      else mrrLoop relevantItems (S i) rest
  end.

Definition calculateMRR (results : list SearchResult)
    (judgments : list RelevanceJudgment) (relevanceThreshold : Z) : Q :=
  mrrLoop (relevantItemsOf judgments relevanceThreshold) 0 results.

(** The loop of [calculateAveragePrecision] from index [i] on, with the
    running [sumPrecision] and [relevantCount]. *)
Fixpoint apLoop (relevantItems : gset Z) (i : nat) (results : list SearchResult)
    (sumPrecision : Q) (relevantCount : nat) : Q :=
  match results with
  | [] => sumPrecision
  | r :: rest =>
      if isRelevant relevantItems r then
        let relevantCount := S relevantCount in
        apLoop relevantItems (S i) rest
          (sumPrecision
           + inject_Z (Z.of_nat relevantCount) / (inject_Z (Z.of_nat i) + 1))
          relevantCount
      else apLoop relevantItems (S i) rest sumPrecision relevantCount
  end.

Definition calculateAveragePrecision (results : list SearchResult)
    (judgments : list RelevanceJudgment) (relevanceThreshold : Z) : Q :=
  let relevantItems := relevantItemsOf judgments relevanceThreshold in
  if (size relevantItems =? 0)%nat then 0
  else apLoop relevantItems 0 results 0 0
       / inject_Z (Z.of_nat (size relevantItems)).

Section Gain.

(** [Math.log2] is a parameter of the rational model. *)
Variable Math_log2 : Q -> Q.

(** The loop of [calculateDCG] from index [i] on:
    [dcg += (Math.pow(2, rel) - 1) / Math.log2(i + 2)]. *)
Fixpoint dcgLoop (i : nat) (relevanceScores : list Z) (dcg : Q) : Q :=
  match relevanceScores with
  | [] => dcg
  | rel :: rest =>
      let gain := Qpower 2 rel - 1 in
      let discount := Math_log2 (inject_Z (Z.of_nat i) + 2) in
      dcgLoop (S i) rest (dcg + gain / discount)
  end.

(** The loop runs for [i < limit]: not at all when [limit] is negative. *)
Definition calculateDCG (relevanceScores : list Z) (k : Z) : Q :=
  let limit := Z.min k (Z.of_nat (List.length relevanceScores)) in
  dcgLoop 0 (firstn (Z.to_nat limit) relevanceScores) 0.

Definition calculateIDCG (relevanceScores : list Z) (k : Z) : Q :=
  let sortedScores := Array_sort (fun a b => inject_Z (b - a)) relevanceScores in
  calculateDCG sortedScores k.

(** [judgments.forEach(j => relevanceMap.set(j.productId, j.relevanceScore))] *)
Definition relevanceMapOf (judgments : list RelevanceJudgment) : JsMap Z :=
  fold_left (fun m j => Map_set (productId j) (relevanceScore j) m) judgments [].

(** [relevanceMap.get(r.productId) || 0] *)
Definition relevanceOf (relevanceMap : JsMap Z) (r : SearchResult) : Z :=
  match Map_get (resultProductId r) relevanceMap with
  | Some s => s
  | None => 0%Z
  end.

Definition calculateNDCG (results : list SearchResult)
    (judgments : list RelevanceJudgment) (k : Z) : Q :=
  let relevanceMap := relevanceMapOf judgments in
  let resultRelevances :=
    List.map (relevanceOf relevanceMap) (Array_slice0 k results) in
  let allRelevances := List.map relevanceScore judgments in
  let dcg := calculateDCG resultRelevances k in
  let idcg := calculateIDCG allRelevances k in
  if Qeq_bool idcg 0 then 0 else dcg / idcg.

(** [calculateAllMetrics]: the thresholds are the defaults (1). *)
Definition calculateAllMetrics (results : list SearchResult)
    (judgments : list RelevanceJudgment) (k : Z) : IRMetricsResult :=
  {| ndcg := calculateNDCG results judgments k;
     recall := calculateRecall results judgments k 1;
     precision := calculatePrecision results judgments k 1;
     mrr := calculateMRR results judgments 1;
     averagePrecision := calculateAveragePrecision results judgments 1 |}.

(** [evaluateSearchQuery] *)
Definition evaluateSearchQuery (query : string) (results : list SearchResult)
    (allProducts : list Product) (k : Z) : IRMetricsResult :=
  let judgments := generateAutoRelevanceJudgments query allProducts in
  calculateAllMetrics results judgments k.

End Gain.

End IR.

(* ===================================================================== *)
(** ** The session cookie ([routers.ts], [getOrCreateSessionId]) *)
(* ===================================================================== *)

Definition SESSION_COOKIE : string := "smartcart_session".

(** The longest prefix without a semicolon: what [[^;]+] takes. *)
Fixpoint takeUntilSemicolon (s : string) : string :=
  match s with
  | EmptyString => EmptyString
  | String c s' => if Ascii.eqb c ";" then EmptyString
                   else String c (takeUntilSemicolon s')
  end.

Fixpoint dropChars (n : nat) (s : string) : string :=
  match n, s with
  | O, _ => s
  | S n', String _ s' => dropChars n' s'
  | S _, EmptyString => EmptyString
  end.

(** The regular expression [smartcart_session=([^;]+)] tried at the
    start of [cookies]: the name, the equals sign, then at least one
    character other than a semicolon; the result is the group. *)
Definition matchHere (cookies : string) : option string :=
  if String.prefix (SESSION_COOKIE ++ "=")%string cookies then
    match takeUntilSemicolon
            (dropChars (String.length (SESSION_COOKIE ++ "=")%string) cookies) with
    | EmptyString => None
    | v => Some v
    end
  else None.

(** [cookies.match(new RegExp(...))] and [match[1]]: the leftmost match. *)
Fixpoint matchSessionCookie (cookies : string) : option string :=
  match matchHere cookies with
  | Some v => Some v
  | None =>
      match cookies with
      | EmptyString => None
      | String _ rest => matchSessionCookie rest
      end
  end.

(** [getOrCreateSessionId]: [cookieHeader] is [ctx.req.headers.cookie]
    when it is a string, [nanoid32] the value that [nanoid(32)] returns;
    the second component is the cookie that the response sets, if any. *)
Definition getOrCreateSessionId (cookieHeader : option string) (nanoid32 : string)
  : string * option string :=
  match truthyString cookieHeader with
  | Some cookies =>
      match matchSessionCookie cookies with
      | Some v => (v, None)
      | None => (nanoid32, Some nanoid32)
      end
  | None => (nanoid32, Some nanoid32)
  end.

(* ===================================================================== *)
(** ** More of the repository ([db.ts]) *)
(* ===================================================================== *)

(** [createEmbedding]: insert, or on a conflict on the product id update
    the embedding of the row; [None] is the thrown "Database not
    available". *)
Definition createEmbedding (pid : Z) (embedding : list Q) (w : World)
  : option World :=
  match w with
  | None => None
  | Some db =>
      Some (Some {| products := products db;
                    productEmbeddings := Map_set pid embedding (productEmbeddings db);
                    interactions := interactions db;
                    rankingWeights := rankingWeights db;
                    searchLogs := searchLogs db;
                    searchResultExplanations := searchResultExplanations db |})
  end.

Definition getEmbeddingCount (w : World) : nat :=
  match w with
  | None => 0
  | Some db => List.length (productEmbeddings db)
  end.

(** [recordInteraction]: append the row.  [None] is a thrown error: the
    database is not available, or the insertion is refused because the
    session id does not fit the column [varchar(64)]. *)
Definition recordInteraction (interaction : Interaction) (w : World)
  : option World :=
  match w with
  | None => None
  | Some db =>
      if (String.length (sessionId interaction) <=? 64)%nat then
        Some (Some {| products := products db;
                      productEmbeddings := productEmbeddings db;
                      interactions := interactions db ++ [interaction];
                      rankingWeights := rankingWeights db;
                      searchLogs := searchLogs db;
                      searchResultExplanations := searchResultExplanations db |})
      else None
  end.

Definition getProductById (pid : Z) (w : World) : option Product :=
  match w with
  | None => None
  | Some db => List.find (fun p => (id p =? pid)%Z) (products db)
  end.

(** [WHERE id IN (ids)] *)
Definition getProductsByIds (ids : list Z) (w : World) : list Product :=
  match w with
  | None => []
  | Some db =>
      match ids with
      | [] => []
      | _ => List.filter (fun p => existsb (Z.eqb (id p)) ids) (products db)
      end
  end.

(** [Array.from(new Set(xs))]: the first occurrences, in order. *)
Fixpoint uniqueInOrder (seen xs : list Z) : list Z :=
  match xs with
  | [] => []
  | x :: xs' => if existsb (Z.eqb x) seen then uniqueInOrder seen xs'
                else x :: uniqueInOrder (x :: seen) xs'
  end.

Definition InteractionType_eqb (a b : InteractionType) : bool :=
  match a, b with
  | view, view | click, click | search_click, search_click
  | add_to_cart, add_to_cart | purchase, purchase => true
  | _, _ => false
  end.

Definition getRecentlyViewedProducts (sid : string) (limit : nat) (w : World)
  : list Product :=
  match w with
  | None => []
  | Some db =>
      let interactions :=
        firstn limit
          (rev (List.filter
                  (fun i => String.eqb (sessionId i) sid
                            && InteractionType_eqb (interactionType i) view)
                  (interactions db))) in
      let productIds :=
        uniqueInOrder [] (List.map interactionProductId interactions) in
      match productIds with
      | [] => []
      | _ => getProductsByIds productIds w
      end
  end.

(** [WHERE search_log_id = logId ORDER BY position] *)
Definition getExplanationsForSearch (logId : Z) (w : World) : list ExplanationRow :=
  match w with
  | None => []
  | Some db =>
      stableSort (fun y x => (explainedPosition y <? explainedPosition x)%nat)
        (List.filter (fun row => (searchLogId row =? logId)%Z)
                     (searchResultExplanations db))
  end.

Definition getSearchLogById (logId0 : Z) (w : World) : option SearchLog :=
  match w with
  | None => None
  | Some db => List.find (fun row => (logId row =? logId0)%Z) (searchLogs db)
  end.

(* ===================================================================== *)
(** ** More of the recommender ([recommendations.ts]) *)
(* ===================================================================== *)

(** [getTrendingProducts]: the featured products with the positional
    score [1 - index * 0.05]. *)
Definition getTrendingProducts (limit : nat) (w : World) : list RecommendationResult :=
  mapWithIndex
    (fun product index =>
       {| recommended := product;
          score := 1 - inject_Z (Z.of_nat index) * (5 # 100);
          reason := "Trending now";
          sourceProductId := None |})
    0 (getFeaturedProducts limit w).

(** [p.product.category === product.category] for a non-null right side. *)
Definition sameCategory (p : Product) (cat : string) : bool :=
  match category p with
  | Some c => String.eqb c cat
  | None => false
  end.

Definition getCategoryBasedRecommendations (productId : Z) (limit : nat) (w : World)
  : list RecommendationResult :=
  match getProductsByIds [productId] w with
  | product :: _ =>
      match truthyString (category product) with
      | Some cat =>
          List.map
            (fun pe : Product * list Q =>
               {| recommended := fst pe;
                  score := 5 # 10;
                  reason := ("Same category: " ++ cat)%string;
                  sourceProductId := Some productId |})
            (firstn limit
               (List.filter
                  (fun pe : Product * list Q =>
                     negb (id (fst pe) =? productId)%Z && sameCategory (fst pe) cat)
                  (getProductsWithEmbeddings w)))
      | None => getColdStartRecommendations limit [productId] w
      end
  | [] => getColdStartRecommendations limit [productId] w
  end.

Section Similar.

Variable Math_sqrt : Q -> Q.

(** [x => x.toFixed(0)], the rendering of a number without decimals, is
    a parameter. *)
Variable Number_toFixed0 : Q -> string.

Definition getSimilarProducts (productId : Z) (limit : nat) (w : World)
  : list RecommendationResult :=
  match getEmbeddingByProductId productId w with
  | None => getCategoryBasedRecommendations productId limit w
  | Some productEmbedding =>
      let allProducts := getProductsWithEmbeddings w in
      let recommendations :=
        flat_map
          (fun pe : Product * list Q =>
             let '(product, embedding) := pe in
             if (id product =? productId)%Z then []
             else
               let similarity :=
                 cosineSimilarity Math_sqrt productEmbedding embedding in
               if negb (Qle_bool similarity (3 # 10)) then
                 [{| recommended := product;
                     score := similarity;
                     reason := (Number_toFixed0 (similarity * 100) ++ "% similar")%string;
                     sourceProductId := Some productId |}]
               else [])
          allProducts in
      firstn limit (Array_sort (fun a b => score b - score a) recommendations)
  end.

End Similar.

(* ===================================================================== *)
(** ** Cosine similarity over the reals ([semanticSearch]) *)
(* ===================================================================== *)

Module Similarity.

Local Open Scope R_scope.

(** The loop of [cosineSimilarity] with its three running sums. *)
Definition cosineSums (a b : list R) : R * R * R :=
  fold_left
    (fun (acc : R * R * R) (xy : R * R) =>
       let '(dotProduct, normA, normB) := acc in
       let '(x, y) := xy in
       (dotProduct + x * y, normA + x * x, normB + y * y))
    (combine a b) (0, 0, 0).

Definition cosineSimilarity (a b : list R) : R :=
  if negb (List.length a =? List.length b)%nat then 0
  else
    let '(dotProduct, normA, normB) := cosineSums a b in
    let magnitude := sqrt normA * sqrt normB in
    if Req_dec_T magnitude 0 then 0 else dotProduct / magnitude.

End Similarity.

(* ===================================================================== *)
(** ** Predicates used to state the properties *)
(* ===================================================================== *)

(** The four optional filters of [semanticSearch] as one predicate on a
    product. *)
Definition passesFilters (options : SemanticSearchOptions) (p : Product) : bool :=
  match truthyString (optCategory options) with
  | Some cat => categoryMatches p cat
  | None => true
  end
  && match optMinPrice options with
     | Some minPrice => Qle_bool minPrice (priceNumber p)
     | None => true
     end
  && match optMaxPrice options with
     | Some maxPrice => Qle_bool (priceNumber p) maxPrice
     | None => true
     end
  && negb (optInStockOnly options && availabilityIs (availability p) out_of_stock).

(** The ranges of the schema for a row of [products]: a rating between 0
    and 5, a price and a stock quantity that are not negative. *)
Definition validProduct (p : Product) : Prop :=
  match rating p with Some r => 0 <= r <= 5 | None => True end
  /\ match price p with Some x => 0 <= x | None => True end
  /\ match stockQuantity p with Some q => (0 <= q)%Z | None => True end.

(* ===================================================================== *)
(** ** More concrete inputs *)
(* ===================================================================== *)

Module Samples.

(** A base-2 logarithm on the rationals, exact on the powers of two
    (rounded down elsewhere). *)
Definition log2Q (q : Q) : Q := inject_Z (Z.log2 (Qnum q / Zpos (Qden q))).

(** Three results, the products 1, 2 and 3 in this order. *)
Definition irResults : list IR.SearchResult :=
  [ {| IR.resultProductId := 1; IR.resultPosition := 1; IR.resultFinalScore := 9 # 10 |};
    {| IR.resultProductId := 2; IR.resultPosition := 2; IR.resultFinalScore := 8 # 10 |};
    {| IR.resultProductId := 3; IR.resultPosition := 3; IR.resultFinalScore := 7 # 10 |} ].

(** Product 1 highly relevant, product 2 not, product 4 (not among the
    results) relevant. *)
Definition irJudgments : list RelevanceJudgment :=
  [ {| productId := 1; relevanceScore := 3 |};
    {| productId := 2; relevanceScore := 0 |};
    {| productId := 4; relevanceScore := 2 |} ].

Definition zeroJudgments : list RelevanceJudgment :=
  [ {| productId := 1; relevanceScore := 0 |};
    {| productId := 2; relevanceScore := 0 |} ].

(** Judgments for the products 2, 1, 3 with the grades 1, 3, 2, and the
    results in the order of the grades: 1, 3, 2. *)
Definition gradedJudgments : list RelevanceJudgment :=
  [ {| productId := 2; relevanceScore := 1 |};
    {| productId := 1; relevanceScore := 3 |};
    {| productId := 3; relevanceScore := 2 |} ].

Definition idealResults : list IR.SearchResult :=
  [ {| IR.resultProductId := 1; IR.resultPosition := 1; IR.resultFinalScore := 9 # 10 |};
    {| IR.resultProductId := 3; IR.resultPosition := 2; IR.resultFinalScore := 8 # 10 |};
    {| IR.resultProductId := 2; IR.resultPosition := 3; IR.resultFinalScore := 7 # 10 |} ].

(** A catalogue of three featured products and one that is not. *)
Definition featured (pid : Z) (name : string) (r : option Q) : Product :=
  {| id := pid; title := name; description := None; category := Some "Kitchen";
     price := Some 50; rating := r;
     availability := Some in_stock; stockQuantity := Some 10%Z;
     isFeatured := true; createdAt := 0 |}.

Definition dbFeatured : Db :=
  {| products := [featured 1 "Kettle" (Some 4); featured 2 "Toaster" None;
                  Scenario.plainProduct 3 "Spoon";
                  featured 4 "Blender" (Some (45 # 10))];
     productEmbeddings := []; interactions := [];
     rankingWeights := [defaultWeights 1];
     searchLogs := []; searchResultExplanations := [] |}.

(** The catalogue of the priced products after one search: the log row 1
    and the explanation row of its only result. *)
Definition dbSearched : Db :=
  {| products := products Scenario.dbPrices;
     productEmbeddings := [];
     interactions := [];
     rankingWeights := [defaultWeights 1];
     searchLogs :=
       [{| logId := 1; logSessionId := "s9"; logQuery := "lamp";
           queryEmbedding := Scenario.queryVector; resultsCount := 1;
           logResponseTimeMs := 3;
           filters := {| filterCategory := None; filterMinPrice := None;
                         filterMaxPrice := None; filterInStockOnly := false |} |}];
     searchResultExplanations :=
       [{| searchLogId := 1; explainedProductId := 2; explainedPosition := 1;
           finalScore := 6 # 10; semanticScore := 5 # 10; ratingScore := 8 # 10;
           priceScore := 1 # 2; stockScore := 1; recencyScore := 1 # 10;
           explainedTerms := ["lamp"] |}] |}.

(** Four products for the query "wireless bluetooth headphones": all
    terms in the title; one term in the title; one term in the
    description only; none. *)
Definition judged (pid : Z) (name : string) (text : option string) : Product :=
  {| id := pid; title := name; description := text; category := None;
     price := Some 10; rating := Some 4;
     availability := Some in_stock; stockQuantity := Some 10%Z;
     isFeatured := false; createdAt := 0 |}.

Definition judgedProducts : list Product :=
  [ judged 1 "Wireless Bluetooth Headphones" None;
    judged 2 "Wireless Mouse" None;
    judged 3 "Speaker" (Some "Connects over BLUETOOTH");
    judged 4 "Desk Lamp" None ].

Definition viewOfKettle : Interaction :=
  {| sessionId := "s9"; interactionProductId := 1; interactionType := view |}.

End Samples.

(* ===================================================================== *)
(** * Properties *)
(* ===================================================================== *)

(** ** Strings *)

Lemma isWhiteSpace_lowerChar (c : ascii) :
  Js.isWhiteSpace (Js.lowerChar c) = Js.isWhiteSpace c.
Proof. destruct c as [[] [] [] [] [] [] [] []]; reflexivity. Qed.

Lemma length_toLowerCase (s : string) :
  String.length (Js.toLowerCase s) = String.length s.
Proof. induction s as [| c s IH]; simpl; [reflexivity | now rewrite IH]. Qed.

Lemma split_ws_toLowerCase (s : string) :
  Js.split_ws (Js.toLowerCase s) = List.map Js.toLowerCase (Js.split_ws s).
Proof.
  induction s as [| c s IH]; [reflexivity |].
  cbn [Js.toLowerCase Js.split_ws].
  rewrite isWhiteSpace_lowerChar.
  destruct (Js.isWhiteSpace c).
  - destruct s as [| c' s']; [reflexivity |].
    cbn [Js.toLowerCase] in *. rewrite isWhiteSpace_lowerChar.
    destruct (Js.isWhiteSpace c'); cbn [List.map]; now rewrite <- IH.
  - rewrite IH. now destruct (Js.split_ws s).
Qed.

Lemma filter_map_comm {A B : Type} (f : B -> bool) (g : A -> B) (l : list A) :
  List.filter f (List.map g l) = List.map g (List.filter (fun x => f (g x)) l).
Proof.
  induction l as [| x l IH]; simpl; [reflexivity |].
  destruct (f (g x)); simpl; now rewrite IH.
Qed.

Lemma queryTermsOf_spec (query : string) :
  Js.queryTermsOf query =
  List.map Js.toLowerCase
    (List.filter (fun t => (2 <? String.length t)%nat) (Js.split_ws query)).
Proof.
  unfold Js.queryTermsOf. rewrite split_ws_toLowerCase, filter_map_comm.
  f_equal. apply List.filter_ext. intros t. now rewrite length_toLowerCase.
Qed.

(** Every query term is longer than two code units. *)
Lemma queryTermsOf_length (query t : string) :
  In t (Js.queryTermsOf query) -> (2 < String.length t)%nat.
Proof.
  unfold Js.queryTermsOf. intros H. apply List.filter_In in H as [_ H].
  now apply Nat.ltb_lt.
Qed.

(** C7 (as the code has it): the matched terms are the white-space tokens
    of the query that are longer than 2, lowercased, restricted to those
    that occur in the lowercased product text, in query order; a token
    that the query repeats is repeated (there is no deduplication). *)
Theorem extractMatchedTerms_refines_spec (query productText : string) :
  extractMatchedTerms query productText = matchedTerms_spec query productText.
Proof.
  unfold extractMatchedTerms, matchedTerms_spec.
  now rewrite queryTermsOf_spec.
Qed.

(** C7 (as stated) fails: on the query "red red shoes" and the text
    "Red Shoes" the token "red" is listed twice, so the list is not the
    deduplicated one. *)
Lemma extractMatchedTerms_keeps_duplicates :
  extractMatchedTerms "red red shoes" "Red Shoes" = ["red"; "red"; "shoes"]
  /\ ~ NoDup (extractMatchedTerms "red red shoes" "Red Shoes")
  /\ extractMatchedTerms "red red shoes" "Red Shoes"
     <> matchedTerms_spec_dedup "red red shoes" "Red Shoes".
Proof.
  split; [reflexivity |]. split.
  - intros H. change (NoDup ["red"; "red"; "shoes"]) in H.
    inversion H as [| x l Hin _]; subst. apply Hin. now left.
  - vm_compute. discriminate.
Qed.

(** ** Automatic relevance judgments *)

Lemma judge_loop (text ttl : string) (terms : list string) (m : nat) (b : bool) :
  fold_left
    (fun (st : nat * bool) term =>
       let '(matchCount, exactTitleMatch) := st in
       let matchCount :=
         if Js.includes text term then S matchCount else matchCount in
       let exactTitleMatch :=
         if Js.includes ttl term then true else exactTitleMatch in
       (matchCount, exactTitleMatch))
    terms (m, b)
  = ((m + List.length (List.filter (fun t => Js.includes text t) terms))%nat,
     b || existsb (fun t => Js.includes ttl t) terms).
Proof.
  revert m b. induction terms as [| t terms IH]; intros m b; simpl.
  - now rewrite Nat.add_0_r, orb_false_r.
  - rewrite IH. destruct (Js.includes text t), (Js.includes ttl t); simpl;
      f_equal; try lia; now destruct b.
Qed.

Lemma ratio_positive (m n : nat) :
  (0 < n)%nat ->
  Qle_bool (inject_Z (Z.of_nat m) / inject_Z (Z.of_nat n)) 0 = negb (0 <? m)%nat.
Proof.
  intros Hn.
  assert (Hn' : 0 < inject_Z (Z.of_nat n)).
  { change 0 with (inject_Z 0). rewrite <- Zlt_Qlt. lia. }
  destruct (0 <? m)%nat eqn:Hm; simpl.
  - apply Nat.ltb_lt in Hm. apply not_true_is_false. rewrite Qle_bool_iff.
    apply Qlt_not_le. apply Qlt_shift_div_l; [exact Hn' |].
    rewrite Qmult_0_l. change 0 with (inject_Z 0). rewrite <- Zlt_Qlt. lia.
  - apply Nat.ltb_ge in Hm. assert (m = 0%nat) as -> by lia.
    apply Qle_bool_iff. apply Qle_shift_div_r; [exact Hn' |].
    rewrite Qmult_0_l. apply Qle_refl.
Qed.

Lemma judgeProduct_spec (terms : list string) (p : Product) :
  judgeProduct terms p =
  {| productId := id p;
     relevanceScore :=
       relevance_spec (matchCount_spec terms p) (List.length terms)
                      (exactTitle_spec terms p) |}.
Proof.
  unfold judgeProduct. rewrite judge_loop. cbn [orb Nat.add]. f_equal.
  unfold relevance_spec, matchCount_spec, exactTitle_spec.
  destruct (List.length terms) as [| n] eqn:Hlen; [reflexivity |].
  cbn [Nat.ltb Nat.leb Nat.eqb].
  rewrite ratio_positive by lia. now rewrite negb_involutive.
Qed.

(** C8: [generateAutoRelevanceJudgments] gives every product, in order,
    the piecewise relevance of the specification (3 when at least 0.8 of
    the query terms occur in the product text and one occurs in the
    title; else 2 when at least 0.5 occur or one occurs in the title;
    else 1 when one occurs; else 0, and 0 without query terms), where the
    query terms are the white-space tokens of the query longer than 2,
    lowercased; the result is a function of (query, products) alone, so
    two runs agree. *)
Theorem generateAutoRelevanceJudgments_spec (query : string) (ps : list Product) :
  generateAutoRelevanceJudgments query ps = judgments_spec query ps.
Proof.
  unfold generateAutoRelevanceJudgments, judgments_spec, queryTerms_spec.
  rewrite <- queryTermsOf_spec.
  apply List.map_ext. intros p. apply judgeProduct_spec.
Qed.

(** The four grades on the query "wireless bluetooth headphones": all
    three terms with a title match, one term in the title, one term in
    the description only, no term. *)
Lemma generateAutoRelevanceJudgments_spec_witness :
  generateAutoRelevanceJudgments "wireless  Bluetooth headphones by"
    Samples.judgedProducts
  = [ {| productId := 1; relevanceScore := 3 |};
      {| productId := 2; relevanceScore := 2 |};
      {| productId := 3; relevanceScore := 1 |};
      {| productId := 4; relevanceScore := 0 |} ]
  /\ generateAutoRelevanceJudgments "to be or" Samples.judgedProducts
     = [ {| productId := 1; relevanceScore := 0 |};
         {| productId := 2; relevanceScore := 0 |};
         {| productId := 3; relevanceScore := 0 |};
         {| productId := 4; relevanceScore := 0 |} ].
Proof.
  rewrite !generateAutoRelevanceJudgments_spec. split; vm_compute; reflexivity.
Defined.

(** ** Ranking weights *)

Lemma getActiveRankingWeights_found (db : Db) (row : RankingWeight) :
  selectActiveWeights db = Some row ->
  getActiveRankingWeights (Some db) = (row, Some db).
Proof.
  intros H. rewrite getActiveRankingWeights_equation_1.
  unfold getActiveRankingWeights_unfold_clause_2.
  destruct (inspect (selectActiveWeights db)) as [[r |] Ho];
    [congruence | congruence].
Qed.

Lemma getActiveRankingWeights_missing (db : Db) :
  selectActiveWeights db = None ->
  getActiveRankingWeights (Some db)
  = getActiveRankingWeights (Some (insertDefaultWeights db)).
Proof.
  intros H. rewrite getActiveRankingWeights_equation_1.
  unfold getActiveRankingWeights_unfold_clause_2.
  destruct (inspect (selectActiveWeights db)) as [[r |] Ho];
    [congruence | reflexivity].
Qed.

Lemma selectActiveWeights_after_insert (db : Db) :
  selectActiveWeights db = None ->
  selectActiveWeights (insertDefaultWeights db)
  = Some (defaultWeights (nextSerial (rankingWeights db))).
Proof.
  unfold selectActiveWeights, insertDefaultWeights; simpl.
  set (d := defaultWeights (nextSerial (rankingWeights db))).
  assert (Hd : isActive d = true) by reflexivity. clearbody d.
  induction (rankingWeights db) as [| r l IH]; simpl; [now rewrite Hd |].
  destruct (isActive r); [discriminate | exact IH].
Qed.

(** A second read after a call finds the row of the first one: nothing
    is inserted again. *)
Lemma getActiveRankingWeights_again (db : Db) :
  getActiveRankingWeights (snd (getActiveRankingWeights (Some db)))
  = getActiveRankingWeights (Some db).
Proof.
  destruct (selectActiveWeights db) as [row |] eqn:E.
  - rewrite (getActiveRankingWeights_found db row E). cbn [snd].
    apply (getActiveRankingWeights_found db row E).
  - rewrite (getActiveRankingWeights_missing db E).
    rewrite (getActiveRankingWeights_found _ _ (selectActiveWeights_after_insert db E)).
    cbn [snd].
    apply (getActiveRankingWeights_found _ _ (selectActiveWeights_after_insert db E)).
Qed.

(** C10: with a reachable database and no active row,
    [getActiveRankingWeights] returns the default weights
    (0.50, 0.20, 0.15, 0.10, 0.05), which it has inserted as an active
    row; the table has grown by exactly that one row, which the second
    read finds, so the call returns after one insertion. *)
Theorem getActiveRankingWeights_materializes_defaults (db : Db) :
  selectActiveWeights db = None ->
  let '(row, w') := getActiveRankingWeights (Some db) in
  row = defaultWeights (nextSerial (rankingWeights db))
  /\ (alpha row, beta row, gamma row, delta row, epsilon row)
     = (500 # 1000, 200 # 1000, 150 # 1000, 100 # 1000, 50 # 1000)
  /\ isActive row = true
  /\ w' = Some (insertDefaultWeights db)
  /\ rankingWeights (insertDefaultWeights db) = rankingWeights db ++ [row]
  /\ selectActiveWeights (insertDefaultWeights db) = Some row.
Proof.
  intros H.
  rewrite (getActiveRankingWeights_missing db H).
  rewrite (getActiveRankingWeights_found _ _ (selectActiveWeights_after_insert db H)).
  repeat split. now apply selectActiveWeights_after_insert.
Qed.

Lemma getActiveRankingWeights_materializes_defaults_witness :
  selectActiveWeights Scenario.emptyDb = None
  /\ getActiveRankingWeights (Some Scenario.emptyDb)
     = (defaultWeights 1,
        Some (insertDefaultWeights Scenario.emptyDb)).
Proof.
  split; [reflexivity |].
  pose proof (getActiveRankingWeights_materializes_defaults Scenario.emptyDb eq_refl) as H.
  destruct (getActiveRankingWeights (Some Scenario.emptyDb)) as [row w'].
  destruct H as (-> & _ & _ & -> & _). reflexivity.
Defined.

(** ** The embedding kernel *)

Module EmbeddingFacts.

Import Embedding.
Import Lra.
Local Open Scope R_scope.

Lemma tanh_0 : tanh 0 = 0.
Proof. unfold tanh. rewrite sinh_0. unfold Rdiv. apply Rmult_0_l. Qed.

Lemma tanh_pos (x : R) : 0 < x -> 0 < tanh x.
Proof.
  intros Hx. unfold tanh. apply Rdiv_lt_0_compat.
  - rewrite <- sinh_0. now apply sinh_lt.
  - unfold cosh. pose proof (exp_pos x). pose proof (exp_pos (- x)). lra.
Qed.

Lemma innerLoop_refSum (i : nat) (text : string) (j : nat) (value : R) :
  innerLoop i j text value = value + refSum i j text.
Proof.
  revert j value. induction text as [| c rest IH]; intros j value; simpl.
  - ring.
  - rewrite IH.
    replace (INR (i + 1) * INR (j + 1) * (1 / 100))
      with (1 / 100 * INR (i + 1) * INR (j + 1)) by ring.
    ring.
Qed.

Lemma rawEmbedding_components (text : string) :
  rawEmbedding text = List.map (refComponent text) (seq 0 EMBEDDING_DIMENSION).
Proof.
  unfold rawEmbedding, refComponent. apply List.map_ext. intros i.
  rewrite innerLoop_refSum. f_equal. ring.
Qed.

Lemma sumSquares_acc (v : list R) (a : R) :
  fold_left (fun sum val => sum + val * val) v a = a + sumSquares v.
Proof.
  unfold sumSquares. revert a. induction v as [| x v IH]; intros a; simpl.
  - ring.
  - rewrite IH, (IH (0 + x * x)). ring.
Qed.

Lemma sumSquares_cons (x : R) (v : list R) :
  sumSquares (x :: v) = x * x + sumSquares v.
Proof. unfold sumSquares at 1. simpl. rewrite sumSquares_acc. ring. Qed.

Lemma sumSquares_nonneg (v : list R) : 0 <= sumSquares v.
Proof.
  induction v as [| x v IH].
  - unfold sumSquares. simpl. lra.
  - rewrite sumSquares_cons. pose proof (Rle_0_sqr x) as Hx. unfold Rsqr in Hx. lra.
Qed.

Lemma sumSquares_scaled (m : R) (v : list R) :
  m <> 0 ->
  sumSquares (List.map (fun val => val / m) v) = sumSquares v / (m * m).
Proof.
  intros Hm. induction v as [| x v IH].
  - unfold sumSquares. simpl. unfold Rdiv. ring.
  - cbn [List.map]. rewrite !sumSquares_cons, IH. field. exact Hm.
Qed.

Lemma sumSquares_zero (v : list R) :
  Forall (fun x => x = 0) v -> sumSquares v = 0.
Proof.
  induction 1 as [| x v Hx _ IH].
  - reflexivity.
  - rewrite sumSquares_cons, IH, Hx. ring.
Qed.

(** [normalizeVector] returns a unit vector unless its argument has
    length zero, which it returns unchanged. *)
Lemma normalizeVector_norm (v : list R) :
  l2norm (normalizeVector v) = if Req_dec_T (l2norm v) 0 then 0 else 1.
Proof.
  unfold normalizeVector, l2norm.
  destruct (Req_dec_T (sqrt (sumSquares v)) 0) as [Hz | Hnz]; [exact Hz |].
  rewrite sumSquares_scaled by exact Hnz.
  rewrite sqrt_sqrt by apply sumSquares_nonneg.
  assert (sumSquares v <> 0).
  { intros H0. apply Hnz. rewrite H0. apply sqrt_0. }
  replace (sumSquares v / sumSquares v) with 1 by (field; assumption).
  apply sqrt_1.
Qed.

Lemma length_normalizeVector (v : list R) :
  List.length (normalizeVector v) = List.length v.
Proof.
  unfold normalizeVector.
  destruct (Req_dec_T _ _); [reflexivity | apply List.length_map].
Qed.

Lemma rawEmbedding_empty :
  Forall (fun x => x = 0) (rawEmbedding EmptyString).
Proof.
  unfold rawEmbedding. apply List.Forall_forall. intros x Hx.
  apply List.in_map_iff in Hx as (i & <- & _). simpl.
  rewrite Rmult_0_l. apply tanh_0.
Qed.

End EmbeddingFacts.

(** C9 (as the code has it): the deterministic embedding of every text
    has 384 components, is a function of the text, is the normalization
    of the reference construction
    [tanh(0.001 * sum_j code(t_j) * sin(0.01 * (i+1) * (j+1)))] on the
    lowercased text, and has Euclidean length 1 unless the constructed
    vector is the zero vector, which is returned as it is. *)
Theorem generateDeterministicEmbedding_unit_or_zero (text : string) :
  List.length (Embedding.generateDeterministicEmbedding text) = 384%nat
  /\ Embedding.rawEmbedding text
     = List.map (Embedding.refComponent text) (seq 0 384)
  /\ Embedding.generateDeterministicEmbedding text
     = Embedding.normalizeVector (Embedding.rawEmbedding text)
  /\ Embedding.l2norm (Embedding.generateDeterministicEmbedding text)
     = (if Req_dec_T (Embedding.l2norm (Embedding.rawEmbedding text)) 0
        then 0 else 1)%R.
Proof.
  split; [| split; [| split]].
  - unfold Embedding.generateDeterministicEmbedding.
    rewrite EmbeddingFacts.length_normalizeVector.
    unfold Embedding.rawEmbedding. now rewrite List.length_map, List.length_seq.
  - apply EmbeddingFacts.rawEmbedding_components.
  - reflexivity.
  - apply EmbeddingFacts.normalizeVector_norm.
Qed.

(** C9 (as stated) fails: the embedding of the empty text is the zero
    vector, whose length is 0 and not within 1e-6 of 1. *)
Lemma generateDeterministicEmbedding_empty_text_not_unit :
  Embedding.l2norm (Embedding.generateDeterministicEmbedding EmptyString) = 0%R
  /\ ~ (1 - 1 / 1000000
        <= Embedding.l2norm (Embedding.generateDeterministicEmbedding EmptyString)
        <= 1 + 1 / 1000000)%R.
Proof.
  assert (H : Embedding.l2norm (Embedding.generateDeterministicEmbedding EmptyString) = 0%R).
  { unfold Embedding.generateDeterministicEmbedding.
    rewrite EmbeddingFacts.normalizeVector_norm.
    destruct (Req_dec_T _ _) as [_ | Hnz]; [reflexivity |].
    exfalso. apply Hnz. unfold Embedding.l2norm.
    rewrite (EmbeddingFacts.sumSquares_zero _ EmbeddingFacts.rawEmbedding_empty).
    apply sqrt_0. }
  split; [exact H |]. rewrite H. Lra.lra.
Qed.

(** The text "a" is embedded as a unit vector: the first component of
    the construction is [tanh(0.001 * 97 * sin(0.01))], which is not 0. *)
Lemma generateDeterministicEmbedding_a_unit :
  Embedding.l2norm (Embedding.generateDeterministicEmbedding "a") = 1%R.
Proof.
  unfold Embedding.generateDeterministicEmbedding.
  rewrite EmbeddingFacts.normalizeVector_norm.
  destruct (Req_dec_T _ _) as [Hz | _]; [| reflexivity].
  exfalso. unfold Embedding.l2norm in Hz.
  apply sqrt_eq_0 in Hz; [| apply EmbeddingFacts.sumSquares_nonneg].
  unfold Embedding.rawEmbedding, Embedding.EMBEDDING_DIMENSION in Hz.
  change (seq 0 384) with (0%nat :: seq 1 383) in Hz.
  cbn [List.map] in Hz. rewrite EmbeddingFacts.sumSquares_cons in Hz.
  match type of Hz with (?t * ?t + ?r = _)%R =>
    assert (Ht : (0 < t)%R); [| pose proof (EmbeddingFacts.sumSquares_nonneg
      (List.map (fun i => tanh (Embedding.innerLoop i 0 (Js.toLowerCase "a") 0 * (1 / 1000)))
                (seq 1 383))); Lra.nra]
  end.
  apply EmbeddingFacts.tanh_pos. rewrite EmbeddingFacts.innerLoop_refSum.
  cbn [Js.toLowerCase Embedding.refSum].
  change (Js.lowerChar "a") with "a"%char.
  assert (Hs : (0 < sin (1 / 100 * INR (0 + 1) * INR (0 + 1)))%R).
  { apply sin_gt_0; simpl; pose proof PI2_1; Lra.lra. }
  assert (Hc : (Embedding.charCodeAt "a" = 97)%R).
  { unfold Embedding.charCodeAt. change (nat_of_ascii "a") with 97%nat.
    rewrite INR_IZR_INZ. reflexivity. }
  rewrite Hc. Lra.nra.
Qed.

(** ** Sorting *)

Lemma insertStable_In {A : Type} (before : A -> A -> bool) (x z : A) (l : list A) :
  In z (insertStable before x l) <-> z = x \/ In z l.
Proof.
  induction l as [| y l IH]; simpl.
  - intuition.
  - destruct (before y x); simpl; rewrite ?IH; intuition.
Qed.

Lemma stableSort_In {A : Type} (before : A -> A -> bool) (z : A) (l : list A) :
  In z (stableSort before l) <-> In z l.
Proof.
  induction l as [| x l IH]; simpl; [reflexivity |].
  rewrite insertStable_In, IH. intuition.
Qed.

Lemma Array_sort_In {A : Type} (cmp : A -> A -> Q) (z : A) (l : list A) :
  In z (Array_sort cmp l) <-> In z l.
Proof. apply stableSort_In. Qed.

Section SortFacts.

Context {A : Type}.
Variable key : A -> Q.


(** [compareFn(x, y) > 0] for the comparator [(a, b) => key(b) - key(a)]. *)
Lemma descending_before (y x : A) :
  negb (Qle_bool (key y - key x) 0) = true <-> key x < key y.
Proof.
  cbv beta. rewrite negb_true_iff, <- not_true_iff_false, Qle_bool_iff.
  split; intros H.
  - apply Qnot_le_lt in H. lra.
  - apply Qlt_not_le. lra.
Qed.



Lemma insertStable_sorted (x : A) (l : list A) :
  StronglySorted (fun a b => key b <= key a) l ->
  StronglySorted (fun a b => key b <= key a)
    (insertStable (fun y x => negb (Qle_bool (key y - key x) 0)) x l).
Proof.
  induction 1 as [| y l Hl IH Hy]; simpl.
  - constructor; [constructor | constructor].
  - destruct (negb (Qle_bool (key y - key x) 0)) eqn:E.
    + apply descending_before in E.
      constructor; [exact IH |].
      apply List.Forall_forall. intros z Hz.
      apply insertStable_In in Hz as [-> | Hz]; [lra |].
      rewrite List.Forall_forall in Hy. now apply Hy.
    + assert (Hxy : key y <= key x).
      { apply Qnot_lt_le. intros Hlt. apply descending_before in Hlt. congruence. }
      constructor; [constructor; assumption |].
      constructor; [exact Hxy |].
      rewrite List.Forall_forall in Hy |- *. intros z Hz.
      specialize (Hy z Hz). lra.
Qed.

(** [sort((a, b) => key(b) - key(a))] orders by [key], largest first. *)
Lemma Array_sort_descending_sorted (l : list A) :
  StronglySorted (fun a b => key b <= key a) (Array_sort (fun a b => key b - key a) l).
Proof.
  unfold Array_sort, stableSort. induction l as [| x l IH]; simpl.
  - constructor.
  - now apply insertStable_sorted.
Qed.

Lemma insertStable_filter_tied (s : Q) (x : A) (l : list A) :
  List.filter (fun a => Qeq_bool (key a) s)
    (insertStable (fun y x => negb (Qle_bool (key y - key x) 0)) x l)
  = List.filter (fun a => Qeq_bool (key a) s) (x :: l).
Proof.
  induction l as [| y l IH]; [reflexivity |].
  cbn [insertStable].
  destruct (negb (Qle_bool (key y - key x) 0)) eqn:E; [| reflexivity].
  apply descending_before in E.
  cbn [List.filter] in *. rewrite IH.
  destruct (Qeq_bool (key x) s) eqn:Ex; [| reflexivity].
  destruct (Qeq_bool (key y) s) eqn:Ey; [| reflexivity].
  apply Qeq_bool_iff in Ex, Ey. lra.
Qed.

(** The sort is stable: the elements of any one key keep their order. *)
Lemma Array_sort_descending_stable (s : Q) (l : list A) :
  List.filter (fun a => Qeq_bool (key a) s) (Array_sort (fun a b => key b - key a) l)
  = List.filter (fun a => Qeq_bool (key a) s) l.
Proof.
  unfold Array_sort, stableSort. induction l as [| x l IH]; [reflexivity |].
  cbn [fold_right]. rewrite insertStable_filter_tied.
  cbn [List.filter]. now rewrite IH.
Qed.


End SortFacts.

(** ** Sublists of [List.filter], [List.map] and [firstn] *)

Lemma sublist_List_filter {A : Type} (f : A -> bool) (l : list A) :
  sublist (List.filter f l) l.
Proof.
  induction l as [| x l IH]; simpl; [constructor |].
  destruct (f x); now constructor.
Qed.

Lemma sublist_List_filter_mono {A : Type} (f : A -> bool) (l1 l2 : list A) :
  sublist l1 l2 -> sublist (List.filter f l1) (List.filter f l2).
Proof.
  induction 1 as [| x l1 l2 _ IH | x l1 l2 _ IH]; simpl.
  - constructor.
  - destruct (f x); [now constructor | exact IH].
  - destruct (f x); [now constructor | exact IH].
Qed.

Lemma sublist_List_map {A B : Type} (g : A -> B) (l1 l2 : list A) :
  sublist l1 l2 -> sublist (List.map g l1) (List.map g l2).
Proof. induction 1; simpl; now constructor. Qed.

Lemma sublist_firstn {A : Type} (n : nat) (l : list A) :
  sublist (firstn n l) l.
Proof.
  revert n. induction l as [| x l IH]; intros [| n]; simpl.
  - constructor.
  - constructor.
  - apply sublist_nil_l.
  - now constructor.
Qed.

Lemma In_sublist {A : Type} (x : A) (l1 l2 : list A) :
  sublist l1 l2 -> In x l1 -> In x l2.
Proof.
  induction 1 as [| y l1 l2 _ IH | y l1 l2 _ IH]; simpl; intuition.
Qed.

(** ** The ranker *)

Section RankerFacts.

Variable Math_sqrt : Q -> Q.
Variable embed : string -> list Q.

(** [getActiveRankingWeights] answers without a database and leaves a
    database in place. *)
Lemma getActiveRankingWeights_world (w : World) :
  match snd (getActiveRankingWeights w) with
  | Some _ => w <> None
  | None => w = None
  end.
Proof.
  destruct w as [db |].
  - destruct (selectActiveWeights db) as [row |] eqn:E.
    + now rewrite (getActiveRankingWeights_found db row E).
    + rewrite (getActiveRankingWeights_missing db E).
      now rewrite (getActiveRankingWeights_found _ _
                     (selectActiveWeights_after_insert db E)).
  - now simp getActiveRankingWeights.
Qed.

(** What [semanticSearch] returns as results when the log row is
    accepted: the candidates scored, filtered, ranked. *)
Lemma semanticSearch_results (query : string) (options : SemanticSearchOptions)
    (now ms : Z) (w : World) :
  logSearchAccepts (optSessionId options) w = true ->
  searchResultsOf (semanticSearch Math_sqrt embed query options now ms w)
  = let cands := getAllProductsWithOptionalEmbeddings 5000 0 w in
    rankResults options
      (applyFilters options
         (List.map
            (scoreProduct Math_sqrt embed query (generateEmbedding embed query)
               (fst (getActiveRankingWeights w))
               (minPriceInSet cands) (maxPriceInSet cands) now)
            cands)).
Proof.
  intros Hacc. unfold semanticSearch, searchResultsOf.
  pose proof (getActiveRankingWeights_world w) as Hw.
  destruct (getActiveRankingWeights w) as [weights w1]. cbn [fst snd] in *.
  unfold logSearch. destruct w as [db |], w1 as [db1 |]; try congruence.
  - cbn [logSearchAccepts] in Hacc. rewrite Hacc. reflexivity.
  - reflexivity.
Qed.

Lemma logSearchAccepts_short (sid : string) (w : World) :
  (String.length sid <= 64)%nat -> logSearchAccepts sid w = true.
Proof. intros H. destruct w; [now apply Nat.leb_le | reflexivity]. Qed.

(** A call that throws returns nothing: the results are those of the
    ranking, or there are none. *)
Lemma semanticSearch_results_cases (query : string)
    (options : SemanticSearchOptions) (now ms : Z) (w : World) :
  searchResultsOf (semanticSearch Math_sqrt embed query options now ms w)
  = (let cands := getAllProductsWithOptionalEmbeddings 5000 0 w in
     rankResults options
       (applyFilters options
          (List.map
             (scoreProduct Math_sqrt embed query (generateEmbedding embed query)
                (fst (getActiveRankingWeights w))
                (minPriceInSet cands) (maxPriceInSet cands) now)
             cands)))
  \/ searchResultsOf (semanticSearch Math_sqrt embed query options now ms w) = [].
Proof.
  destruct (logSearchAccepts (optSessionId options) w) eqn:E.
  - left. now apply semanticSearch_results.
  - right. unfold semanticSearch, searchResultsOf.
    pose proof (getActiveRankingWeights_world w) as Hw.
    destruct (getActiveRankingWeights w) as [weights w1]. cbn [fst snd] in *.
    unfold logSearch. destruct w as [db |], w1 as [db1 |]; try congruence;
      try discriminate.
    cbn [logSearchAccepts] in E. rewrite E. reflexivity.
Qed.

Lemma withPositions_In (r : SearchResult) (l : list SearchResult) (i : nat) :
  In r (withPositions i l) ->
  exists r0, In r0 l /\ product r = product r0 /\ scores r = scores r0
             /\ matchedTerms r = matchedTerms r0.
Proof.
  revert i. induction l as [| x l IH]; intros i; simpl; [tauto |].
  intros [<- | H].
  - exists x. simpl. auto.
  - destruct (IH _ H) as (r0 & Hin & Heq). exists r0. auto.
Qed.

Lemma withPositions_sorted (l : list SearchResult) (i : nat) :
  StronglySorted (fun a b => final (scores b) <= final (scores a)) l ->
  StronglySorted (fun a b => final (scores b) <= final (scores a))
    (withPositions i l).
Proof.
  intros H. revert i. induction H as [| x l Hl IH Hx]; intros i; simpl.
  - constructor.
  - constructor; [apply IH |]. cbn [scores].
    apply List.Forall_forall. intros r Hr.
    apply withPositions_In in Hr as (r0 & Hin & _ & -> & _).
    rewrite List.Forall_forall in Hx. now apply Hx.
Qed.

Lemma withPositions_positions (l : list SearchResult) (i : nat) :
  List.map position (withPositions i l) = seq (i + 1) (List.length l).
Proof.
  revert i. induction l as [| x l IH]; intros i; simpl; [reflexivity |].
  f_equal. rewrite IH. reflexivity.
Qed.

Lemma withPositions_tied (f : Scores -> bool) (l : list SearchResult) (i : nat) :
  List.map product (List.filter (fun r => f (scores r)) (withPositions i l))
  = List.map product (List.filter (fun r => f (scores r)) l).
Proof.
  revert i. induction l as [| x l IH]; intros i; simpl; [reflexivity |].
  destruct (f (scores x)); simpl; now rewrite IH.
Qed.

Lemma length_withPositions (l : list SearchResult) (i : nat) :
  List.length (withPositions i l) = List.length l.
Proof. revert i. induction l; intros i; simpl; auto. Qed.

Lemma StronglySorted_firstn {A : Type} (R : A -> A -> Prop) (n : nat) (l : list A) :
  StronglySorted R l -> StronglySorted R (firstn n l).
Proof.
  intros H. revert n. induction H as [| x l Hl IH Hx]; intros [| n]; simpl;
    try constructor.
  - apply IH.
  - rewrite List.Forall_forall in Hx |- *. intros y Hy. apply Hx.
    eapply In_sublist; [apply sublist_firstn | eassumption].
Qed.

Lemma applyFilters_sublist (options : SemanticSearchOptions) (l : list SearchResult) :
  sublist (applyFilters options l) l.
Proof.
  unfold applyFilters.
  destruct (truthyString (optCategory options)), (optMinPrice options),
    (optMaxPrice options), (optInStockOnly options);
    repeat (first [ apply reflexivity
                  | etransitivity; [apply sublist_List_filter |] ]).
Qed.

Lemma scoreProduct_product (query : string) (qe : list Q) (weights : RankingWeight)
    (m M : Q) (now : Z) (cand : Product * option (list Q)) :
  product (scoreProduct Math_sqrt embed query qe weights m M now cand) = fst cand.
Proof. now destruct cand. Qed.

(** C3 (as the code has it): the results come with final scores that do
    not increase along the ranks 1, 2, ...; results with equal final
    scores stand in the order in which the candidate set lists their
    products (the sort is stable), whatever their ids. *)
Theorem ranker_sorted_ties_in_candidate_order (query : string)
    (options : SemanticSearchOptions) (now ms : Z) (w : World) :
  let results :=
    searchResultsOf (semanticSearch Math_sqrt embed query options now ms w) in
  StronglySorted (fun a b => final (scores b) <= final (scores a)) results
  /\ List.map position results = seq 1 (List.length results)
  /\ forall s : Q,
       sublist
         (List.map product
            (List.filter (fun r => Qeq_bool (final (scores r)) s) results))
         (List.map fst (getAllProductsWithOptionalEmbeddings 5000 0 w)).
Proof.
  cbv zeta.
  destruct (semanticSearch_results_cases query options now ms w) as [-> | ->];
    [| split; [constructor | split; [reflexivity | intros s; apply sublist_nil_l]]].
  cbv zeta.
  set (cands := getAllProductsWithOptionalEmbeddings 5000 0 w).
  set (scored := List.map _ cands).
  unfold rankResults. split; [| split].
  - apply withPositions_sorted, StronglySorted_firstn.
    apply (Array_sort_descending_sorted (fun r => final (scores r))).
  - rewrite withPositions_positions, length_withPositions. reflexivity.
  - intros s.
    rewrite (withPositions_tied (fun sc => Qeq_bool (final sc) s)).
    etransitivity.
    { apply sublist_List_map, sublist_List_filter_mono, sublist_firstn. }
    rewrite (Array_sort_descending_stable (fun r => final (scores r))).
    etransitivity.
    { apply sublist_List_map. etransitivity; [apply sublist_List_filter |].
      etransitivity; [apply sublist_List_filter |]. apply applyFilters_sublist. }
    subst scored. rewrite List.map_map.
    erewrite List.map_ext; [reflexivity |].
    intros c. apply scoreProduct_product.
Qed.

End RankerFacts.

(** C3 (as stated) fails: two products with the same attributes, the one
    with id 2 listed first by the store, are returned with equal final
    scores at ranks 1 and 2 in that order, id 2 before id 1. *)
Lemma ranker_ties_not_by_id :
  exists r1 r2,
    searchResultsOf
      (semanticSearch Scenario.sqrtQ Scenario.embedConst "desk lamp"
         defaultOptions 0 5 (Some Scenario.dbTies)) = [r1; r2]
    /\ position r1 = 1%nat /\ position r2 = 2%nat
    /\ final (scores r1) == final (scores r2)
    /\ id (product r1) = 2%Z /\ id (product r2) = 1%Z.
Proof.
  eexists; eexists. split; [vm_compute; reflexivity |].
  repeat split.
Qed.

Lemma Math_min_positive (xs : list Q) :
  Forall (fun x => 0 < x) xs -> Math_min xs 0 == 0.
Proof.
  induction 1 as [| x xs Hx _ IH]; [reflexivity |].
  cbn [Math_min fold_right]. fold (Math_min xs 0).
  rewrite Q.min_r; [exact IH |]. rewrite IH. now apply Qlt_le_weak.
Qed.

(** C2 (the code misses it): the lower end of the price range is
    [Math.min(...prices, 0)] over prices that were filtered to be
    positive, so it is 0 for every candidate set and not the lowest
    price.  With one candidate, priced 10, the range is (0, 10) and the
    price sub-score is 0, not the 0.5 of a one-element set; with the
    prices (unknown, 10, 20) the cheapest priced product gets 0.5
    instead of 1 and the product without a price gets 1 instead of 0.5. *)
Theorem price_range_minimum_is_always_zero :
  (forall cands, minPriceInSet cands == 0)
  /\ (exists r,
        searchResultsOf
          (semanticSearch Scenario.sqrtQ Scenario.embedConst "desk lamp"
             defaultOptions 0 5 (Some Scenario.dbOnePrice)) = [r]
        /\ price (product r) = Some 10
        /\ scorePrice (scores r) == 0
        /\ ~ scorePrice (scores r) == 1 # 2)
  /\ (exists r1 r2 r3,
        searchResultsOf
          (semanticSearch Scenario.sqrtQ Scenario.embedConst "desk lamp"
             defaultOptions 0 5 (Some Scenario.dbPrices)) = [r1; r2; r3]
        /\ price (product r1) = None
        /\ scorePrice (scores r1) == 1
        /\ price (product r2) = Some 10
        /\ scorePrice (scores r2) == 1 # 2
        /\ price (product r3) = Some 20
        /\ scorePrice (scores r3) == 0).
Proof.
  split; [| split].
  - intros cands. unfold minPriceInSet. apply Math_min_positive.
    apply List.Forall_forall. intros x Hx. apply List.filter_In in Hx as [_ Hx].
    apply negb_true_iff in Hx. apply Qnot_le_lt. intros Hle.
    apply Qle_bool_iff in Hle. congruence.
  - eexists. split; [vm_compute; reflexivity |].
    repeat split. intros H. vm_compute in H. discriminate.
  - eexists; eexists; eexists. split; [vm_compute; reflexivity |].
    repeat split.
Qed.

(** ** Scenario S1 *)

Section ScenarioS1.

Variable Math_sqrt : Q -> Q.
Variable embed : string -> list Q.

Lemma scoreProduct_final (query : string) (qe : list Q) (weights : RankingWeight)
    (m M : Q) (now : Z) (p : Product) (e : option (list Q)) :
  final (scores (scoreProduct Math_sqrt embed query qe weights m M now (p, e)))
  = alpha weights
    * Qmax 0 (cosineSimilarity Math_sqrt qe
                (match e with Some v => v | None => embed (productTextOf p) end)
              + keywordBoost query (extractMatchedTerms query (productTextOf p)))
    + beta weights * normalizeRatingScore (rating p)
    + gamma weights * normalizePriceScore (priceNumber p) m M
    + delta weights * normalizeStockScore (availability p) (stockQuantity p)
    + epsilon weights * normalizeRecencyScore now (createdAt p).
Proof. reflexivity. Qed.

(** Two scored candidates, the second with the larger final score, both
    at or above the threshold, and room for two results. *)
Lemma rankResults_swap (options : SemanticSearchOptions) (rB rA : SearchResult) :
  optMinScore options <= final (scores rB) ->
  final (scores rB) < final (scores rA) ->
  (2 <= optLimit options)%nat ->
  rankResults options [rB; rA]
  = [ {| product := product rA; scores := scores rA;
         matchedTerms := matchedTerms rA; position := 1 |};
      {| product := product rB; scores := scores rB;
         matchedTerms := matchedTerms rB; position := 2 |} ].
Proof.
  intros HB HAB Hlim. unfold rankResults. cbn [List.filter].
  assert (E1 : Qle_bool (optMinScore options) (final (scores rB)) = true)
    by now apply Qle_bool_iff.
  assert (E2 : Qle_bool (optMinScore options) (final (scores rA)) = true)
    by (apply Qle_bool_iff; lra).
  rewrite E1, E2. unfold Array_sort, stableSort. cbn [fold_right insertStable].
  assert (E3 : Qle_bool (final (scores rA) - final (scores rB)) 0 = false).
  { apply not_true_is_false. rewrite Qle_bool_iff. intros H. lra. }
  rewrite E3. cbn [negb].
  destruct (optLimit options) as [| [| n]]; [lia | lia |].
  cbn [firstn]. rewrite List.firstn_nil. reflexivity.
Qed.

Lemma stock_full (qty : Z) :
  (500 <= qty)%Z -> normalizeStockScore (Some in_stock) (Some qty) == 1.
Proof.
  intros H. unfold normalizeStockScore.
  apply Q.min_l.
  assert (Hq : 500 <= inject_Z qty).
  { change 500 with (inject_Z 500). now rewrite <- Zle_Qle. }
  assert (1 <= inject_Z qty / 500).
  { apply Qle_shift_div_l; lra. }
  lra.
Qed.

Lemma recency_full (now created : Z) :
  (now - created <= 30 * Scenario.msPerDay)%Z ->
  normalizeRecencyScore now created = 1.
Proof.
  intros H. unfold normalizeRecencyScore.
  replace (Qle_bool _ 30) with true; [reflexivity |].
  symmetry. apply Qle_bool_iff.
  apply Qle_shift_div_r; [reflexivity |].
  change (30 * inject_Z (1000 * 60 * 60 * 24))
    with (inject_Z 30 * inject_Z Scenario.msPerDay).
  rewrite <- inject_Z_mult, <- Zle_Qle. exact H.
Qed.

(** C1 (as the code has it): in scenario S1 the ranker returns A at rank
    1 and B at rank 2; A's matched terms are exactly "wireless",
    "bluetooth", "headphones"; with [pi] the price sub-score that both
    products get, A's final score is
    0.5 * (0.88 + 0.5) + 0.2 * 0.96 + 0.15 * pi + 0.1 * 1 + 0.05 * 1
    (the boosted semantic score 1.38 is not capped at 1) and B's is
    0.5 * 0.05 + 0.2 * 1 + 0.15 * pi + 0.1 * 1 + 0.05 * 1. *)
Theorem scenario_S1_ranking (eA eB : list Q) (qty created now ms : Z) :
  cosineSimilarity Math_sqrt (embed Scenario.queryS1) eA == 88 # 100 ->
  cosineSimilarity Math_sqrt (embed Scenario.queryS1) eB == 5 # 100 ->
  (500 <= qty)%Z ->
  (now - created <= 30 * Scenario.msPerDay)%Z ->
  exists rA rB,
    searchResultsOf
      (semanticSearch Math_sqrt embed Scenario.queryS1 Scenario.optionsS1 now ms
         (Some (Scenario.dbS1 eA eB (Some qty) created))) = [rA; rB]
    /\ product rA = Scenario.productA (Some qty) created /\ position rA = 1%nat
    /\ product rB = Scenario.productB (Some qty) created /\ position rB = 2%nat
    /\ matchedTerms rA = ["wireless"; "bluetooth"; "headphones"]
    /\ matchedTerms rB = []
    /\ scorePrice (scores rA) == scorePrice (scores rB)
    /\ final (scores rA)
       == (5 # 10) * ((88 # 100) + (5 # 10)) + (2 # 10) * (96 # 100)
          + (15 # 100) * scorePrice (scores rA) + (1 # 10) * 1 + (5 # 100) * 1
    /\ final (scores rB)
       == (5 # 10) * (5 # 100) + (2 # 10) * 1
          + (15 # 100) * scorePrice (scores rB) + (1 # 10) * 1 + (5 # 100) * 1
    /\ final (scores rB) < final (scores rA).
Proof.
  intros HcA HcB Hqty Hage.
  rewrite semanticSearch_results by reflexivity. cbv zeta.
  rewrite (getActiveRankingWeights_found
             (Scenario.dbS1 eA eB (Some qty) created) (defaultWeights 1) eq_refl).
  cbn [fst].
  change (getAllProductsWithOptionalEmbeddings 5000 0
            (Some (Scenario.dbS1 eA eB (Some qty) created)))
    with [(Scenario.productB (Some qty) created, Some eB);
          (Scenario.productA (Some qty) created, Some eA)].
  set (m := minPriceInSet _). set (M := maxPriceInSet _).
  cbn [List.map].
  set (sB := scoreProduct _ _ _ _ _ _ _ _ (Scenario.productB _ _, _)).
  set (sA := scoreProduct _ _ _ _ _ _ _ _ (Scenario.productA _ _, _)).
  change (applyFilters Scenario.optionsS1 [sB; sA]) with [sB; sA].
  assert (HfA : final (scores sA)
                == (5 # 10) * ((88 # 100) + (5 # 10)) + (2 # 10) * (96 # 100)
                   + (15 # 100) * scorePrice (scores sA) + (1 # 10) * 1 + (5 # 100) * 1).
  { subst sA. rewrite scoreProduct_final. unfold generateEmbedding.
    cbn [scorePrice scores scoreProduct].
    set (kb := keywordBoost _ _). vm_compute in kb. subst kb.
    cbn [Scenario.productA availability stockQuantity createdAt rating
         normalizeRatingScore alpha beta gamma delta epsilon defaultWeights].
    rewrite stock_full by exact Hqty. rewrite recency_full by exact Hage.
    rewrite HcA. rewrite Q.max_r by (vm_compute; discriminate).
    field. }
  assert (HfB : final (scores sB)
                == (5 # 10) * (5 # 100) + (2 # 10) * 1
                   + (15 # 100) * scorePrice (scores sB) + (1 # 10) * 1 + (5 # 100) * 1).
  { subst sB. rewrite scoreProduct_final. unfold generateEmbedding.
    cbn [scorePrice scores scoreProduct].
    set (kb := keywordBoost _ _). vm_compute in kb. subst kb.
    cbn [Scenario.productB availability stockQuantity createdAt rating
         normalizeRatingScore alpha beta gamma delta epsilon defaultWeights].
    rewrite stock_full by exact Hqty. rewrite recency_full by exact Hage.
    rewrite HcB. rewrite Q.max_r by (vm_compute; discriminate).
    field. }
  assert (Hp : scorePrice (scores sA) = scorePrice (scores sB)) by reflexivity.
  assert (Hlt : final (scores sB) < final (scores sA)).
  { rewrite HfA, HfB, Hp. lra. }
  assert (Hpi : 0 <= scorePrice (scores sB)).
  { subst sB m M. vm_compute. discriminate. }
  rewrite rankResults_swap; [| | exact Hlt | cbn; lia].
  2:{ rewrite HfB. change (optMinScore Scenario.optionsS1) with (1 # 10). lra. }
  eexists; eexists. split; [reflexivity |].
  cbn [product position matchedTerms scores].
  repeat split; try reflexivity; assumption.
Qed.

End ScenarioS1.

(** C1 (as stated) fails: with stored embeddings at cosine 0.88 and 0.05
    from the query vector, stock quantity 500 and products 30 days old,
    A's final score is 1.032 and B's is 0.375, not 0.917 and 0.450; A's
    score differs from the stated one also apart from the price term. *)
Lemma scenario_S1_scores_differ :
  exists rA rB,
    searchResultsOf
      (semanticSearch Scenario.sqrtQ Scenario.embedConst Scenario.queryS1
         Scenario.optionsS1 (30 * Scenario.msPerDay) 12
         (Some (Scenario.dbS1 Scenario.embeddingA Scenario.embeddingB (Some 500%Z) 0)))
    = [rA; rB]
    /\ cosineSimilarity Scenario.sqrtQ (Scenario.embedConst Scenario.queryS1)
         Scenario.embeddingA == 88 # 100
    /\ cosineSimilarity Scenario.sqrtQ (Scenario.embedConst Scenario.queryS1)
         Scenario.embeddingB == 5 # 100
    /\ id (product rA) = 1%Z /\ id (product rB) = 2%Z
    /\ final (scores rA) == 1032 # 1000 /\ ~ final (scores rA) == 917 # 1000
    /\ ~ final (scores rA) - (15 # 100) * scorePrice (scores rA)
         == (917 # 1000) - (15 # 100) * (5 # 10)
    /\ final (scores rB) == 375 # 1000 /\ ~ final (scores rB) == 450 # 1000.
Proof.
  eexists; eexists. split; [vm_compute; reflexivity |].
  repeat split; intros H; vm_compute in H; discriminate.
Qed.

Lemma scenario_S1_ranking_witness :
  exists rA rB,
    searchResultsOf
      (semanticSearch Scenario.sqrtQ Scenario.embedConst Scenario.queryS1
         Scenario.optionsS1 (30 * Scenario.msPerDay) 12
         (Some (Scenario.dbS1 Scenario.embeddingA Scenario.embeddingB (Some 500%Z) 0)))
    = [rA; rB]
    /\ product rA = Scenario.productA (Some 500%Z) 0
    /\ matchedTerms rA = ["wireless"; "bluetooth"; "headphones"]
    /\ final (scores rB) < final (scores rA).
Proof.
  destruct (scenario_S1_ranking Scenario.sqrtQ Scenario.embedConst
              Scenario.embeddingA Scenario.embeddingB 500 0
              (30 * Scenario.msPerDay) 12)
    as (rA & rB & H1 & H2 & _ & _ & _ & H3 & _ & _ & _ & _ & H4).
  - reflexivity.
  - reflexivity.
  - lia.
  - reflexivity.
  - exists rA, rB. repeat split; assumption.
Defined.

(** ** The keyword fallback *)

Lemma getActiveRankingWeights_tables (db : Db) :
  exists row db1,
    getActiveRankingWeights (Some db) = (row, Some db1)
    /\ products db1 = products db
    /\ productEmbeddings db1 = productEmbeddings db
    /\ interactions db1 = interactions db
    /\ searchLogs db1 = searchLogs db
    /\ searchResultExplanations db1 = searchResultExplanations db.
Proof.
  destruct (selectActiveWeights db) as [row |] eqn:E.
  - exists row, db. rewrite (getActiveRankingWeights_found db row E).
    repeat split.
  - exists (defaultWeights (nextSerial (rankingWeights db))), (insertDefaultWeights db).
    rewrite (getActiveRankingWeights_missing db E).
    rewrite (getActiveRankingWeights_found _ _ (selectActiveWeights_after_insert db E)).
    repeat split.
Qed.

Lemma mapWithIndex_products (l : list Product) (i : nat) :
  List.map product (mapWithIndex keywordResult i l) = l.
Proof. revert i. induction l as [| p l IH]; intros i; simpl; [| rewrite IH]; reflexivity. Qed.

Lemma mapWithIndex_positions (l : list Product) (i : nat) :
  List.map position (mapWithIndex keywordResult i l) = seq (i + 1) (List.length l).
Proof.
  revert i. induction l as [| p l IH]; intros i; simpl; [reflexivity |].
  f_equal. rewrite IH. reflexivity.
Qed.

Lemma length_mapWithIndex (l : list Product) (i : nat) :
  List.length (mapWithIndex keywordResult i l) = List.length l.
Proof. revert i. induction l; intros i; simpl; auto. Qed.

Lemma mapWithIndex_In (r : SearchResult) (l : list Product) (i : nat) :
  In r (mapWithIndex keywordResult i l) -> exists p j, r = keywordResult p j.
Proof.
  revert i. induction l as [| p l IH]; intros i; simpl; [tauto |].
  intros [<- | H]; [now exists p, i | now apply IH in H].
Qed.

Section FallbackFacts.

Variable Math_sqrt : Q -> Q.
Variable embed : string -> list Q.

(** C4 (as the code has it): whenever the local ranker returns no result
    (whatever the tokens of the query) for a session id of at most 64
    characters, which the search log accepts, the search operation answers
    with the keyword fallback and the flag [fallbackUsed: "keyword"]: of
    the products whose title, description or category match the pattern
    [%query%] (the query trimmed, case-insensitive), the first [limit],
    restricted by the category, price and stock filters of the request,
    each with final score 0.5, semantic 0, rating = rating/5 (0.5 without
    a rating), price 0.5, stock 0 for out_of_stock and 1 for in_stock,
    recency 0.5; the ranker has written the row of the search log. *)
Theorem keyword_fallback_on_empty_ranking (input : SearchInput) (sid : string)
    (now ms : Z) (db : Db) :
  (String.length sid <= 64)%nat ->
  searchResultsOf
    (semanticSearch Math_sqrt embed (inputQuery input) (optionsOfInput input sid)
       now ms (Some db)) = [] ->
  exists resp db' log,
    searchSemanticLocal Math_sqrt embed input sid now ms (Some db)
    = (Some resp, Some db')
    /\ fallbackUsed resp = Some "keyword"
    /\ List.map product (results resp)
       = List.filter (keepKeywordProduct input)
           (firstn (inputLimit input)
              (List.filter (keywordMatches (inputQuery input)) (products db)))
    /\ List.map position (results resp) = seq 1 (List.length (results resp))
    /\ (forall r, In r (results resp) ->
          final (scores r) = 5 # 10
          /\ semantic (scores r) = 0
          /\ scoreRating (scores r)
             = match rating (product r) with Some x => x / 5 | None => 5 # 10 end
          /\ scorePrice (scores r) = 5 # 10
          /\ (availability (product r) = Some out_of_stock ->
              scoreStock (scores r) = 0)
          /\ (availability (product r) = Some in_stock ->
              scoreStock (scores r) = 1)
          /\ scoreRecency (scores r) = 5 # 10
          /\ matchedTerms r = [])
    /\ searchLogs db' = searchLogs db ++ [log]
    /\ logQuery log = inputQuery input
    /\ resultsCount log = 0%nat
    /\ responseSearchLogId resp = logId log.
Proof.
  intros Hsid Hempty. apply Nat.leb_le in Hsid.
  rewrite semanticSearch_results in Hempty by exact Hsid. cbv zeta in Hempty.
  destruct (getActiveRankingWeights_tables db)
    as (row & db1 & Hw & Hp & _ & _ & Hl & _).
  rewrite Hw in Hempty. cbn [fst] in Hempty.
  unfold searchSemanticLocal, semanticSearch. rewrite Hw.
  cbv beta iota zeta. rewrite Hempty.
  cbn [logSearch optionsOfInput optSessionId]. rewrite Hsid.
  cbn [List.length Nat.ltb Nat.leb andb Nat.eqb].
  rewrite andb_false_r. cbn [searchProductsByKeyword].
  do 3 eexists. split; [reflexivity |].
  cbn [results fallbackUsed responseSearchLogId searchLogs logQuery resultsCount logId products].
  rewrite Hp, Hl, mapWithIndex_products, mapWithIndex_positions,
    length_mapWithIndex.
  split; [reflexivity |]. split; [reflexivity |]. split; [reflexivity |].
  split.
  - intros r H. apply mapWithIndex_In in H as (p & j & ->).
    cbn [keywordResult scores product final semantic scoreRating scorePrice
         scoreStock scoreRecency matchedTerms].
    repeat split; intros ->; reflexivity.
  - repeat split.
Qed.

End FallbackFacts.

(** C4 (as stated) fails: for the query "unicorn plush" with threshold 1
    and limit 1 the ranker returns nothing; the fallback returns the
    low-stock product "Unicorn Plush Toy" with stock sub-score 1, not
    0.5, and leaves out "Giant Unicorn Plush", whose title contains the
    query as well. *)
Lemma keyword_fallback_low_stock_scores_one :
  searchResultsOf
    (semanticSearch Scenario.sqrtQ Scenario.embedConst "unicorn plush"
       (optionsOfInput Scenario.inputS5 "sess") 0 5 (Some Scenario.dbS5)) = []
  /\ exists resp r,
       fst (searchSemanticLocal Scenario.sqrtQ Scenario.embedConst
              Scenario.inputS5 "sess" 0 5 (Some Scenario.dbS5)) = Some resp
       /\ results resp = [r]
       /\ product r = Scenario.unicorn
       /\ availability (product r) = Some low_stock
       /\ scoreStock (scores r) = 1
       /\ ~ scoreStock (scores r) == 1 # 2
       /\ In Scenario.unicornGiant (products Scenario.dbS5)
       /\ Js.includes (Js.toLowerCase (title Scenario.unicornGiant))
            (Js.toLowerCase "unicorn plush") = true.
Proof.
  split; [vm_compute; reflexivity |].
  eexists; eexists. split; [vm_compute; reflexivity |].
  repeat split.
  - intros H. vm_compute in H. discriminate.
  - right. left. reflexivity.
Qed.

Lemma keyword_fallback_on_empty_ranking_witness :
  exists resp db' log,
    searchSemanticLocal Scenario.sqrtQ Scenario.embedConst Scenario.inputS5
      "sess" 0 5 (Some Scenario.dbS5) = (Some resp, Some db')
    /\ fallbackUsed resp = Some "keyword"
    /\ List.map product (results resp) = [Scenario.unicorn]
    /\ searchLogs db' = searchLogs Scenario.dbS5 ++ [log].
Proof.
  destruct (keyword_fallback_on_empty_ranking Scenario.sqrtQ Scenario.embedConst
              Scenario.inputS5 "sess" 0 5 Scenario.dbS5)
    as (resp & db' & log & H1 & H2 & H3 & _ & _ & H4 & _).
  - vm_compute. lia.
  - vm_compute. reflexivity.
  - exists resp, db', log. repeat split; assumption.
Defined.

(** ** Session recommendations *)

(** Closed comparisons of rationals. *)
Ltac q_closed :=
  vm_compute; first [ reflexivity | discriminate | (intro; discriminate) ].

Section ScenarioS4.

Variable Math_sqrt : Q -> Q.

(** The inner loop on two interacted products when the first one has a
    positive similarity that the second one does not exceed. *)
Lemma matchCandidate_first_best (e : list Q) (i1 i2 : Interacted) :
  0 < cosineSimilarity Math_sqrt e (interactedEmbedding i1) ->
  cosineSimilarity Math_sqrt e (interactedEmbedding i2)
  <= cosineSimilarity Math_sqrt e (interactedEmbedding i1) ->
  matchCandidate Math_sqrt e [i1; i2]
  = (0 + cosineSimilarity Math_sqrt e (interactedEmbedding i1) * interactedScore i1
       + cosineSimilarity Math_sqrt e (interactedEmbedding i2) * interactedScore i2,
     (interactedId i1, cosineSimilarity Math_sqrt e (interactedEmbedding i1))).
Proof.
  intros H1 H2. unfold matchCandidate. cbn [fold_left snd].
  assert (E1 : Qle_bool (cosineSimilarity Math_sqrt e (interactedEmbedding i1)) 0 = false).
  { apply not_true_is_false. rewrite Qle_bool_iff. intros H. lra. }
  rewrite E1. cbn [negb snd].
  assert (E2 : Qle_bool (cosineSimilarity Math_sqrt e (interactedEmbedding i2))
                 (cosineSimilarity Math_sqrt e (interactedEmbedding i1)) = true)
    by now apply Qle_bool_iff.
  rewrite E2. reflexivity.
Qed.

(** C6 (as the code has it): in scenario S4 the interaction scores are 2
    for p1 (view, recency boost 2) and 6 for p2 (add_to_cart, boost 1.5),
    the affinities are 2.7 for cX and 0.4 for cY, both are kept, cX is
    first, and cX's reason is "Very similar to items you viewed": its
    best match by raw cosine is the view of p1 (0.9 against 0.6). *)
Theorem scenario_S4_affinity (e1 e2 eX eY : list Q) :
  cosineSimilarity Math_sqrt eX e1 == 9 # 10 ->
  cosineSimilarity Math_sqrt eX e2 == 6 # 10 ->
  cosineSimilarity Math_sqrt eY e1 == 1 # 10 ->
  cosineSimilarity Math_sqrt eY e2 == 1 # 10 ->
  let w := Some (Scenario.dbS4 e1 e2 eX eY) in
  let history := getSessionInteractions "s4" 20 w in
  List.map (fun i => (interactionType i, interactionProductId i)) history
  = [(view, 1%Z); (add_to_cart, 2%Z)]
  /\ (exists s1 s2,
        scoreInteractions 2 0 history [] = [(1%Z, (s1, view)); (2%Z, (s2, add_to_cart))]
        /\ s1 == 2 /\ s2 == 6)
  /\ exists rX rY,
       getSessionRecommendations Math_sqrt "s4" 8 [] w = [rX; rY]
       /\ recommended rX = Scenario.cX /\ recommended rY = Scenario.cY
       /\ score rX == 27 # 10 /\ score rY == 4 # 10
       /\ sourceProductId rX = Some 1%Z
       /\ reason rX = "Very similar to items you viewed".
Proof.
  intros HX1 HX2 HY1 HY2. cbv zeta.
  split; [reflexivity |].
  split; [do 2 eexists; split; [vm_compute; reflexivity | split; reflexivity] |].
  unfold getSessionRecommendations.
  change (getSessionInteractions "s4" 20 (Some (Scenario.dbS4 e1 e2 eX eY)))
    with [ {| sessionId := "s4"; interactionProductId := 1; interactionType := view |};
           {| sessionId := "s4"; interactionProductId := 2;
              interactionType := add_to_cart |} ].
  cbn [List.length Nat.eqb].
  set (productScores := scoreInteractions _ _ _ _).
  set (i1 := {| interactedId := 1; interactedEmbedding := e1; interactedScore := 4 # 2 |}).
  set (i2 := {| interactedId := 2; interactedEmbedding := e2; interactedScore := 12 # 2 |}).
  change (collectInteracted productScores (Some (Scenario.dbS4 e1 e2 eX eY)))
    with [i1; i2].
  cbn [List.length Nat.eqb].
  change (getProductsWithEmbeddings (Some (Scenario.dbS4 e1 e2 eX eY)))
    with [(Scenario.p1, e1); (Scenario.p2, e2); (Scenario.cX, eX); (Scenario.cY, eY)].
  cbn [flat_map].
  change (Map_keys productScores) with [1%Z; 2%Z].
  set (excludeSet := list_to_set _).
  replace (bool_decide (elem_of (id Scenario.p1) excludeSet)) with true by (symmetry; q_closed).
  replace (bool_decide (elem_of (id Scenario.p2) excludeSet)) with true by (symmetry; q_closed).
  replace (bool_decide (elem_of (id Scenario.cX) excludeSet)) with false by (symmetry; q_closed).
  replace (bool_decide (elem_of (id Scenario.cY) excludeSet)) with false by (symmetry; q_closed).
  rewrite (matchCandidate_first_best eX i1 i2)
    by (cbn [interactedEmbedding i1 i2]; rewrite ?HX1, ?HX2; q_closed).
  rewrite (matchCandidate_first_best eY i1 i2)
    by (cbn [interactedEmbedding i1 i2]; rewrite ?HY1, ?HY2; q_closed).
  cbn [interactedEmbedding interactedScore interactedId i1 i2 fst snd].
  set (aX := (0 + _ * _ + _ * _) / _).
  set (aY := (0 + _ * _ + _ * _) / _).
  assert (HaX : aX == 27 # 10) by (subst aX; rewrite HX1, HX2; q_closed).
  assert (HaY : aY == 4 # 10) by (subst aY; rewrite HY1, HY2; q_closed).
  replace (Qle_bool aX (1 # 10)) with false
    by (symmetry; apply not_true_is_false; rewrite Qle_bool_iff, HaX;
        apply Qlt_not_le; q_closed).
  replace (Qle_bool aY (1 # 10)) with false
    by (symmetry; apply not_true_is_false; rewrite Qle_bool_iff, HaY;
        apply Qlt_not_le; q_closed).
  cbn [negb List.app].
  change (Map_get 1%Z productScores) with (Some (4 # 2, view)).
  unfold Array_sort, stableSort. cbn [fold_right insertStable score].
  replace (Qle_bool (aY - aX) 0) with true
    by (symmetry; apply Qle_bool_iff; rewrite HaX, HaY; q_closed).
  cbn [negb firstn].
  do 2 eexists. split; [reflexivity |].
  cbn [recommended score sourceProductId reason].
  repeat split; try assumption.
  unfold generateRecommendationReason.
  replace (Qle_bool (cosineSimilarity Math_sqrt eX e1) (8 # 10)) with false
    by (symmetry; apply not_true_is_false; rewrite Qle_bool_iff, HX1;
        apply Qlt_not_le; q_closed).
  reflexivity.
Qed.

End ScenarioS4.

(** C6 (as stated) fails: with embeddings at the cosines of S4, cX comes
    first with the reason "Very similar to items you viewed" and the
    source product p1, not "Similar to items in your cart". *)
Lemma scenario_S4_reason_is_not_cart :
  exists rX rY,
    getSessionRecommendations Scenario.sqrtQ "s4" 8 []
      (Some (Scenario.dbS4 Scenario.embeddingP1 Scenario.embeddingP2
               Scenario.embeddingX Scenario.embeddingY)) = [rX; rY]
    /\ cosineSimilarity Scenario.sqrtQ Scenario.embeddingX Scenario.embeddingP1 == 9 # 10
    /\ cosineSimilarity Scenario.sqrtQ Scenario.embeddingX Scenario.embeddingP2 == 6 # 10
    /\ cosineSimilarity Scenario.sqrtQ Scenario.embeddingY Scenario.embeddingP1 == 1 # 10
    /\ cosineSimilarity Scenario.sqrtQ Scenario.embeddingY Scenario.embeddingP2 == 1 # 10
    /\ recommended rX = Scenario.cX
    /\ reason rX = "Very similar to items you viewed"
    /\ reason rX <> "Similar to items in your cart"
    /\ sourceProductId rX = Some 1%Z.
Proof.
  do 2 eexists. split; [vm_compute; reflexivity |].
  repeat split; try q_closed.
Qed.

Lemma scenario_S4_affinity_witness :
  exists rX rY,
    getSessionRecommendations Scenario.sqrtQ "s4" 8 []
      (Some (Scenario.dbS4 Scenario.embeddingP1 Scenario.embeddingP2
               Scenario.embeddingX Scenario.embeddingY)) = [rX; rY]
    /\ score rX == 27 # 10 /\ score rY == 4 # 10
    /\ reason rX = "Very similar to items you viewed".
Proof.
  destruct (scenario_S4_affinity Scenario.sqrtQ Scenario.embeddingP1
              Scenario.embeddingP2 Scenario.embeddingX Scenario.embeddingY)
    as (_ & _ & rX & rY & H1 & _ & _ & H2 & H3 & _ & H4).
  - reflexivity.
  - reflexivity.
  - reflexivity.
  - reflexivity.
  - exists rX, rY. repeat split; assumption.
Defined.

(** C5: a session whose only interaction is a view of a featured product
    without a stored embedding gets that product back: the cold-start
    path taken when no interacted product has an embedding excludes the
    [excludeProductIds] only. *)
Theorem forSession_returns_viewed_product :
  List.map interactionProductId
    (getSessionInteractions "s5" 20 (Some Scenario.dbViewedFeatured)) = [1%Z]
  /\ List.map (fun r => id (recommended r))
       (getSessionRecommendations Scenario.sqrtQ "s5" 8 []
          (Some Scenario.dbViewedFeatured)) = [1%Z].
Proof. split; vm_compute; reflexivity. Qed.

(** *** What the paths of [getSessionRecommendations] exclude *)

Lemma Map_set_keys {V : Type} (k key : Z) (v : V) (m : JsMap V) :
  In k (Map_keys (Map_set key v m)) <-> k = key \/ In k (Map_keys m).
Proof.
  unfold Map_keys. induction m as [| [k0 v0] m IH]; simpl.
  - intuition.
  - destruct (k0 =? key)%Z eqn:E; simpl.
    + apply Z.eqb_eq in E. subst k0. intuition.
    + rewrite IH. intuition.
Qed.

Lemma Map_get_Some_key {V : Type} (key : Z) (v : V) (m : JsMap V) :
  Map_get key m = Some v -> In key (Map_keys m).
Proof.
  unfold Map_get, Map_keys.
  destruct (List.find _ m) as [[k0 v0] |] eqn:E; [| discriminate].
  intros _. apply List.find_some in E as [Hin Hk]. simpl in Hk.
  apply Z.eqb_eq in Hk. subst k0.
  apply List.in_map_iff. now exists (key, v0).
Qed.

Lemma scoreInteractions_keys (k : Z) (total : nat) (l : list Interaction)
    (index : nat) (m : JsMap (Q * InteractionType)) :
  In k (Map_keys (scoreInteractions total index l m))
  <-> In k (Map_keys m) \/ In k (List.map interactionProductId l).
Proof.
  revert index m. induction l as [| i l IH]; intros index m; simpl.
  - intuition.
  - rewrite IH.
    destruct (Map_get (interactionProductId i) m) as [[s t] |] eqn:E.
    + pose proof (Map_get_Some_key _ _ _ E) as Hkey.
      destruct (negb (Qle_bool _ s)).
      * rewrite Map_set_keys. intuition (subst; auto).
      * intuition (subst; auto).
    + rewrite Map_set_keys. intuition.
Qed.

Lemma coldStart_respects_exclude (limit : nat) (ex : list Z) (w : World)
    (r : RecommendationResult) :
  In r (getColdStartRecommendations limit ex w) -> ~ In (id (recommended r)) ex.
Proof.
  unfold getColdStartRecommendations. intros H.
  apply List.in_map_iff in H as (p & <- & Hp). cbn [recommended].
  apply (In_sublist _ _ _ (sublist_firstn _ _)) in Hp.
  apply List.filter_In in Hp as [_ Hp].
  apply negb_true_iff, bool_decide_eq_false in Hp.
  intros Hin. apply Hp. apply elem_of_list_to_set, list_elem_of_In. exact Hin.
Qed.

Section ExclusionFacts.

Variable Math_sqrt : Q -> Q.

(** The products listed in [excludeProductIds] are never returned; the
    products of the session's interactions are not returned when the
    session has no interaction or when one of the interacted products
    has a stored embedding (the path that scores candidates). *)
Lemma forSession_exclusions (sid : string) (limit : nat) (ex : list Z)
    (w : World) (r : RecommendationResult) :
  let history := getSessionInteractions sid 20 w in
  In r (getSessionRecommendations Math_sqrt sid limit ex w) ->
  ~ In (id (recommended r)) ex
  /\ (history = []
      \/ collectInteracted
           (scoreInteractions (List.length history) 0 history []) w <> [] ->
      ~ In (id (recommended r)) (List.map interactionProductId history)).
Proof.
  cbv zeta. unfold getSessionRecommendations.
  set (history := getSessionInteractions sid 20 w).
  destruct history as [| i0 history'] eqn:Eh.
  { cbn [List.length Nat.eqb]. intros H. split.
    - eapply coldStart_respects_exclude; eassumption.
    - intros _ []. }
  rewrite <- Eh. replace (List.length history =? 0)%nat with false
    by (rewrite Eh; reflexivity).
  set (productScores := scoreInteractions _ _ _ _).
  destruct (collectInteracted productScores w) as [| c cs] eqn:Ec.
  { cbn [List.length Nat.eqb]. intros H. split.
    - eapply coldStart_respects_exclude; eassumption.
    - intros [Hnil | Hne]; [rewrite Eh in Hnil; discriminate | now destruct Hne]. }
  rewrite <- Ec. replace (List.length (collectInteracted productScores w) =? 0)%nat
    with false by (rewrite Ec; reflexivity).
  intros H.
  apply (In_sublist _ _ _ (sublist_firstn _ _)) in H.
  apply Array_sort_In in H.
  apply List.in_flat_map in H as ([p e] & _ & H).
  destruct (bool_decide _) eqn:Ed; [destruct H |].
  apply bool_decide_eq_false in Ed.
  destruct (matchCandidate _ _ _) as [total best].
  destruct (negb _); [| destruct H].
  destruct H as [<- | []]. cbn [recommended].
  assert (Hnot : ~ In (id p) (ex ++ Map_keys productScores)).
  { intros Hin. apply Ed. apply elem_of_list_to_set, list_elem_of_In. exact Hin. }
  split.
  - intros Hin. apply Hnot. apply List.in_or_app. now left.
  - intros _ Hin. apply Hnot. apply List.in_or_app. right.
    subst productScores. apply scoreInteractions_keys. now right.
Qed.

End ExclusionFacts.

(** ** [ILIKE] with a pattern free of pattern characters is a
    case-insensitive substring test *)

Lemma ilike_percent (p t : string) :
  ilike (String "%" p) t = anySuffix (ilike p) t.
Proof.
  cbn [ilike]. change (Ascii.eqb "%" "%") with true. cbv iota.
  induction t as [| c t IH]; [reflexivity |].
  cbn [anySuffix]. rewrite <- IH. reflexivity.
Qed.

Lemma includes_anySuffix (s t : string) :
  Js.includes s t = anySuffix (String.prefix t) s.
Proof. induction s as [| c s IH]; simpl; [reflexivity | now rewrite IH]. Qed.

Lemma anySuffix_ext (f g : string -> bool) (t : string) :
  (forall u, f u = g u) -> anySuffix f t = anySuffix g t.
Proof. intros H. induction t as [| c t IH]; simpl; rewrite H; [| rewrite IH]; reflexivity. Qed.

Lemma anySuffix_toLowerCase (f : string -> bool) (t : string) :
  anySuffix f (Js.toLowerCase t) = anySuffix (fun u => f (Js.toLowerCase u)) t.
Proof. induction t as [| c t IH]; simpl; [| rewrite IH]; reflexivity. Qed.

Lemma anySuffix_empty (t : string) :
  anySuffix (fun u => match u with EmptyString => true | _ => false end) t = true.
Proof. induction t as [| c t IH]; simpl; [reflexivity | exact IH]. Qed.

Lemma ilike_keyword_prefix (kw u : string) :
  noLikeMeta kw = true ->
  ilike (kw ++ "%") u = String.prefix (Js.toLowerCase kw) (Js.toLowerCase u).
Proof.
  revert u. induction kw as [| c kw IH]; intros u Hm.
  - change ((EmptyString ++ "%")%string) with "%". rewrite ilike_percent.
    transitivity true; [| now destruct (Js.toLowerCase u)].
    erewrite anySuffix_ext; [apply anySuffix_empty |].
    intros [| d v]; reflexivity.
  - cbn [noLikeMeta] in Hm. apply andb_true_iff in Hm as [Hc Hm].
    apply negb_true_iff in Hc.
    apply orb_false_iff in Hc as [Hc H3]. apply orb_false_iff in Hc as [H1 H2].
    change (String c kw ++ "%")%string with (String c (kw ++ "%")).
    cbn [ilike]. rewrite H1, H2, H3.
    destruct u as [| d u]; [reflexivity |].
    cbn [Js.toLowerCase String.prefix]. rewrite IH by exact Hm.
    destruct (ascii_dec (Js.lowerChar c) (Js.lowerChar d)) as [-> | Hne].
    + now rewrite Ascii.eqb_refl.
    + apply Ascii.eqb_neq in Hne. now rewrite Hne.
Qed.

(** For a keyword without pattern characters the SQL predicate is the
    substring test on the lowercased texts. *)
Lemma ilike_is_substring (kw text : string) :
  noLikeMeta kw = true ->
  ilike ("%" ++ kw ++ "%") text
  = Js.includes (Js.toLowerCase text) (Js.toLowerCase kw).
Proof.
  intros Hm. change (("%" ++ kw ++ "%")%string) with (String "%" (kw ++ "%")).
  rewrite ilike_percent, includes_anySuffix, anySuffix_toLowerCase.
  apply anySuffix_ext. intros u. now apply ilike_keyword_prefix.
Qed.

Lemma keywordMatches_substring (keyword : string) (p : Product) :
  noLikeMeta (Js.trim keyword) = true ->
  keywordMatches keyword p
  = Js.includes (Js.toLowerCase (title p)) (Js.toLowerCase (Js.trim keyword))
    || Js.includes (Js.toLowerCase (Js.orEmpty (description p)))
         (Js.toLowerCase (Js.trim keyword))
    || Js.includes (Js.toLowerCase (Js.orEmpty (category p)))
         (Js.toLowerCase (Js.trim keyword)).
Proof.
  intros Hm. unfold keywordMatches. cbv zeta.
  now rewrite !ilike_is_substring by exact Hm.
Qed.

(** The relevance grade is one of 0, 1, 2, 3. *)
Lemma relevance_spec_range (m n : nat) (exactTitle : bool) :
  (0 <= relevance_spec m n exactTitle <= 3)%Z.
Proof.
  unfold relevance_spec.
  destruct (n =? 0)%nat; [lia |].
  destruct (_ && _); [lia |]. destruct (_ || _); [lia |].
  destruct (0 <? m)%nat; lia.
Qed.

(* ===================================================================== *)
(** * Further properties of the code *)
(* ===================================================================== *)

(** ** Retrieval metrics *)

Lemma inject_nat_pos (b : nat) : (0 < b)%nat -> 0 < inject_Z (Z.of_nat b).
Proof. intros H. change 0 with (inject_Z 0). rewrite <- Zlt_Qlt. lia. Qed.

Lemma inject_nat_le (a b : nat) :
  (a <= b)%nat -> inject_Z (Z.of_nat a) <= inject_Z (Z.of_nat b).
Proof. intros H. rewrite <- Zle_Qle. lia. Qed.

Lemma nat_ratio_bounds (a b : nat) :
  (a <= b)%nat -> (0 < b)%nat ->
  0 <= inject_Z (Z.of_nat a) / inject_Z (Z.of_nat b) <= 1.
Proof.
  intros Hab Hb. pose proof (inject_nat_pos b Hb) as Hpos.
  split.
  - apply Qle_shift_div_l; [exact Hpos |]. rewrite Qmult_0_l.
    change 0 with (inject_Z 0). rewrite <- Zle_Qle. lia.
  - apply Qle_shift_div_r; [exact Hpos |]. rewrite Qmult_1_l.
    now apply inject_nat_le.
Qed.

Lemma Map_get_set_eq {V : Type} (k : Z) (v : V) (m : JsMap V) :
  Map_get k (Map_set k v m) = Some v.
Proof.
  unfold Map_get. induction m as [| [k0 v0] m IH]; simpl.
  - now rewrite Z.eqb_refl.
  - destruct (k0 =? k)%Z eqn:E; simpl.
    + now rewrite Z.eqb_refl.
    + rewrite E. exact IH.
Qed.

Lemma Map_get_set_ne {V : Type} (k k' : Z) (v : V) (m : JsMap V) :
  k <> k' -> Map_get k (Map_set k' v m) = Map_get k m.
Proof.
  intros Hne. unfold Map_get. induction m as [| [k0 v0] m IH]; simpl.
  - destruct (k' =? k)%Z eqn:E; [apply Z.eqb_eq in E; congruence | reflexivity].
  - destruct (k0 =? k')%Z eqn:E; simpl.
    + apply Z.eqb_eq in E. subst k0.
      destruct (k' =? k)%Z eqn:E'; [apply Z.eqb_eq in E'; congruence | reflexivity].
    + destruct (k0 =? k)%Z; [reflexivity | exact IH].
Qed.

Lemma stableSort_map {A B : Type} (f : A -> B) (before : B -> B -> bool)
    (l : list A) :
  List.map f (stableSort (fun y x => before (f y) (f x)) l)
  = stableSort before (List.map f l).
Proof.
  unfold stableSort. induction l as [| x l IH]; [reflexivity |].
  cbn [List.map fold_right]. rewrite <- IH.
  generalize (fold_right (insertStable (fun y x0 => before (f y) (f x0))) [] l).
  intros s. induction s as [| y s IHs]; [reflexivity |].
  cbn [insertStable List.map]. destruct (before (f y) (f x)); cbn [List.map].
  - now rewrite IHs.
  - reflexivity.
Qed.

Module IRFacts.

Import IR.

(** The relevant results among distinct results are at most as many as
    the relevant items. *)
Lemma relevant_count_le_size (relevantItems : gset Z) (l : list SearchResult) :
  NoDup (List.map resultProductId l) ->
  (List.length (List.filter (isRelevant relevantItems) l) <= size relevantItems)%nat.
Proof.
  intros Hnd.
  set (ids := List.map resultProductId (List.filter (isRelevant relevantItems) l)).
  assert (Hlen : List.length (List.filter (isRelevant relevantItems) l)
                 = List.length ids) by (unfold ids; now rewrite List.length_map).
  rewrite Hlen.
  assert (Hnd' : NoDup ids).
  { unfold ids. eapply sublist_NoDup; [exact Hnd |].
    apply sublist_List_map, sublist_List_filter. }
  rewrite <- (size_list_to_set (C := gset Z) ids Hnd').
  apply subseteq_size. intros x Hx.
  apply elem_of_list_to_set, list_elem_of_In in Hx.
  unfold ids in Hx. apply List.in_map_iff in Hx as (r & <- & Hr).
  apply List.filter_In in Hr as [_ Hr]. unfold isRelevant in Hr.
  now apply bool_decide_eq_true in Hr.
Qed.

Lemma NoDup_firstn {A : Type} (n : nat) (l : list A) :
  NoDup l -> NoDup (firstn n l).
Proof. intros H. eapply sublist_NoDup; [exact H | apply sublist_firstn]. Qed.

Lemma Array_slice0_nonneg {A : Type} (k : Z) (l : list A) :
  (0 <= k)%Z -> Array_slice0 k l = firstn (Z.to_nat k) l.
Proof.
  intros H. unfold Array_slice0.
  now replace (0 <=? k)%Z with true by (symmetry; apply Z.leb_le, H).
Qed.

Lemma Array_slice0_sublist {A : Type} (k : Z) (l : list A) :
  sublist (Array_slice0 k l) l.
Proof. unfold Array_slice0. destruct (0 <=? k)%Z; apply sublist_firstn. Qed.

Lemma Array_slice0_map {A B : Type} (f : A -> B) (k : Z) (l : list A) :
  List.map f (Array_slice0 k l) = Array_slice0 k (List.map f l).
Proof.
  unfold Array_slice0. rewrite List.length_map.
  destruct (0 <=? k)%Z; symmetry; apply List.firstn_map.
Qed.

(** Precision@k for an integer cutoff [k >= 0] is a fraction of the
    results examined: it lies between 0 and 1, and is 0 when no result is
    examined. *)
Theorem calculatePrecision_bounds (results : list SearchResult)
    (judgments : list RelevanceJudgment) (k : Z) (threshold : Z) :
  (0 <= k)%Z ->
  0 <= calculatePrecision results judgments k threshold <= 1
  /\ ((k = 0%Z \/ results = []) ->
      calculatePrecision results judgments k threshold = 0).
Proof.
  intros Hk. unfold calculatePrecision. cbv zeta.
  rewrite (Array_slice0_nonneg k results Hk).
  set (topK := firstn (Z.to_nat k) results).
  assert (Hmin : Z.min k (Z.of_nat (List.length topK)) = Z.of_nat (List.length topK)).
  { unfold topK. rewrite List.length_firstn. lia. }
  rewrite Hmin. split.
  - destruct (Z.of_nat (List.length topK) =? 0)%Z eqn:E; [split; discriminate |].
    apply Z.eqb_neq in E. apply nat_ratio_bounds; [| lia].
    apply List.filter_length_le.
  - intros [-> | ->]; unfold topK; [reflexivity | now rewrite List.firstn_nil].
Qed.

(** A negative cutoff is not refused: [slice(0, k)] then drops the last
    [-k] results and the count is divided by [k], so the value is never
    positive; with one relevant result before the last one and [k = -1]
    it is -1. *)
Lemma calculatePrecision_negative_cutoff (results : list SearchResult)
    (judgments : list RelevanceJudgment) (k : Z) (threshold : Z) :
  (k < 0)%Z -> calculatePrecision results judgments k threshold <= 0.
Proof.
  intros Hk. unfold calculatePrecision. cbv zeta.
  set (topK := Array_slice0 k results).
  assert (Hmin : Z.min k (Z.of_nat (List.length topK)) = k) by lia.
  rewrite Hmin. replace (k =? 0)%Z with false by (symmetry; apply Z.eqb_neq; lia).
  set (n := List.length _).
  assert (Hn : 0 <= inject_Z (Z.of_nat n)).
  { change 0 with (inject_Z 0). rewrite <- Zle_Qle. lia. }
  assert (Hinv : / inject_Z k <= 0).
  { assert (H0 : 0 <= / inject_Z (- k)).
    { apply Qinv_le_0_compat. change 0 with (inject_Z 0). rewrite <- Zle_Qle. lia. }
    assert (He : / inject_Z (- k) == - / inject_Z k).
    { rewrite inject_Z_opp. destruct k as [| p | p]; try lia. reflexivity. }
    rewrite He in H0. lra. }
  unfold Qdiv. rewrite <- (Qmult_0_r (inject_Z (Z.of_nat n))).
  rewrite !(Qmult_comm (inject_Z (Z.of_nat n))).
  apply Qmult_le_compat_r; assumption.
Qed.

(** Recall@k lies between 0 and 1 when the results list every product at
    most once. *)
Theorem calculateRecall_bounds (results : list SearchResult)
    (judgments : list RelevanceJudgment) (k : Z) (threshold : Z) :
  NoDup (List.map resultProductId results) ->
  0 <= calculateRecall results judgments k threshold <= 1.
Proof.
  intros Hnd. unfold calculateRecall. cbv zeta.
  destruct (size _ =? 0)%nat eqn:E; [split; discriminate |].
  apply Nat.eqb_neq in E. apply nat_ratio_bounds; [| lia].
  apply relevant_count_le_size.
  eapply sublist_NoDup; [exact Hnd |].
  apply sublist_List_map, Array_slice0_sublist.
Qed.

Lemma firstn_succ_filter_le {A : Type} (f : A -> bool) (k : nat) (l : list A) :
  (List.length (List.filter f (firstn k l))
   <= List.length (List.filter f (firstn (S k) l)))%nat.
Proof.
  revert l. induction k as [| k IH]; intros l.
  - simpl. lia.
  - destruct l as [| x l]; [simpl; lia |].
    change (firstn (S k) (x :: l)) with (x :: firstn k l).
    change (firstn (S (S k)) (x :: l)) with (x :: firstn (S k) l).
    cbn [List.filter]. specialize (IH l).
    destruct (f x); cbn [List.length]; lia.
Qed.

(** For an integer cutoff [k >= 0], looking at one more result never
    lowers the recall. *)
Theorem calculateRecall_monotone (results : list SearchResult)
    (judgments : list RelevanceJudgment) (k : Z) (threshold : Z) :
  (0 <= k)%Z ->
  calculateRecall results judgments k threshold
  <= calculateRecall results judgments (k + 1) threshold.
Proof.
  intros Hk. unfold calculateRecall. cbv zeta.
  destruct (size _ =? 0)%nat eqn:E; [apply Qle_refl |].
  apply Nat.eqb_neq in E.
  rewrite !Array_slice0_nonneg by lia.
  replace (Z.to_nat (k + 1)) with (S (Z.to_nat k)) by lia.
  apply Qmult_le_compat_r.
  - apply inject_nat_le, firstn_succ_filter_le.
  - apply Qinv_le_0_compat, Qlt_le_weak, inject_nat_pos. lia.
Qed.

Lemma mrrLoop_bounds (relevantItems : gset Z) (results : list SearchResult) (i : nat) :
  0 <= mrrLoop relevantItems i results <= 1.
Proof.
  revert i. induction results as [| r rest IH]; intros i; simpl.
  - split; discriminate.
  - destruct (isRelevant relevantItems r); [| apply IH].
    assert (Hi : 1 <= inject_Z (Z.of_nat i) + 1).
    { assert (H : 0 <= inject_Z (Z.of_nat i)).
      { change 0 with (inject_Z 0). rewrite <- Zle_Qle. lia. }
      lra. }
    split.
    + apply Qle_shift_div_l; lra.
    + apply Qle_shift_div_r; lra.
Qed.

Lemma mrrLoop_first (relevantItems : gset Z) (pre : list SearchResult)
    (r : SearchResult) (post : list SearchResult) (i : nat) :
  forallb (fun x => negb (isRelevant relevantItems x)) pre = true ->
  isRelevant relevantItems r = true ->
  mrrLoop relevantItems i (pre ++ r :: post)
  = 1 / (inject_Z (Z.of_nat (i + List.length pre)) + 1).
Proof.
  revert i. induction pre as [| x pre IH]; intros i Hpre Hr; simpl.
  - rewrite Hr, Nat.add_0_r. reflexivity.
  - simpl in Hpre. apply andb_true_iff in Hpre as [Hx Hpre].
    apply negb_true_iff in Hx. rewrite Hx.
    rewrite IH by assumption. do 3 f_equal. lia.
Qed.

Lemma mrrLoop_none (relevantItems : gset Z) (results : list SearchResult) (i : nat) :
  forallb (fun x => negb (isRelevant relevantItems x)) results = true ->
  mrrLoop relevantItems i results = 0.
Proof.
  revert i. induction results as [| x l IH]; intros i H; simpl; [reflexivity |].
  simpl in H. apply andb_true_iff in H as [Hx H].
  apply negb_true_iff in Hx. rewrite Hx. now apply IH.
Qed.

(** The reciprocal rank is 1/(n+1) when the first relevant result comes
    after [n] others, and 0 when no result is relevant; it lies between
    0 and 1. *)
Theorem calculateMRR_first_relevant (judgments : list RelevanceJudgment)
    (threshold : Z) (results : list SearchResult) :
  let relevantItems := relevantItemsOf judgments threshold in
  0 <= calculateMRR results judgments threshold <= 1
  /\ (forallb (fun x => negb (isRelevant relevantItems x)) results = true ->
      calculateMRR results judgments threshold = 0)
  /\ (forall pre r post,
        results = pre ++ r :: post ->
        forallb (fun x => negb (isRelevant relevantItems x)) pre = true ->
        isRelevant relevantItems r = true ->
        calculateMRR results judgments threshold
        = 1 / (inject_Z (Z.of_nat (List.length pre)) + 1)).
Proof.
  cbv zeta. unfold calculateMRR. split; [apply mrrLoop_bounds |]. split.
  - apply mrrLoop_none.
  - intros pre r post -> Hpre Hr. now rewrite mrrLoop_first.
Qed.

Lemma apLoop_bounds (relevantItems : gset Z) (results : list SearchResult)
    (i : nat) (s : Q) (c : nat) :
  (c <= i)%nat ->
  s <= apLoop relevantItems i results s c
  /\ apLoop relevantItems i results s c
     <= s + inject_Z (Z.of_nat
                        (List.length (List.filter (isRelevant relevantItems) results))).
Proof.
  revert i s c. induction results as [| r rest IH]; intros i s c Hc.
  - simpl. change (inject_Z (Z.of_nat 0)) with 0. split; lra.
  - cbn [apLoop List.filter]. destruct (isRelevant relevantItems r).
    + destruct (IH (S i) (s + inject_Z (Z.of_nat (S c)) / (inject_Z (Z.of_nat i) + 1))
                  (S c) ltac:(lia)) as [H1 H2].
      assert (Ht : 0 <= inject_Z (Z.of_nat (S c)) / (inject_Z (Z.of_nat i) + 1) <= 1).
      { replace (inject_Z (Z.of_nat i) + 1) with (inject_Z (Z.of_nat (S i))).
        - apply nat_ratio_bounds; lia.
        - rewrite Nat2Z.inj_succ, <- Z.add_1_r, inject_Z_plus. reflexivity. }
      set (t := inject_Z (Z.of_nat (S c)) / (inject_Z (Z.of_nat i) + 1)) in *.
      cbn [List.length].
      set (n := List.length (List.filter (isRelevant relevantItems) rest)) in *.
      assert (Hn : inject_Z (Z.of_nat (S n)) == inject_Z (Z.of_nat n) + 1).
      { rewrite Nat2Z.inj_succ, <- Z.add_1_r, inject_Z_plus. reflexivity. }
      rewrite Hn. destruct Ht as [Ht0 Ht1]. split; lra.
    + apply IH. lia.
Qed.

(** The average precision lies between 0 and 1 when the results list
    every product at most once. *)
Theorem calculateAveragePrecision_bounds (results : list SearchResult)
    (judgments : list RelevanceJudgment) (threshold : Z) :
  NoDup (List.map resultProductId results) ->
  0 <= calculateAveragePrecision results judgments threshold <= 1.
Proof.
  intros Hnd. unfold calculateAveragePrecision. cbv zeta.
  destruct (size _ =? 0)%nat eqn:E; [split; discriminate |].
  apply Nat.eqb_neq in E.
  set (rel := relevantItemsOf judgments threshold) in *.
  destruct (apLoop_bounds rel results 0 0 0 (le_n 0)) as [H1 H2].
  pose proof (relevant_count_le_size rel results Hnd) as Hle.
  apply inject_nat_le in Hle.
  assert (Hpos : 0 < inject_Z (Z.of_nat (size rel))) by (apply inject_nat_pos; lia).
  split.
  - apply Qle_shift_div_l; [exact Hpos | lra].
  - apply Qle_shift_div_r; [exact Hpos | lra].
Qed.

(** When every relevant item is among the first [k] results (each
    product listed once), the recall is 1. *)
Lemma calculateRecall_all_retrieved (results : list SearchResult)
    (judgments : list RelevanceJudgment) (k : Z) (threshold : Z) :
  NoDup (List.map resultProductId results) ->
  size (relevantItemsOf judgments threshold) <> 0%nat ->
  (forall x, elem_of x (relevantItemsOf judgments threshold) ->
             In x (List.map resultProductId (Array_slice0 k results))) ->
  calculateRecall results judgments k threshold == 1.
Proof.
  intros Hnd Hsize Hall. unfold calculateRecall. cbv zeta.
  apply Nat.eqb_neq in Hsize. rewrite Hsize. apply Nat.eqb_neq in Hsize.
  set (rel := relevantItemsOf judgments threshold) in *.
  set (ids := List.map resultProductId
                (List.filter (isRelevant rel) (Array_slice0 k results))).
  assert (Hnd' : NoDup ids).
  { unfold ids. eapply sublist_NoDup; [exact Hnd |].
    apply sublist_List_map. etransitivity; [apply sublist_List_filter |].
    apply Array_slice0_sublist. }
  assert (Heq : (list_to_set ids : gset Z) = rel).
  { apply set_eq. intros x. rewrite elem_of_list_to_set, list_elem_of_In.
    unfold ids. rewrite List.in_map_iff. split.
    - intros (r & <- & Hr). apply List.filter_In in Hr as [_ Hr].
      now apply bool_decide_eq_true in Hr.
    - intros Hx. specialize (Hall x Hx).
      apply List.in_map_iff in Hall as (r & <- & Hr).
      exists r. split; [reflexivity |]. apply List.filter_In. split; [exact Hr |].
      now apply bool_decide_eq_true. }
  assert (Hlen : List.length (List.filter (isRelevant rel) (Array_slice0 k results))
                 = size rel).
  { transitivity (List.length ids); [unfold ids; now rewrite List.length_map |].
    rewrite <- (size_list_to_set (C := gset Z) ids Hnd'). now rewrite Heq. }
  rewrite Hlen. apply Qmult_inv_r.
  intros H0. pose proof (inject_nat_pos (size rel) ltac:(lia)) as Hp.
  rewrite H0 in Hp. now apply Qlt_irrefl in Hp.
Qed.

Section GainFacts.

Variable Math_log2 : Q -> Q.

Lemma dcgLoop_zero (scores : list Z) (i : nat) (d : Q) :
  Forall (fun s => s = 0%Z) scores -> dcgLoop Math_log2 i scores d == d.
Proof.
  intros H. revert i d. induction H as [| s scores -> _ IH]; intros i d.
  - reflexivity.
  - cbn [dcgLoop]. rewrite IH. change (Qpower 2 0 - 1) with 0.
    unfold Qdiv. rewrite Qmult_0_l. apply Qplus_0_r.
Qed.

Lemma Forall_firstn {A : Type} (P : A -> Prop) (n : nat) (l : list A) :
  Forall P l -> Forall P (firstn n l).
Proof.
  intros H. apply List.Forall_forall. intros x Hx.
  rewrite List.Forall_forall in H. apply H.
  eapply In_sublist; [apply sublist_firstn | exact Hx].
Qed.

Lemma calculateDCG_zero (scores : list Z) (k : Z) :
  Forall (fun s => s = 0%Z) scores -> calculateDCG Math_log2 scores k == 0.
Proof.
  intros H. unfold calculateDCG. cbv zeta.
  apply dcgLoop_zero. now apply Forall_firstn.
Qed.

(** With judgments that are all 0, nDCG, recall, precision, the
    reciprocal rank and the average precision are all 0, whatever the
    results. *)
Theorem calculateAllMetrics_no_relevant (results : list SearchResult)
    (judgments : list RelevanceJudgment) (k : Z) :
  Forall (fun j => relevanceScore j = 0%Z) judgments ->
  let m := calculateAllMetrics Math_log2 results judgments k in
  ndcg m == 0 /\ recall m == 0 /\ precision m == 0 /\ mrr m == 0
  /\ averagePrecision m == 0.
Proof.
  intros Hz. cbv zeta. unfold calculateAllMetrics.
  cbn [ndcg recall precision mrr averagePrecision].
  assert (Hrel : relevantItemsOf judgments 1 = empty).
  { unfold relevantItemsOf.
    assert (Hf : List.filter (fun j => (1 <=? relevanceScore j)%Z) judgments = []).
    { induction Hz as [| j l Hj _ IH]; [reflexivity |].
      cbn [List.filter]. rewrite Hj. exact IH. }
    rewrite Hf. reflexivity. }
  assert (Hnone : forall l, List.filter (isRelevant empty) l = []).
  { intros l. induction l as [| r l IH]; [reflexivity |].
    cbn [List.filter]. unfold isRelevant at 1.
    rewrite bool_decide_eq_false_2 by apply not_elem_of_empty. exact IH. }
  split; [| split; [| split; [| split]]].
  - unfold calculateNDCG. cbv zeta.
    assert (Hid : calculateIDCG Math_log2 (List.map relevanceScore judgments) k == 0).
    { unfold calculateIDCG. cbv zeta. apply calculateDCG_zero.
      apply List.Forall_forall. intros s Hs. apply Array_sort_In in Hs.
      apply List.in_map_iff in Hs as (j & <- & Hj).
      rewrite List.Forall_forall in Hz. now apply Hz. }
    apply Qeq_bool_iff in Hid. rewrite Hid. reflexivity.
  - unfold calculateRecall. rewrite Hrel. reflexivity.
  - unfold calculatePrecision. rewrite Hrel. cbv zeta.
    destruct (_ =? 0)%Z; [reflexivity |]. rewrite Hnone.
    unfold Qdiv. apply Qmult_0_l.
  - unfold calculateMRR. rewrite Hrel. rewrite mrrLoop_none; [reflexivity |].
    apply forallb_forall. intros r _. unfold isRelevant.
    now rewrite bool_decide_eq_false_2 by apply not_elem_of_empty.
  - unfold calculateAveragePrecision. rewrite Hrel. reflexivity.
Qed.

Lemma relevanceMap_other (k : Z) (l : list RelevanceJudgment) (m : JsMap Z) :
  ~ In k (List.map productId l) ->
  Map_get k (fold_left (fun m j => Map_set (productId j) (relevanceScore j) m) l m)
  = Map_get k m.
Proof.
  revert m. induction l as [| j l IH]; intros m Hk; [reflexivity |].
  cbn [fold_left]. rewrite IH by (intros H; apply Hk; now right).
  apply Map_get_set_ne. intros ->. apply Hk. now left.
Qed.

(** With one judgment per product, the map holds each judgment's score. *)
Lemma relevanceMap_lookup (l : list RelevanceJudgment) (m : JsMap Z)
    (j : RelevanceJudgment) :
  NoDup (List.map productId l) -> In j l ->
  Map_get (productId j)
    (fold_left (fun m j => Map_set (productId j) (relevanceScore j) m) l m)
  = Some (relevanceScore j).
Proof.
  revert m. induction l as [| j0 l IH]; intros m Hnd Hin; [destruct Hin |].
  cbn [List.map] in Hnd. apply NoDup_cons in Hnd as [Hnotin Hnd].
  cbn [fold_left]. destruct Hin as [-> | Hin].
  - rewrite relevanceMap_other by (rewrite <- list_elem_of_In; exact Hnotin).
    apply Map_get_set_eq.
  - now apply IH.
Qed.

Lemma calculateDCG_slice (scores : list Z) (k : Z) :
  calculateDCG Math_log2 (Array_slice0 k scores) k = calculateDCG Math_log2 scores k.
Proof.
  unfold calculateDCG, Array_slice0. cbv zeta.
  destruct (0 <=? k)%Z eqn:E.
  - apply Z.leb_le in E. rewrite List.firstn_firstn, List.length_firstn.
    f_equal. f_equal. lia.
  - apply Z.leb_gt in E.
    replace (Z.to_nat (Z.min k (Z.of_nat (List.length scores)))) with 0%nat by lia.
    now replace (Z.to_nat (Z.min k _)) with 0%nat by lia.
Qed.

(** When the results are the judged products in the order of descending
    relevance (one judgment per product, and the ideal gain is not 0),
    nDCG is 1. *)
Theorem calculateNDCG_ideal_order (results : list SearchResult)
    (judgments : list RelevanceJudgment) (k : Z) :
  NoDup (List.map productId judgments) ->
  List.map resultProductId results
  = List.map productId
      (Array_sort (fun a b => inject_Z (relevanceScore b - relevanceScore a))
         judgments) ->
  ~ calculateIDCG Math_log2 (List.map relevanceScore judgments) k == 0 ->
  calculateNDCG Math_log2 results judgments k == 1.
Proof.
  intros Hnd Hres Hid. unfold calculateNDCG. cbv zeta.
  assert (Hrel : List.map (relevanceOf (relevanceMapOf judgments)) results
                 = Array_sort (fun a b => inject_Z (b - a))
                     (List.map relevanceScore judgments)).
  { unfold Array_sort. rewrite <- stableSort_map.
    transitivity
      (List.map (fun pid => match Map_get pid (relevanceMapOf judgments) with
                            | Some s => s | None => 0%Z end)
         (List.map resultProductId results)).
    { rewrite List.map_map. reflexivity. }
    rewrite Hres, List.map_map. apply List.map_ext_in. intros j Hj.
    apply Array_sort_In in Hj. unfold relevanceMapOf.
    now rewrite (relevanceMap_lookup judgments [] j Hnd Hj). }
  rewrite Array_slice0_map, Hrel, calculateDCG_slice.
  fold (calculateIDCG Math_log2 (List.map relevanceScore judgments) k).
  destruct (Qeq_bool _ 0) eqn:E; [apply Qeq_bool_iff in E; contradiction |].
  apply Qmult_inv_r. exact Hid.
Qed.

End GainFacts.

End IRFacts.

(** ** Feature normalizers *)

Lemma Qdiv_pos_bounds (x c : Q) :
  0 < c -> 0 <= x <= c -> 0 <= x / c <= 1.
Proof.
  intros Hc [H0 H1]. split.
  - apply Qle_shift_div_l; [exact Hc | lra].
  - apply Qle_shift_div_r; [exact Hc | lra].
Qed.

Lemma Qdiv_le_mono (x y c : Q) : 0 < c -> x <= y -> x / c <= y / c.
Proof.
  intros Hc Hxy. unfold Qdiv. apply Qmult_le_compat_r; [exact Hxy |].
  apply Qinv_le_0_compat. lra.
Qed.

(** The age in days that [normalizeRecencyScore] computes. *)
Lemma recency_cases (now createdAt : Z) :
  let d := inject_Z (now - createdAt) / inject_Z (1000 * 60 * 60 * 24) in
  (d <= 30 /\ normalizeRecencyScore now createdAt = 1)
  \/ (365 <= d /\ normalizeRecencyScore now createdAt = 1 # 10)
  \/ (30 < d < 365
      /\ normalizeRecencyScore now createdAt = 1 - ((d - 30) / 335) * (9 # 10)).
Proof.
  cbv zeta. unfold normalizeRecencyScore. cbv zeta.
  set (d := inject_Z (now - createdAt) / inject_Z (1000 * 60 * 60 * 24)).
  destruct (Qle_bool d 30) eqn:E1.
  - left. apply Qle_bool_iff in E1. auto.
  - assert (H1 : 30 < d).
    { apply Qnot_le_lt. intros H. apply Qle_bool_iff in H. congruence. }
    destruct (Qle_bool 365 d) eqn:E2.
    + right. left. apply Qle_bool_iff in E2. auto.
    + right. right. split; [| reflexivity]. split; [exact H1 |].
      apply Qnot_le_lt. intros H. apply Qle_bool_iff in H. congruence.
Qed.

Lemma normalizeRecencyScore_bounds (now createdAt : Z) :
  1 # 10 <= normalizeRecencyScore now createdAt <= 1.
Proof.
  destruct (recency_cases now createdAt) as [[_ ->] | [[_ ->] | [[H1 H2] ->]]].
  - split; [discriminate | apply Qle_refl].
  - split; [apply Qle_refl | discriminate].
  - destruct (Qdiv_pos_bounds
                (inject_Z (now - createdAt) / inject_Z (1000 * 60 * 60 * 24) - 30)
                335 eq_refl) as [Ha Hb]; [split; lra |].
    set (e := (_ - 30) / 335) in *. split; lra.
Qed.

(** The recency score lies between 0.1 and 1 for every pair of clock
    reading and creation time, and an older product never scores higher
    than a newer one. *)
Theorem normalizeRecencyScore_bounds_monotone (now created1 created2 : Z) :
  (1 # 10 <= normalizeRecencyScore now created1 <= 1)
  /\ ((created1 <= created2)%Z ->
      normalizeRecencyScore now created1 <= normalizeRecencyScore now created2).
Proof.
  split; [apply normalizeRecencyScore_bounds |]. intros Hc.
  assert (Hd : inject_Z (now - created2) / inject_Z (1000 * 60 * 60 * 24)
               <= inject_Z (now - created1) / inject_Z (1000 * 60 * 60 * 24)).
  { apply Qdiv_le_mono; [reflexivity |]. rewrite <- Zle_Qle. lia. }
  pose proof (normalizeRecencyScore_bounds now created1) as B1.
  pose proof (normalizeRecencyScore_bounds now created2) as B2.
  set (d1 := inject_Z (now - created1) / inject_Z (1000 * 60 * 60 * 24)) in *.
  set (d2 := inject_Z (now - created2) / inject_Z (1000 * 60 * 60 * 24)) in *.
  assert (He : (d2 - 30) / 335 <= (d1 - 30) / 335).
  { apply Qdiv_le_mono; [reflexivity | lra]. }
  destruct (recency_cases now created1) as [[H1 E1] | [[H1 E1] | [[H1 H1'] E1]]];
    destruct (recency_cases now created2) as [[H2 E2] | [[H2 E2] | [[H2 H2'] E2]]];
    cbv zeta in *; fold d1 in H1, E1; fold d2 in H2, E2;
    try fold d1 in H1'; try fold d2 in H2';
    rewrite E1 in *; rewrite E2 in *;
    set (e1 := (d1 - 30) / 335) in *; set (e2 := (d2 - 30) / 335) in *; lra.
Qed.

Lemma normalizePriceScore_bounds (lo hi p : Q) :
  lo < hi -> lo <= p <= hi -> 0 <= normalizePriceScore p lo hi <= 1.
Proof.
  intros Hlh Hp.
  assert (Hne : Qeq_bool hi lo = false).
  { apply not_true_is_false. intros H. apply Qeq_bool_iff in H. lra. }
  unfold normalizePriceScore. rewrite Hne.
  destruct (Qdiv_pos_bounds (p - lo) (hi - lo)) as [H0 H1]; [lra | split; lra |].
  set (e := (p - lo) / (hi - lo)) in *. split; lra.
Qed.

(** Within a range [lo < hi] the price score lies between 0 and 1, is 1
    at the lowest and 0 at the highest price, and falls as the price
    rises. *)
Theorem normalizePriceScore_range (lo hi p q : Q) :
  lo < hi -> lo <= p -> p <= q -> q <= hi ->
  0 <= normalizePriceScore q lo hi
  /\ normalizePriceScore q lo hi <= normalizePriceScore p lo hi
  /\ normalizePriceScore p lo hi <= 1
  /\ normalizePriceScore lo lo hi == 1
  /\ normalizePriceScore hi lo hi == 0.
Proof.
  intros Hlh Hlp Hpq Hqh.
  assert (Hne : Qeq_bool hi lo = false).
  { apply not_true_is_false. intros H. apply Qeq_bool_iff in H. lra. }
  unfold normalizePriceScore. rewrite Hne.
  assert (Hc : 0 < hi - lo) by lra.
  destruct (Qdiv_pos_bounds (p - lo) (hi - lo) Hc) as [Hp0 Hp1]; [split; lra |].
  destruct (Qdiv_pos_bounds (q - lo) (hi - lo) Hc) as [Hq0 Hq1]; [split; lra |].
  assert (Hm : (p - lo) / (hi - lo) <= (q - lo) / (hi - lo)).
  { apply Qdiv_le_mono; [exact Hc | lra]. }
  assert (Hone : (hi - lo) / (hi - lo) == 1).
  { apply Qmult_inv_r. lra. }
  assert (Hzero : (lo - lo) / (hi - lo) == 0).
  { unfold Qdiv. setoid_replace (lo - lo) with 0 using relation Qeq by ring.
    apply Qmult_0_l. }
  set (ep := (p - lo) / (hi - lo)) in *. set (eq := (q - lo) / (hi - lo)) in *.
  repeat split; lra.
Qed.

Lemma normalizePriceScore_range_witness :
  0 <= normalizePriceScore 55 10 100
  /\ normalizePriceScore 55 10 100 <= normalizePriceScore 20 10 100
  /\ normalizePriceScore 10 10 100 == 1.
Proof.
  destruct (normalizePriceScore_range 10 100 20 55) as (H1 & H2 & _ & H3 & _);
    try reflexivity; try discriminate.
  repeat split; assumption.
Defined.

Lemma normalizeStockScore_bounds (a : option Availability) (q : option Z) :
  match q with Some n => (0 <= n)%Z | None => True end ->
  0 <= normalizeStockScore a q <= 1
  /\ (a = Some in_stock -> 7 # 10 <= normalizeStockScore a q).
Proof.
  intros Hq. unfold normalizeStockScore.
  destruct a as [[| |] |]; try (split; [split; discriminate | discriminate]).
  set (qty := match q with Some n => n | None => 100%Z end).
  assert (Hqty : 0 <= inject_Z qty).
  { change 0 with (inject_Z 0). rewrite <- Zle_Qle.
    unfold qty. destruct q; [exact Hq | lia]. }
  assert (He : 0 <= inject_Z qty / 500).
  { apply Qle_shift_div_l; [reflexivity | lra]. }
  set (e := inject_Z qty / 500) in *.
  assert (Hmin : (7 # 10) <= Qmin 1 ((7 # 10) + e * (3 # 10)) <= 1).
  { split; [apply Q.min_glb; [discriminate | lra] | apply Q.le_min_l]. }
  split; [split; lra | intros _; lra].
Qed.

Lemma normalizeRatingScore_bounds (r : option Q) :
  match r with Some x => 0 <= x <= 5 | None => True end ->
  0 <= normalizeRatingScore r <= 1.
Proof.
  unfold normalizeRatingScore. destruct r as [x |]; intros H.
  - apply Qdiv_pos_bounds; [reflexivity | exact H].
  - split; discriminate.
Qed.

Lemma length_List_filter_le {A : Type} (f : A -> bool) (l : list A) :
  (List.length (List.filter f l) <= List.length l)%nat.
Proof. apply List.filter_length_le. Qed.

(** The keyword boost of a product lies between 0 and 0.5, and is 0 for
    a query without a term longer than two characters. *)
Lemma keywordBoost_bounds (query productText : string) :
  0 <= keywordBoost query (extractMatchedTerms query productText) <= 1 # 2
  /\ (Js.queryTermsOf query = [] ->
      keywordBoost query (extractMatchedTerms query productText) = 0).
Proof.
  unfold keywordBoost. cbv zeta. split.
  - destruct (0 <? List.length (Js.queryTermsOf query))%nat eqn:E;
      [| split; discriminate].
    apply Nat.ltb_lt in E.
    destruct (nat_ratio_bounds
                (List.length (extractMatchedTerms query productText))
                (List.length (Js.queryTermsOf query))) as [H0 H1];
      [apply List.filter_length_le | exact E |].
    set (e := _ / _) in *. split; lra.
  - intros ->. reflexivity.
Qed.

(** ** The ranker: what every result satisfies *)

Lemma filter_filter_and {A : Type} (f g : A -> bool) (l : list A) :
  List.filter g (List.filter f l) = List.filter (fun x => f x && g x) l.
Proof.
  induction l as [| x l IH]; simpl; [reflexivity |].
  destruct (f x); simpl; [destruct (g x) |]; now rewrite IH.
Qed.

Lemma filter_all {A : Type} (l : list A) : List.filter (fun _ => true) l = l.
Proof. induction l; simpl; congruence. Qed.

Lemma length_insertStable {A : Type} (before : A -> A -> bool) (x : A) (l : list A) :
  List.length (insertStable before x l) = S (List.length l).
Proof.
  induction l as [| y l IH]; simpl; [reflexivity |].
  destruct (before y x); simpl; congruence.
Qed.

Lemma length_stableSort {A : Type} (before : A -> A -> bool) (l : list A) :
  List.length (stableSort before l) = List.length l.
Proof.
  induction l as [| x l IH]; simpl; [reflexivity |].
  now rewrite length_insertStable, IH.
Qed.

Lemma withPositions_In_inv (r0 : SearchResult) (l : list SearchResult) (i : nat) :
  In r0 l ->
  exists r, In r (withPositions i l) /\ product r = product r0
            /\ scores r = scores r0 /\ matchedTerms r = matchedTerms r0.
Proof.
  revert i. induction l as [| x l IH]; intros i; simpl; [tauto |].
  intros [-> | H].
  - eexists. split; [left; reflexivity |]. simpl. auto.
  - destruct (IH (S i) H) as (r & Hin & Heq). exists r. auto.
Qed.

Lemma Math_min_le_last (xs : list Q) (last : Q) : Math_min xs last <= last.
Proof.
  induction xs as [| x xs IH]; simpl; [apply Qle_refl |].
  eapply Qle_trans; [apply Q.le_min_r | exact IH].
Qed.

Lemma Math_max_ge_last (xs : list Q) (last : Q) : last <= Math_max xs last.
Proof.
  induction xs as [| x xs IH]; simpl; [apply Qle_refl |].
  eapply Qle_trans; [exact IH | apply Q.le_max_r].
Qed.

Lemma Math_max_ge_In (xs : list Q) (last x : Q) : In x xs -> x <= Math_max xs last.
Proof.
  induction xs as [| y xs IH]; simpl; [tauto |]. intros [-> | H].
  - apply Q.le_max_l.
  - eapply Qle_trans; [apply IH, H | apply Q.le_max_r].
Qed.

Section RankerResultFacts.

Variable Math_sqrt : Q -> Q.
Variable embed : string -> list Q.

(** The four filters of [semanticSearch], applied one after the other,
    keep exactly the results whose product passes all of them. *)
Lemma applyFilters_passesFilters (options : SemanticSearchOptions)
    (l : list SearchResult) :
  applyFilters options l
  = List.filter (fun r => passesFilters options (product r)) l.
Proof.
  unfold applyFilters, passesFilters.
  destruct (truthyString (optCategory options)), (optMinPrice options),
    (optMaxPrice options), (optInStockOnly options);
    rewrite ?filter_filter_and; cbn [andb negb];
    try (symmetry; apply filter_all);
    apply List.filter_ext; intros r;
    rewrite ?andb_true_r, ?andb_assoc; reflexivity.
Qed.

Lemma rankResults_In (options : SemanticSearchOptions) (l : list SearchResult)
    (r : SearchResult) :
  In r (rankResults options l) ->
  exists r0, In r0 l /\ product r = product r0 /\ scores r = scores r0
             /\ matchedTerms r = matchedTerms r0
             /\ optMinScore options <= final (scores r0).
Proof.
  unfold rankResults. intros H.
  apply withPositions_In in H as (r0 & Hin & Hp & Hs & Hm).
  apply (In_sublist _ _ _ (sublist_firstn _ _)) in Hin.
  apply Array_sort_In in Hin. apply List.filter_In in Hin as [Hin Hq].
  apply Qle_bool_iff in Hq. exists r0. auto.
Qed.

(** Where a result of [semanticSearch] comes from: a candidate that
    passes the filters and reaches the threshold. *)
Lemma semanticSearch_result_origin (query : string)
    (options : SemanticSearchOptions) (now ms : Z) (w : World) (r : SearchResult) :
  In r (searchResultsOf (semanticSearch Math_sqrt embed query options now ms w)) ->
  let cands := getAllProductsWithOptionalEmbeddings 5000 0 w in
  exists c,
    In c cands
    /\ product r = fst c
    /\ scores r
       = scores (scoreProduct Math_sqrt embed query (generateEmbedding embed query)
                   (fst (getActiveRankingWeights w))
                   (minPriceInSet cands) (maxPriceInSet cands) now c)
    /\ passesFilters options (fst c) = true
    /\ optMinScore options <= final (scores r).
Proof.
  destruct (semanticSearch_results_cases Math_sqrt embed query options now ms w)
    as [-> | ->]; [| intros []].
  cbv zeta. intros H.
  apply rankResults_In in H as (r0 & Hin & Hp & Hs & _ & Hq).
  rewrite applyFilters_passesFilters in Hin.
  apply List.filter_In in Hin as [Hin Hf].
  apply List.in_map_iff in Hin as (c & <- & Hc).
  exists c. rewrite scoreProduct_product in Hp, Hf.
  rewrite Hs. auto.
Qed.

Lemma semanticSearch_results_sound_any (query : string)
    (options : SemanticSearchOptions) (now ms : Z) (w : World) :
  let results :=
    searchResultsOf (semanticSearch Math_sqrt embed query options now ms w) in
  (List.length results <= optLimit options)%nat
  /\ forall r, In r results ->
       passesFilters options (product r) = true
       /\ optMinScore options <= final (scores r).
Proof.
  cbv zeta. split.
  - destruct (semanticSearch_results_cases Math_sqrt embed query options now ms w)
      as [-> | ->]; [| cbn; lia].
    cbv zeta. unfold rankResults.
    rewrite length_withPositions. apply List.firstn_le_length.
  - intros r H. apply semanticSearch_result_origin in H.
    cbv zeta in H. destruct H as (c & Hc & Hp & _ & Hf & Hq).
    rewrite Hp. split; assumption.
Qed.

(** Every result of the ranker is a product of the catalogue that passes
    the category, price and stock filters of the request and whose final
    score reaches [minScore]; there are at most [limit] results. *)
Theorem semanticSearch_results_sound (query : string)
    (options : SemanticSearchOptions) (now ms : Z) (db : Db) :
  let results :=
    searchResultsOf (semanticSearch Math_sqrt embed query options now ms (Some db)) in
  (List.length results <= optLimit options)%nat
  /\ forall r, In r results ->
       In (product r) (products db)
       /\ passesFilters options (product r) = true
       /\ optMinScore options <= final (scores r).
Proof.
  cbv zeta. split.
  - destruct (semanticSearch_results_cases Math_sqrt embed query options now ms
                (Some db)) as [-> | ->]; [| cbn; lia].
    cbv zeta. unfold rankResults.
    rewrite length_withPositions. apply List.firstn_le_length.
  - intros r H. apply semanticSearch_result_origin in H.
    cbv zeta in H. destruct H as (c & Hc & Hp & _ & Hf & Hq).
    rewrite Hp. repeat split; try assumption.
    cbn [getAllProductsWithOptionalEmbeddings] in Hc.
    apply List.in_map_iff in Hc as (p & <- & Hin). cbn [fst].
    eapply In_sublist; [apply sublist_firstn | exact Hin].
Qed.

(** When the session id has at most 64 characters, so that the search
    log accepts its row, and no more than [limit] candidates pass the
    filters and reach the threshold, each of them is among the results,
    with its scores. *)
Theorem semanticSearch_results_complete (query : string)
    (options : SemanticSearchOptions) (now ms : Z) (w : World) :
  (String.length (optSessionId options) <= 64)%nat ->
  let cands := getAllProductsWithOptionalEmbeddings 5000 0 w in
  let scored :=
    List.map (scoreProduct Math_sqrt embed query (generateEmbedding embed query)
                (fst (getActiveRankingWeights w))
                (minPriceInSet cands) (maxPriceInSet cands) now) cands in
  let qualifies r :=
    passesFilters options (product r)
    && Qle_bool (optMinScore options) (final (scores r)) in
  (List.length (List.filter qualifies scored) <= optLimit options)%nat ->
  forall s, In s scored -> qualifies s = true ->
  exists r,
    In r (searchResultsOf (semanticSearch Math_sqrt embed query options now ms w))
    /\ product r = product s /\ scores r = scores s
    /\ matchedTerms r = matchedTerms s.
Proof.
  cbv zeta. intros Hsid Hlen s Hs Hq.
  rewrite semanticSearch_results by (apply logSearchAccepts_short, Hsid).
  cbv zeta. unfold rankResults.
  rewrite applyFilters_passesFilters, filter_filter_and.
  apply withPositions_In_inv.
  rewrite List.firstn_all2.
  - apply Array_sort_In. apply List.filter_In. auto.
  - unfold Array_sort. rewrite length_stableSort. exact Hlen.
Qed.

(** For a catalogue within the ranges of the schema, every result has
    its rating, price, stock and recency sub-scores between 0 and 1 and a
    semantic score that is not negative. *)
Theorem semanticSearch_subscores_in_range (query : string)
    (options : SemanticSearchOptions) (now ms : Z) (db : Db) :
  Forall validProduct (products db) ->
  forall r,
    In r (searchResultsOf
            (semanticSearch Math_sqrt embed query options now ms (Some db))) ->
    0 <= semantic (scores r)
    /\ 0 <= scoreRating (scores r) <= 1
    /\ 0 <= scorePrice (scores r) <= 1
    /\ 0 <= scoreStock (scores r) <= 1
    /\ 1 # 10 <= scoreRecency (scores r) <= 1.
Proof.
  intros Hvalid r H. apply semanticSearch_result_origin in H.
  cbv zeta in H. destruct H as (c & Hc & Hp & Hs & _ & _).
  set (cands := getAllProductsWithOptionalEmbeddings 5000 0 (Some db)) in *.
  assert (Hv : validProduct (fst c)).
  { rewrite List.Forall_forall in Hvalid. apply Hvalid.
    apply List.in_map_iff in Hc as (p & <- & Hin). cbn [fst].
    eapply In_sublist; [apply sublist_firstn | exact Hin]. }
  destruct Hv as (Hr & Hprice & Hq).
  rewrite Hs. destruct c as [p e]. cbn [fst] in *.
  cbn [scoreProduct scores semantic scoreRating scorePrice scoreStock scoreRecency].
  split; [apply Q.le_max_l |].
  split; [apply normalizeRatingScore_bounds, Hr |].
  split.
  - assert (H0 : 0 <= priceNumber p).
    { unfold priceNumber. destruct (price p); [exact Hprice | apply Qle_refl]. }
    assert (Hm : minPriceInSet cands <= 0) by apply Math_min_le_last.
    assert (HM1 : 1 <= maxPriceInSet cands) by apply Math_max_ge_last.
    assert (HM : priceNumber p <= maxPriceInSet cands).
    { destruct (Qle_bool (priceNumber p) 0) eqn:E.
      - apply Qle_bool_iff in E. lra.
      - apply Math_max_ge_In. apply List.filter_In. split.
        + apply List.in_map_iff. exists (p, e). auto.
        + now rewrite E. }
    apply normalizePriceScore_bounds; [lra | split; lra].
  - split; [apply normalizeStockScore_bounds, Hq |].
    apply normalizeRecencyScore_bounds.
Qed.

End RankerResultFacts.

(** ** The ranker: what it writes *)

Lemma stableSort_cons {A : Type} (before : A -> A -> bool) (x : A) (l : list A) :
  stableSort before (x :: l) = insertStable before x (stableSort before l).
Proof. reflexivity. Qed.

Lemma stableSort_ascending_id (l : list ExplanationRow) (a : nat) :
  List.map explainedPosition l = seq a (List.length l) ->
  stableSort (fun y x => (explainedPosition y <? explainedPosition x)%nat) l = l.
Proof.
  revert a. induction l as [| x l IH]; intros a H; [reflexivity |].
  simpl in H. injection H as Hx Hl. rewrite stableSort_cons, (IH (S a) Hl).
  destruct l as [| y l]; [reflexivity |].
  simpl in Hl. injection Hl as Hy _. cbn [insertStable].
  replace (explainedPosition y <? explainedPosition x)%nat with false;
    [reflexivity |].
  symmetry. apply Nat.ltb_ge. lia.
Qed.

Lemma filter_none {A : Type} (f : A -> bool) (l : list A) :
  Forall (fun x => f x = false) l -> List.filter f l = [].
Proof.
  induction 1 as [| x l Hx _ IH]; simpl; [reflexivity |]. now rewrite Hx.
Qed.

Lemma filter_every {A : Type} (f : A -> bool) (l : list A) :
  Forall (fun x => f x = true) l -> List.filter f l = l.
Proof.
  induction 1 as [| x l Hx _ IH]; simpl; [reflexivity |]. now rewrite Hx, IH.
Qed.

Lemma find_app_fresh {A : Type} (f : A -> bool) (l : list A) (x : A) :
  Forall (fun y => f y = false) l -> f x = true -> List.find f (l ++ [x]) = Some x.
Proof.
  induction 1 as [| y l Hy _ IH]; simpl; intros Hx.
  - now rewrite Hx.
  - rewrite Hy. auto.
Qed.

Lemma rankResults_nil (options : SemanticSearchOptions) :
  rankResults options (applyFilters options []) = [].
Proof.
  rewrite applyFilters_passesFilters. unfold rankResults. cbn.
  now rewrite List.firstn_nil.
Qed.

Section RankerLogFacts.

Variable Math_sqrt : Q -> Q.
Variable embed : string -> list Q.

(** The tables after a search whose log row is accepted, row by row. *)
Lemma semanticSearch_tables (query : string)
    (options : SemanticSearchOptions) (now ms : Z) (db : Db) :
  (String.length (optSessionId options) <= 64)%nat ->
  let results :=
    searchResultsOf (semanticSearch Math_sqrt embed query options now ms (Some db)) in
  exists db' log,
    semanticSearch Math_sqrt embed query options now ms (Some db)
    = (Some (results, nextSerial (searchLogs db), ms), Some db')
    /\ searchLogs db' = searchLogs db ++ [log]
    /\ logId log = nextSerial (searchLogs db)
    /\ logQuery log = query
    /\ logSessionId log = optSessionId options
    /\ resultsCount log = List.length results
    /\ logResponseTimeMs log = ms
    /\ searchResultExplanations db'
       = searchResultExplanations db
         ++ List.map (explanationRowOf (logId log)) results
    /\ products db' = products db
    /\ productEmbeddings db' = productEmbeddings db
    /\ interactions db' = interactions db.
Proof.
  intros Hsid. cbv zeta.
  rewrite semanticSearch_results by (apply logSearchAccepts_short, Hsid).
  cbv zeta. apply Nat.leb_le in Hsid.
  destruct (getActiveRankingWeights_tables db)
    as (row & db1 & Hw & Hp & He & Hi & Hl & Hx).
  unfold semanticSearch. rewrite Hw. cbn [fst]. cbv beta iota zeta.
  set (results := rankResults options _).
  cbn [logSearch]. rewrite Hsid.
  assert (Hid : (nextSerial (searchLogs db1) =? 0)%Z = false).
  { apply Z.eqb_neq. unfold nextSerial. lia. }
  rewrite Hid. cbn [negb andb]. rewrite Hl.
  destruct results as [| r results'] eqn:E.
  - cbn [List.length Nat.ltb Nat.leb]. do 2 eexists.
    split; [reflexivity |].
    cbn [logId searchLogs logQuery logSessionId resultsCount logResponseTimeMs
         searchResultExplanations products productEmbeddings interactions List.map].
    rewrite Hp, He, Hi, Hx, List.app_nil_r. repeat split.
  - cbn [List.length Nat.ltb Nat.leb saveSearchExplanations List.map].
    do 2 eexists. split; [reflexivity |].
    cbn [logId searchLogs logQuery logSessionId resultsCount logResponseTimeMs
         searchResultExplanations products productEmbeddings interactions List.map].
    rewrite Hp, He, Hi, Hx. repeat split.
Qed.

(** With the database reachable and a session id of at most 64
    characters, [semanticSearch] appends one row to the search log (the
    query, the session, the number of results, the response time) and
    returns its id, appends one explanation row per result under that id
    (product id, rank, matched terms), and leaves the products,
    embeddings and interactions as they are. *)
Theorem semanticSearch_writes_log (query : string)
    (options : SemanticSearchOptions) (now ms : Z) (db : Db) :
  (String.length (optSessionId options) <= 64)%nat ->
  let results :=
    searchResultsOf (semanticSearch Math_sqrt embed query options now ms (Some db)) in
  exists db' log rows,
    semanticSearch Math_sqrt embed query options now ms (Some db)
    = (Some (results, nextSerial (searchLogs db), ms), Some db')
    /\ searchLogs db' = searchLogs db ++ [log]
    /\ logId log = nextSerial (searchLogs db)
    /\ logQuery log = query
    /\ logSessionId log = optSessionId options
    /\ resultsCount log = List.length results
    /\ logResponseTimeMs log = ms
    /\ searchResultExplanations db' = searchResultExplanations db ++ rows
    /\ Forall (fun row => searchLogId row = nextSerial (searchLogs db)) rows
    /\ List.map explainedProductId rows = List.map (fun r => id (product r)) results
    /\ List.map explainedPosition rows = seq 1 (List.length results)
    /\ List.map explainedTerms rows = List.map matchedTerms results
    /\ products db' = products db
    /\ productEmbeddings db' = productEmbeddings db
    /\ interactions db' = interactions db.
Proof.
  intros Hsid. cbv zeta.
  destruct (semanticSearch_tables query options now ms db Hsid)
    as (db' & log & Heq & Hl & Hid & Hq & Hs & Hc & Ht & Hx & Hp & He & Hi).
  cbv zeta in *. set (results := searchResultsOf _) in *.
  exists db', log, (List.map (explanationRowOf (logId log)) results).
  rewrite !List.map_map. cbn [explanationRowOf explainedProductId explainedPosition
                              explainedTerms].
  repeat (split; [assumption |]).
  split; [| split; [reflexivity | split; [| split; [reflexivity | auto]]]].
  - apply List.Forall_forall. intros row H.
    apply List.in_map_iff in H as (r & <- & _). exact Hid.
  - unfold results.
    rewrite semanticSearch_results by (apply logSearchAccepts_short, Hsid).
    cbv zeta.
    unfold rankResults. rewrite withPositions_positions, length_withPositions.
    reflexivity.
Qed.

(** A session id of more than 64 characters does not fit the column of
    the search log: with the database reachable the insertion throws,
    [semanticSearch] returns nothing, and no log row and no explanation
    row is written. *)
Lemma semanticSearch_long_session_id (query : string)
    (options : SemanticSearchOptions) (now ms : Z) (db : Db) :
  (64 < String.length (optSessionId options))%nat ->
  exists db1,
    semanticSearch Math_sqrt embed query options now ms (Some db) = (None, Some db1)
    /\ searchLogs db1 = searchLogs db
    /\ searchResultExplanations db1 = searchResultExplanations db
    /\ products db1 = products db.
Proof.
  intros Hsid.
  destruct (getActiveRankingWeights_tables db)
    as (row & db1 & Hw & Hp & He & Hi & Hl & Hx).
  exists db1. unfold semanticSearch. rewrite Hw. cbv beta iota zeta.
  cbn [logSearch].
  replace (String.length (optSessionId options) <=? 64)%nat with false
    by (symmetry; apply Nat.leb_gt, Hsid).
  auto.
Qed.

(** Reading back what a search wrote: when the session id has at most 64
    characters and the id that the search log assigns is not in use yet,
    [getSearchLogById] on the returned id finds a row with the query and
    the number of results, and [getExplanationsForSearch] returns the
    explanation rows of the results, in rank order. *)
Theorem semanticSearch_read_back (query : string)
    (options : SemanticSearchOptions) (now ms : Z) (db : Db) :
  (String.length (optSessionId options) <= 64)%nat ->
  Forall (fun row => logId row <> nextSerial (searchLogs db)) (searchLogs db) ->
  Forall (fun row => searchLogId row <> nextSerial (searchLogs db))
         (searchResultExplanations db) ->
  exists results searchLogId w' log,
    semanticSearch Math_sqrt embed query options now ms (Some db)
    = (Some (results, searchLogId, ms), w')
    /\ getSearchLogById searchLogId w' = Some log
    /\ logQuery log = query
    /\ resultsCount log = List.length results
    /\ List.map explainedProductId (getExplanationsForSearch searchLogId w')
       = List.map (fun r => id (product r)) results
    /\ List.map explainedPosition (getExplanationsForSearch searchLogId w')
       = seq 1 (List.length results)
    /\ List.map explainedTerms (getExplanationsForSearch searchLogId w')
       = List.map matchedTerms results.
Proof.
  intros Hsid Hlogs Hrows.
  destruct (semanticSearch_tables query options now ms db Hsid)
    as (db' & log & Heq & Hl & Hid & Hq & _ & Hc & _ & Hx & _).
  cbv zeta in *.
  set (results := searchResultsOf _) in *.
  exists results, (logId log), (Some db'), log.
  split; [rewrite Hid; exact Heq |].
  assert (Hpos : List.map position results = seq 1 (List.length results)).
  { unfold results.
    rewrite semanticSearch_results by (apply logSearchAccepts_short, Hsid).
    cbv zeta.
    unfold rankResults. rewrite withPositions_positions, length_withPositions.
    reflexivity. }
  assert (Hread : getExplanationsForSearch (logId log) (Some db')
                  = List.map (explanationRowOf (logId log)) results).
  { cbn [getExplanationsForSearch]. rewrite Hx, List.filter_app.
    rewrite filter_none, filter_every; cbn [app].
    - apply (stableSort_ascending_id _ 1). rewrite List.map_map, List.length_map.
      cbn [explanationRowOf explainedPosition]. exact Hpos.
    - apply List.Forall_forall. intros row H.
      apply List.in_map_iff in H as (r & <- & _).
      cbn [explanationRowOf searchLogId]. apply Z.eqb_refl.
    - eapply List.Forall_impl; [| exact Hrows]. cbv beta. intros row H.
      apply Z.eqb_neq. now rewrite Hid. }
  rewrite Hread, !List.map_map.
  cbn [explanationRowOf explainedProductId explainedPosition explainedTerms].
  split; [| split; [exact Hq | split; [exact Hc | split; [reflexivity |]]]].
  - cbn [getSearchLogById]. rewrite Hl. apply find_app_fresh.
    + eapply List.Forall_impl; [| exact Hlogs]. cbv beta. intros row H.
      apply Z.eqb_neq. now rewrite Hid.
    + apply Z.eqb_refl.
  - split; [exact Hpos | reflexivity].
Qed.

(** Without a database connection the ranker returns no results and the
    log id 0 and writes nothing, and the search handler answers with the
    empty keyword fallback. *)
Lemma search_without_database (input : SearchInput) (sid : string)
    (options : SemanticSearchOptions) (now ms : Z) :
  semanticSearch Math_sqrt embed (inputQuery input) options now ms None
  = (Some ([], 0%Z, ms), None)
  /\ exists resp,
       searchSemanticLocal Math_sqrt embed input sid now ms None = (Some resp, None)
       /\ results resp = []
       /\ responseSearchLogId resp = 0%Z
       /\ fallbackUsed resp = Some "keyword".
Proof.
  assert (Hn : getActiveRankingWeights None = (defaultWeights 0, None))
    by (now simp getActiveRankingWeights).
  assert (He : semanticSearch Math_sqrt embed (inputQuery input) options now ms None
               = (Some ([], 0%Z, ms), None)).
  { unfold semanticSearch. rewrite Hn.
    cbn [getAllProductsWithOptionalEmbeddings List.map].
    rewrite rankResults_nil. reflexivity. }
  split; [exact He |].
  unfold searchSemanticLocal. generalize (optionsOfInput input sid). intros o.
  unfold semanticSearch. rewrite Hn.
  cbn [getAllProductsWithOptionalEmbeddings List.map].
  rewrite rankResults_nil.
  eexists. split; [reflexivity |]. repeat split.
Qed.

(** When its log row is accepted, [semanticSearch] returns: the ranked
    results with a log id and the response time. *)
Lemma semanticSearch_returns (query : string) (options : SemanticSearchOptions)
    (now ms : Z) (w : World) :
  logSearchAccepts (optSessionId options) w = true ->
  exists logId0 w',
    semanticSearch Math_sqrt embed query options now ms w
    = (Some (searchResultsOf
               (semanticSearch Math_sqrt embed query options now ms w),
             logId0, ms), w').
Proof.
  intros Hacc. unfold searchResultsOf. unfold semanticSearch.
  pose proof (getActiveRankingWeights_world w) as Hw.
  destruct (getActiveRankingWeights w) as [weights w1]. cbn [fst snd] in *.
  unfold logSearch. destruct w as [db |], w1 as [db1 |]; try congruence.
  - cbn [logSearchAccepts] in Hacc. rewrite Hacc. cbn [fst].
    do 2 eexists. reflexivity.
  - cbn [fst]. do 2 eexists. reflexivity.
Qed.

(** For a session id of at most 64 characters the handler answers: it
    marks the keyword fallback exactly when the ranker found nothing, and
    otherwise passes on the results of the ranker; the log id and the
    database are those of the ranker.  On either path it returns at most
    [limit] results, numbered 1, 2, ..., whose products pass the filters
    of the request. *)
Theorem searchSemanticLocal_paths (input : SearchInput) (sid : string)
    (now ms : Z) (w : World) :
  (String.length sid <= 64)%nat ->
  exists ranked searchLogId resp w',
    semanticSearch Math_sqrt embed (inputQuery input) (optionsOfInput input sid)
      now ms w = (Some (ranked, searchLogId, ms), w')
    /\ searchSemanticLocal Math_sqrt embed input sid now ms w = (Some resp, w')
    /\ (fallbackUsed resp = Some "keyword" <-> ranked = [])
    /\ (ranked <> [] -> fallbackUsed resp = None /\ results resp = ranked)
    /\ responseSearchLogId resp = searchLogId
    /\ (List.length (results resp) <= inputLimit input)%nat
    /\ List.map position (results resp) = seq 1 (List.length (results resp))
    /\ Forall (fun r => passesFilters (optionsOfInput input sid) (product r) = true)
              (results resp).
Proof.
  intros Hsid.
  assert (Hacc : logSearchAccepts (optSessionId (optionsOfInput input sid)) w = true)
    by (apply logSearchAccepts_short, Hsid).
  pose proof (semanticSearch_results_sound_any Math_sqrt embed (inputQuery input)
                (optionsOfInput input sid) now ms w) as Hsound.
  pose proof (semanticSearch_results Math_sqrt embed (inputQuery input)
                (optionsOfInput input sid) now ms w Hacc) as Hres.
  destruct (semanticSearch_returns (inputQuery input) (optionsOfInput input sid)
              now ms w Hacc) as (logId0 & w1 & Hret).
  cbv zeta in Hsound, Hres.
  set (rs := searchResultsOf _) in *.
  assert (Hpos : List.map position rs = seq 1 (List.length rs)).
  { rewrite Hres. unfold rankResults.
    rewrite withPositions_positions, length_withPositions. reflexivity. }
  unfold searchSemanticLocal. rewrite Hret. clearbody rs.
  exists rs, logId0. destruct rs as [| r rs].
  - cbn [List.length Nat.eqb]. do 2 eexists.
    split; [reflexivity |]. split; [reflexivity |].
    cbn [results fallbackUsed responseSearchLogId].
    split; [tauto |]. split; [congruence |]. split; [reflexivity |].
    rewrite length_mapWithIndex, mapWithIndex_positions.
    split; [| split; [reflexivity |]].
    + etransitivity; [apply List.filter_length_le |].
      destruct w1; cbn [searchProductsByKeyword List.length]; [| lia].
      apply List.firstn_le_length.
    + apply List.Forall_forall. intros r H.
      assert (Hin : In (product r)
                       (List.filter (keepKeywordProduct input)
                          (searchProductsByKeyword (inputQuery input)
                             (inputLimit input) w1))).
      { rewrite <- (mapWithIndex_products _ 0). apply List.in_map, H. }
      apply List.filter_In in Hin as [_ Hk]. exact Hk.
  - cbn [List.length Nat.eqb]. do 2 eexists.
    split; [reflexivity |]. split; [reflexivity |].
    cbn [results fallbackUsed responseSearchLogId].
    split; [split; discriminate |]. split; [auto |]. split; [reflexivity |].
    destruct Hsound as (Hlen & Hall).
    split; [exact Hlen |]. split.
    + exact Hpos.
    + apply List.Forall_forall. intros x Hx. apply Hall, Hx.
Qed.

End RankerLogFacts.

(** ** The repository: writes and the reads that follow them *)

Lemma Map_set_NoDup {V : Type} (key : Z) (v : V) (m : JsMap V) :
  NoDup (Map_keys m) -> NoDup (Map_keys (Map_set key v m)).
Proof.
  unfold Map_keys. induction m as [| [k0 v0] m IH]; simpl; intros H.
  - apply NoDup_singleton.
  - apply NoDup_cons in H as [Hk Hm]. destruct (k0 =? key)%Z eqn:E; simpl.
    + apply Z.eqb_eq in E. subst k0. apply NoDup_cons. auto.
    + apply NoDup_cons. split; [| auto].
      rewrite list_elem_of_In in *. intros Hin.
      apply (Map_set_keys k0 key v m) in Hin as [-> | Hin];
        [rewrite Z.eqb_refl in E; discriminate | auto].
Qed.

Lemma Map_set_length {V : Type} (key : Z) (v : V) (m : JsMap V) :
  List.length (Map_set key v m)
  = match Map_get key m with
    | Some _ => List.length m
    | None => S (List.length m)
    end.
Proof.
  unfold Map_get. induction m as [| [k0 v0] m IH]; simpl; [reflexivity |].
  destruct (k0 =? key)%Z; simpl; [reflexivity |]. rewrite IH.
  now destruct (List.find _ m).
Qed.

(** [createEmbedding] is an upsert on the product id: afterwards the
    embedding read for that product is the one written, every other
    product reads as before, product ids stay unique in the table, and
    the number of rows grows by one exactly when the product had no
    embedding.  Without a database it throws. *)
Theorem createEmbedding_upsert (pid : Z) (embedding : list Q) (db : Db) :
  createEmbedding pid embedding None = None
  /\ exists db',
       createEmbedding pid embedding (Some db) = Some (Some db')
       /\ getEmbeddingByProductId pid (Some db') = Some embedding
       /\ (forall other, other <> pid ->
             getEmbeddingByProductId other (Some db')
             = getEmbeddingByProductId other (Some db))
       /\ (NoDup (List.map fst (productEmbeddings db)) ->
           NoDup (List.map fst (productEmbeddings db')))
       /\ getEmbeddingCount (Some db')
          = match getEmbeddingByProductId pid (Some db) with
            | Some _ => getEmbeddingCount (Some db)
            | None => S (getEmbeddingCount (Some db))
            end
       /\ products db' = products db.
Proof.
  split; [reflexivity |]. eexists. split; [reflexivity |].
  cbn [getEmbeddingByProductId getEmbeddingCount productEmbeddings products].
  split; [apply (Map_get_set_eq pid embedding) |].
  split; [intros other H; apply (Map_get_set_ne other pid embedding _ H) |].
  split; [apply Map_set_NoDup |]. split; [| reflexivity].
  rewrite Map_set_length. unfold Map_get.
  now destruct (List.find _ (productEmbeddings db)).
Qed.

(** After [recordInteraction] the session's interactions, read most
    recent first, start with the recorded one and continue with the
    earlier ones; the interactions of another session read as before.
    A session id longer than the column is refused. *)
Theorem recordInteraction_read_back (i : Interaction) (db : Db) (limit : nat) :
  (String.length (sessionId i) <= 64)%nat ->
  exists db',
    recordInteraction i (Some db) = Some (Some db')
    /\ getSessionInteractions (sessionId i) (S limit) (Some db')
       = i :: getSessionInteractions (sessionId i) limit (Some db)
    /\ (forall other n, other <> sessionId i ->
          getSessionInteractions other n (Some db')
          = getSessionInteractions other n (Some db))
    /\ products db' = products db
    /\ productEmbeddings db' = productEmbeddings db.
Proof.
  intros Hlen. unfold recordInteraction.
  replace (String.length (sessionId i) <=? 64)%nat with true
    by (symmetry; apply Nat.leb_le, Hlen).
  eexists. split; [reflexivity |].
  cbn [getSessionInteractions interactions products productEmbeddings].
  split; [| split; [| split; reflexivity]].
  - rewrite List.filter_app. cbn [List.filter]. rewrite String.eqb_refl.
    rewrite List.rev_app_distr. reflexivity.
  - intros other n Hne. rewrite List.filter_app. cbn [List.filter].
    replace (String.eqb (sessionId i) other) with false.
    + now rewrite List.app_nil_r.
    + symmetry. apply String.eqb_neq. congruence.
Qed.

Lemma uniqueInOrder_In (x : Z) (xs seen : list Z) :
  In x (uniqueInOrder seen xs) -> In x xs.
Proof.
  revert seen. induction xs as [| y xs IH]; intros seen; simpl; [tauto |].
  destruct (existsb (Z.eqb y) seen); simpl.
  - intros H. right. eapply IH, H.
  - intros [-> | H]; [now left | right; eapply IH, H].
Qed.

Lemma uniqueInOrder_complete (x : Z) (xs seen : list Z) :
  In x xs -> In x seen \/ In x (uniqueInOrder seen xs).
Proof.
  revert seen. induction xs as [| y xs IH]; intros seen; simpl; [tauto |].
  intros [-> | H].
  - destruct (existsb (Z.eqb x) seen) eqn:E.
    + left. apply List.existsb_exists in E as (z & Hz & Hxz).
      apply Z.eqb_eq in Hxz. now subst z.
    + right. now left.
  - destruct (existsb (Z.eqb y) seen).
    + apply IH, H.
    + destruct (IH (y :: seen) H) as [[-> | Hs] | Hu]; simpl; auto.
Qed.

Lemma getProductsByIds_spec (ids : list Z) (db : Db) :
  getProductsByIds ids (Some db)
  = List.filter (fun p => existsb (Z.eqb (id p)) ids) (products db).
Proof.
  destruct ids as [| x ids]; [| reflexivity]. cbn [getProductsByIds existsb].
  induction (products db) as [| p l IH]; simpl; auto.
Qed.

Lemma existsb_eqb_In (x : Z) (l : list Z) : existsb (Z.eqb x) l = true <-> In x l.
Proof.
  rewrite List.existsb_exists. split.
  - intros (y & Hy & E). apply Z.eqb_eq in E. now subst.
  - intros H. exists x. split; [exact H | apply Z.eqb_refl].
Qed.

(** The recently viewed products are rows of the catalogue, in the
    order of the catalogue (not of the views), each with a view of the
    session on record; and a product of the catalogue whose view is
    among the session's [limit] most recent views is returned. *)
Theorem getRecentlyViewedProducts_spec (sid : string) (limit : nat) (db : Db) :
  let viewed :=
    List.map interactionProductId
      (firstn limit
         (rev (List.filter
                 (fun i => String.eqb (sessionId i) sid
                           && InteractionType_eqb (interactionType i) view)
                 (interactions db)))) in
  sublist (getRecentlyViewedProducts sid limit (Some db)) (products db)
  /\ forall p,
       In p (getRecentlyViewedProducts sid limit (Some db))
       <-> In p (products db) /\ In (id p) viewed.
Proof.
  cbv zeta. unfold getRecentlyViewedProducts.
  set (viewed := List.map interactionProductId _).
  assert (Heq : match uniqueInOrder [] viewed with
                | [] => []
                | _ => getProductsByIds (uniqueInOrder [] viewed) (Some db)
                end
                = List.filter (fun p => existsb (Z.eqb (id p)) (uniqueInOrder [] viewed))
                    (products db)).
  { rewrite <- getProductsByIds_spec. now destruct (uniqueInOrder [] viewed). }
  rewrite Heq. split; [apply sublist_List_filter |].
  intros p. rewrite List.filter_In, existsb_eqb_In. split.
  - intros [Hp Hin]. split; [exact Hp |]. eapply uniqueInOrder_In, Hin.
  - intros [Hp Hin]. split; [exact Hp |].
    destruct (uniqueInOrder_complete _ _ [] Hin) as [[] | H]. exact H.
Qed.

(** A second call of [getActiveRankingWeights] returns the row of the
    first and changes nothing; the call never touches the products, the
    embeddings, the interactions or the logs, and the row it returns is
    active. *)
Theorem getActiveRankingWeights_settles (db : Db) :
  exists row db1,
    getActiveRankingWeights (Some db) = (row, Some db1)
    /\ getActiveRankingWeights (Some db1) = (row, Some db1)
    /\ isActive row = true
    /\ In row (rankingWeights db1)
    /\ products db1 = products db
    /\ productEmbeddings db1 = productEmbeddings db
    /\ interactions db1 = interactions db
    /\ searchLogs db1 = searchLogs db
    /\ searchResultExplanations db1 = searchResultExplanations db.
Proof.
  destruct (getActiveRankingWeights_tables db)
    as (row & db1 & Hw & Hp & He & Hi & Hl & Hx).
  exists row, db1. pose proof (getActiveRankingWeights_again db) as Hagain.
  rewrite Hw in Hagain. cbn [snd] in Hagain.
  repeat (split; [assumption |]).
  assert (Hfound : selectActiveWeights db1 = Some row).
  { destruct (selectActiveWeights db1) as [row1 |] eqn:E.
    - rewrite (getActiveRankingWeights_found db1 row1 E) in Hagain. congruence.
    - pose proof (getActiveRankingWeights_missing db1 E) as Hm.
      rewrite Hagain in Hm.
      rewrite (getActiveRankingWeights_found _ _
                 (selectActiveWeights_after_insert db1 E)) in Hm.
      injection Hm as _ Hdb. exfalso.
      apply (f_equal (fun d => List.length (rankingWeights d))) in Hdb.
      unfold insertDefaultWeights in Hdb. cbn [rankingWeights] in Hdb.
      rewrite List.length_app in Hdb. simpl in Hdb. lia. }
  apply List.find_some in Hfound as [Hin Hact].
  repeat split; assumption.
Qed.

(** ** The recommender *)

Lemma getFeaturedProducts_In (p : Product) (limit : nat) (db : Db) :
  In p (getFeaturedProducts limit (Some db)) ->
  In p (products db) /\ isFeatured p = true.
Proof.
  cbn [getFeaturedProducts]. intros H.
  apply (In_sublist _ _ _ (sublist_firstn _ _)) in H.
  apply stableSort_In in H. now apply List.filter_In in H.
Qed.

Lemma getProductsWithEmbeddings_In (p : Product) (e : list Q) (db : Db) :
  In (p, e) (getProductsWithEmbeddings (Some db)) ->
  In p (products db) /\ getEmbeddingByProductId (id p) (Some db) = Some e.
Proof.
  unfold getProductsWithEmbeddings. intros H.
  apply List.in_flat_map in H as (p0 & Hin & H).
  destruct (getEmbeddingByProductId (id p0) (Some db)) as [e0 |] eqn:E;
    [| destruct H].
  destruct H as [H | []]. injection H as -> ->. auto.
Qed.

Lemma StronglySorted_const {A : Type} (key : A -> Q) (c : Q) (l : list A) :
  Forall (fun a => key a = c) l ->
  StronglySorted (fun a b => key b <= key a) l.
Proof.
  induction 1 as [| x l Hx Hl IH]; constructor; [exact IH |].
  eapply List.Forall_impl; [| exact Hl]. cbv beta. intros a ->. rewrite Hx.
  apply Qle_refl.
Qed.

Lemma coldStart_shape (limit : nat) (ex : list Z) (w : World) :
  let rs := getColdStartRecommendations limit ex w in
  (List.length rs <= limit)%nat
  /\ Forall (fun r => score r = 1 /\ sourceProductId r = None) rs
  /\ forall r db, In r rs -> w = Some db ->
       In (recommended r) (products db) /\ isFeatured (recommended r) = true.
Proof.
  cbv zeta. unfold getColdStartRecommendations. split; [| split].
  - rewrite List.length_map. apply List.firstn_le_length.
  - apply List.Forall_forall. intros r H.
    apply List.in_map_iff in H as (p & <- & _). auto.
  - intros r db H ->. apply List.in_map_iff in H as (p & <- & Hp).
    cbn [recommended].
    apply (In_sublist _ _ _ (sublist_firstn _ _)) in Hp.
    apply List.filter_In in Hp as [Hp _].
    eapply getFeaturedProducts_In, Hp.
Qed.

Section RecommenderFacts.

Variable Math_sqrt : Q -> Q.

(** Whatever the session and whichever path is taken,
    [getSessionRecommendations] returns at most [limit] recommendations,
    ordered by score from the highest down, each with a score above 0.1,
    for a product of the catalogue that is not in [excludeProductIds]. *)
Theorem getSessionRecommendations_shape (sid : string) (limit : nat)
    (ex : list Z) (w : World) :
  let rs := getSessionRecommendations Math_sqrt sid limit ex w in
  (List.length rs <= limit)%nat
  /\ StronglySorted (fun a b => score b <= score a) rs
  /\ forall r, In r rs ->
       1 # 10 < score r
       /\ ~ In (id (recommended r)) ex
       /\ forall db, w = Some db -> In (recommended r) (products db).
Proof.
  cbv zeta.
  assert (Hcold :
    let rs := getColdStartRecommendations limit ex w in
    (List.length rs <= limit)%nat
    /\ StronglySorted (fun a b => score b <= score a) rs
    /\ forall r, In r rs ->
         1 # 10 < score r
         /\ ~ In (id (recommended r)) ex
         /\ forall db, w = Some db -> In (recommended r) (products db)).
  { cbv zeta. destruct (coldStart_shape limit ex w) as (Hlen & Hall & Hcat).
    cbv zeta in *. split; [exact Hlen |]. split.
    - apply (StronglySorted_const score 1).
      eapply List.Forall_impl; [| exact Hall]. cbv beta. tauto.
    - intros r H. rewrite List.Forall_forall in Hall.
      destruct (Hall r H) as [-> _]. split; [reflexivity |].
      split; [eapply coldStart_respects_exclude, H |].
      intros db Hw. eapply Hcat; eassumption. }
  unfold getSessionRecommendations.
  destruct (List.length (getSessionInteractions sid 20 w) =? 0)%nat;
    [exact Hcold |].
  set (productScores := scoreInteractions _ _ _ _).
  destruct (List.length (collectInteracted productScores w) =? 0)%nat;
    [exact Hcold |].
  clear Hcold. split; [apply List.firstn_le_length |]. split.
  - apply StronglySorted_firstn. apply (Array_sort_descending_sorted score).
  - intros r H.
    apply (In_sublist _ _ _ (sublist_firstn _ _)) in H.
    apply Array_sort_In in H.
    apply List.in_flat_map in H as ([p e] & Hpe & H).
    destruct (bool_decide _) eqn:Ed; [destruct H |].
    apply bool_decide_eq_false in Ed.
    destruct (matchCandidate _ _ _) as [total best].
    destruct (negb _) eqn:Escore; [| destruct H].
    destruct H as [<- | []]. cbn [recommended score].
    split; [| split].
    + apply negb_true_iff in Escore. apply Qnot_le_lt. intros Hle.
      apply Qle_bool_iff in Hle. congruence.
    + intros Hin. apply Ed. apply elem_of_list_to_set, list_elem_of_In.
      apply List.in_or_app. now left.
    + intros db ->. eapply getProductsWithEmbeddings_In, Hpe.
Qed.

End RecommenderFacts.

(** *** The interaction scores *)

Lemma scoreInteractions_grows (k : Z) (s : Q) (t : InteractionType)
    (total : nat) (l : list Interaction) (index : nat)
    (m : JsMap (Q * InteractionType)) :
  Map_get k m = Some (s, t) ->
  exists s' t',
    Map_get k (scoreInteractions total index l m) = Some (s', t') /\ s <= s'.
Proof.
  revert index m s t. induction l as [| i l IH]; intros index m s t Hk.
  - exists s, t. split; [exact Hk | apply Qle_refl].
  - cbn [scoreInteractions]. cbv zeta.
    set (sc := interactionWeights (interactionType i) * _).
    destruct (Z.eq_dec k (interactionProductId i)) as [-> | Hne].
    + rewrite Hk. destruct (negb (Qle_bool sc s)) eqn:E.
      * destruct (IH (S index) _ sc (interactionType i)
                    (Map_get_set_eq _ _ m)) as (s' & t' & Hget & Hle).
        exists s', t'. split; [exact Hget |].
        apply negb_true_iff in E.
        assert (s < sc).
        { apply Qnot_le_lt. intros H. apply Qle_bool_iff in H. congruence. }
        lra.
      * apply (IH (S index) m s t Hk).
    + assert (Hkeep : forall v,
                Map_get k (Map_set (interactionProductId i) v m) = Some (s, t)).
      { intros v. rewrite Map_get_set_ne; [exact Hk | exact Hne]. }
      destruct (Map_get (interactionProductId i) m) as [[s0 t0] |];
        [destruct (negb (Qle_bool sc s0)) |]; eauto.
Qed.

(** In the map of interaction scores every interacted product carries
    the score of one of its interactions, and no interaction of that
    product has a higher score: the map keeps the maximum of
    [weight * recencyBoost] per product. *)
Theorem scoreInteractions_keeps_maximum (total : nat) (l : list Interaction) :
  let interactionScore (n : nat) (i : Interaction) :=
    interactionWeights (interactionType i)
    * (1 + (inject_Z (Z.of_nat total) - inject_Z (Z.of_nat n))
           / inject_Z (Z.of_nat total)) in
  let productScores := scoreInteractions total 0 l [] in
  (forall n i, nth_error l n = Some i ->
     exists s t,
       Map_get (interactionProductId i) productScores = Some (s, t)
       /\ interactionScore n i <= s)
  /\ (forall k s t, Map_get k productScores = Some (s, t) ->
        exists n i,
          nth_error l n = Some i /\ interactionProductId i = k
          /\ s = interactionScore n i /\ t = interactionType i).
Proof.
  cbv zeta.
  assert (Hlow : forall index m n i,
            nth_error l n = Some i ->
            exists s t,
              Map_get (interactionProductId i)
                (scoreInteractions total index l m) = Some (s, t)
              /\ interactionWeights (interactionType i)
                 * (1 + (inject_Z (Z.of_nat total)
                         - inject_Z (Z.of_nat (index + n)))
                        / inject_Z (Z.of_nat total)) <= s).
  { induction l as [| j l IH]; intros index m n i Hn.
    - destruct n; discriminate.
    - destruct n as [| n].
      + injection Hn as ->. rewrite Nat.add_0_r.
        cbn [scoreInteractions]. cbv zeta.
        set (sc := interactionWeights (interactionType i) * _).
        destruct (Map_get (interactionProductId i) m) as [[s0 t0] |] eqn:E.
        * destruct (negb (Qle_bool sc s0)) eqn:Eb.
          -- apply (scoreInteractions_grows _ _ _ _ _ _ _ (Map_get_set_eq _ _ m)).
          -- destruct (scoreInteractions_grows _ _ _ total l (S index) m E)
               as (s' & t' & Hget & Hle).
             exists s', t'. split; [exact Hget |].
             apply negb_false_iff, Qle_bool_iff in Eb. lra.
        * apply (scoreInteractions_grows _ _ _ _ _ _ _ (Map_get_set_eq _ _ m)).
      + cbn [scoreInteractions]. cbv zeta.
        replace (index + S n)%nat with (S index + n)%nat by lia.
        apply IH. exact Hn. }
  assert (Hup : forall index m k s t,
            Map_get k (scoreInteractions total index l m) = Some (s, t) ->
            Map_get k m = Some (s, t)
            \/ exists n i,
                 nth_error l n = Some i /\ interactionProductId i = k
                 /\ s = interactionWeights (interactionType i)
                        * (1 + (inject_Z (Z.of_nat total)
                                - inject_Z (Z.of_nat (index + n)))
                               / inject_Z (Z.of_nat total))
                 /\ t = interactionType i).
  { clear Hlow. induction l as [| j l IH]; intros index m k s t Hk.
    - left. exact Hk.
    - cbn [scoreInteractions] in Hk. cbv zeta in Hk.
      apply IH in Hk. destruct Hk as [Hk | (n & i & Hn & Hi & Hs & Ht)].
      + assert (Hset : Map_get k (Map_set (interactionProductId j)
                          (interactionWeights (interactionType j)
                           * (1 + (inject_Z (Z.of_nat total)
                                   - inject_Z (Z.of_nat index))
                                  / inject_Z (Z.of_nat total)),
                           interactionType j) m) = Some (s, t) ->
                       Map_get k m = Some (s, t)
                       \/ exists n i,
                            nth_error (j :: l) n = Some i
                            /\ interactionProductId i = k
                            /\ s = interactionWeights (interactionType i)
                                   * (1 + (inject_Z (Z.of_nat total)
                                           - inject_Z (Z.of_nat (index + n)))
                                          / inject_Z (Z.of_nat total))
                            /\ t = interactionType i).
        { intros H. destruct (Z.eq_dec k (interactionProductId j)) as [-> | Hne].
          - rewrite Map_get_set_eq in H. injection H as <- <-.
            right. exists 0%nat, j. rewrite Nat.add_0_r. auto.
          - left. rewrite Map_get_set_ne in H; assumption. }
        revert Hk.
        destruct (Map_get (interactionProductId j) m) as [[s0 t0] |];
          [destruct (negb (Qle_bool _ s0)) |]; auto.
      + right. exists (S n), i.
        replace (index + S n)%nat with (S index + n)%nat by lia.
        repeat split; assumption. }
  split.
  - intros n i Hn. apply (Hlow 0%nat [] n i Hn).
  - intros k s t Hk. destruct (Hup 0%nat [] k s t Hk) as [H | H];
      [discriminate | exact H].
Qed.

(** *** Sorting by an order given as [before] *)

Section OrderedSortFacts.

Context {A : Type}.
Variable before : A -> A -> bool.
Hypothesis before_asym : forall x y, before y x = true -> before x y = false.
Hypothesis before_negtrans :
  forall x y z, before y x = false -> before z y = false -> before z x = false.

Lemma insertStable_ordered (x : A) (l : list A) :
  StronglySorted (fun a b => before b a = false) l ->
  StronglySorted (fun a b => before b a = false) (insertStable before x l).
Proof.
  induction 1 as [| y l Hl IH Hy]; simpl.
  - constructor; [constructor | constructor].
  - destruct (before y x) eqn:E.
    + constructor; [exact IH |].
      apply List.Forall_forall. intros z Hz.
      apply insertStable_In in Hz as [-> | Hz]; [now apply before_asym |].
      rewrite List.Forall_forall in Hy. now apply Hy.
    + constructor; [constructor; assumption |].
      constructor; [exact E |].
      rewrite List.Forall_forall in Hy |- *. intros z Hz.
      eapply before_negtrans; [exact E | now apply Hy].
Qed.

Lemma stableSort_ordered (l : list A) :
  StronglySorted (fun a b => before b a = false) (stableSort before l).
Proof.
  unfold stableSort. induction l as [| x l IH]; simpl.
  - constructor.
  - now apply insertStable_ordered.
Qed.

End OrderedSortFacts.

Lemma insertStable_Permutation {A : Type} (before : A -> A -> bool) (x : A)
    (l : list A) :
  Permutation (insertStable before x l) (x :: l).
Proof.
  induction l as [| y l IH]; simpl; [reflexivity |].
  destruct (before y x); [| reflexivity].
  rewrite IH. apply perm_swap.
Qed.

Lemma stableSort_Permutation {A : Type} (before : A -> A -> bool) (l : list A) :
  Permutation (stableSort before l) l.
Proof.
  unfold stableSort. induction l as [| x l IH]; simpl; [reflexivity |].
  rewrite insertStable_Permutation. now constructor.
Qed.

Lemma ratingDescBefore_asym (x y : Product) :
  ratingDescBefore y x = true -> ratingDescBefore x y = false.
Proof.
  unfold ratingDescBefore. destruct (rating y) as [ry |], (rating x) as [rx |];
    try reflexivity; try discriminate.
  rewrite negb_true_iff, negb_false_iff. intros H. apply Qle_bool_iff.
  apply Qlt_le_weak, Qnot_le_lt. intros Hle. apply Qle_bool_iff in Hle. congruence.
Qed.

Lemma ratingDescBefore_negtrans (x y z : Product) :
  ratingDescBefore y x = false -> ratingDescBefore z y = false ->
  ratingDescBefore z x = false.
Proof.
  unfold ratingDescBefore.
  destruct (rating x) as [rx |], (rating y) as [ry |], (rating z) as [rz |];
    try reflexivity; try discriminate.
  rewrite !negb_false_iff, !Qle_bool_iff. intros H1 H2. lra.
Qed.

Lemma length_getFeaturedProducts (limit : nat) (db : Db) :
  List.length (getFeaturedProducts limit (Some db))
  = Nat.min limit (List.length (List.filter isFeatured (products db))).
Proof.
  cbn [getFeaturedProducts]. rewrite List.length_firstn.
  now rewrite (Permutation_length (stableSort_Permutation _ _)).
Qed.

(** The featured products come best rated first, a product without a
    rating before every rated one; all of them are featured rows of the
    catalogue, there are at most [limit], and exactly [limit] when the
    catalogue has that many featured products. *)
Theorem getFeaturedProducts_ordered (limit : nat) (db : Db) :
  let featured := getFeaturedProducts limit (Some db) in
  StronglySorted
    (fun a b => match rating a, rating b with
                | Some ra, Some rb => rb <= ra
                | Some _, None => False
                | None, _ => True
                end) featured
  /\ Forall (fun p => In p (products db) /\ isFeatured p = true) featured
  /\ List.length featured
     = Nat.min limit (List.length (List.filter isFeatured (products db))).
Proof.
  cbv zeta. cbn [getFeaturedProducts]. split; [| split].
  - apply StronglySorted_firstn.
    pose proof (stableSort_ordered ratingDescBefore ratingDescBefore_asym
                  ratingDescBefore_negtrans
                  (List.filter isFeatured (products db))) as H.
    induction H as [| x l Hl IH Hx]; constructor; [exact IH |].
    eapply List.Forall_impl; [| exact Hx]. cbv beta. intros b.
    unfold ratingDescBefore.
    destruct (rating x) as [rx |], (rating b) as [rb |]; try discriminate; auto.
    rewrite negb_false_iff, Qle_bool_iff. auto.
  - apply List.Forall_forall. intros p H.
    apply (getFeaturedProducts_In p limit db H).
  - apply length_getFeaturedProducts.
Qed.

Lemma NoDup_map_sublist {A B : Type} (f : A -> B) (l1 l2 : list A) :
  sublist l1 l2 -> NoDup (List.map f l2) -> NoDup (List.map f l1).
Proof.
  intros Hs H. eapply sublist_NoDup; [exact H | now apply sublist_List_map].
Qed.

Lemma filter_length_split {A : Type} (f : A -> bool) (l : list A) :
  (List.length (List.filter f l) + List.length (List.filter (fun x => negb (f x)) l)
   = List.length l)%nat.
Proof.
  induction l as [| x l IH]; simpl; [reflexivity |].
  destruct (f x); simpl; lia.
Qed.

(** Asking for [limit + excludeProductIds.length] featured products is
    enough: when product ids are unique and the catalogue has that many
    featured products, the cold start returns exactly [limit]
    recommendations. *)
Theorem getColdStartRecommendations_count (limit : nat) (ex : list Z) (db : Db) :
  NoDup (List.map id (products db)) ->
  (limit + List.length ex <= List.length (List.filter isFeatured (products db)))%nat ->
  List.length (getColdStartRecommendations limit ex (Some db)) = limit.
Proof.
  intros Hnodup Hcount. unfold getColdStartRecommendations.
  rewrite List.length_map, List.length_firstn.
  set (featured := getFeaturedProducts (limit + List.length ex) (Some db)).
  set (excluded := fun p : Product =>
         bool_decide (elem_of (id p) (list_to_set ex : gset Z))).
  assert (Hlen : List.length featured = (limit + List.length ex)%nat).
  { unfold featured. rewrite length_getFeaturedProducts. lia. }
  assert (Hids : NoDup (List.map id featured)).
  { unfold featured. cbn [getFeaturedProducts].
    eapply NoDup_map_sublist; [apply sublist_firstn |].
    rewrite stableSort_Permutation.
    eapply NoDup_map_sublist; [apply sublist_List_filter | exact Hnodup]. }
  assert (Hremoved : (List.length (List.filter excluded featured)
                      <= List.length ex)%nat).
  { rewrite <- (List.length_map id (List.filter excluded featured)).
    apply submseteq_length, NoDup_submseteq.
    - eapply NoDup_map_sublist; [apply sublist_List_filter | exact Hids].
    - intros k Hk. rewrite list_elem_of_In in *.
      apply List.in_map_iff in Hk as (p & <- & Hp).
      apply List.filter_In in Hp as [_ Hp]. unfold excluded in Hp.
      apply bool_decide_eq_true in Hp.
      apply elem_of_list_to_set, list_elem_of_In in Hp. exact Hp. }
  pose proof (filter_length_split excluded featured) as Hsplit.
  change (fun p : Product =>
            negb (bool_decide (elem_of (id p) (list_to_set ex : gset Z))))
    with (fun p => negb (excluded p)).
  lia.
Qed.

(** The trending list is the featured list with the score
    [1 - 0.05 * index]: never above 1, and positive for the first twenty
    entries only. *)
Lemma getTrendingProducts_scores (limit : nat) (w : World) :
  let trending := getTrendingProducts limit w in
  List.map recommended trending = getFeaturedProducts limit w
  /\ forall k r, nth_error trending k = Some r ->
       score r <= 1 /\ (0 < score r <-> (k < 20)%nat).
Proof.
  cbv zeta. unfold getTrendingProducts.
  generalize (getFeaturedProducts limit w). intros l.
  assert (Hgen : forall i k r,
            nth_error
              (mapWithIndex
                 (fun product index =>
                    {| recommended := product;
                       score := 1 - inject_Z (Z.of_nat index) * (5 # 100);
                       reason := "Trending now";
                       sourceProductId := None |}) i l) k = Some r ->
            score r = 1 - inject_Z (Z.of_nat (i + k)) * (5 # 100)).
  { induction l as [| p l IH]; intros i k r H; [destruct k; discriminate |].
    destruct k as [| k]; cbn [mapWithIndex nth_error] in H.
    - injection H as <-. cbn [score]. now rewrite Nat.add_0_r.
    - apply IH in H. rewrite H. do 3 f_equal. lia. }
  split.
  - clear Hgen. generalize 0%nat.
    induction l as [| p l IH]; intros i; simpl; [reflexivity |].
    now rewrite IH.
  - intros k r H. rewrite (Hgen 0%nat k r H). cbn [Nat.add].
    assert (H0 : 0 <= inject_Z (Z.of_nat k)).
    { change 0 with (inject_Z 0). rewrite <- Zle_Qle. lia. }
    split; [lra |]. split; intros Hk.
    + assert (Hlt : inject_Z (Z.of_nat k) < 20) by lra.
      change 20 with (inject_Z 20) in Hlt. rewrite <- Zlt_Qlt in Hlt. lia.
    + assert (Hlt : inject_Z (Z.of_nat k) < 20).
      { change 20 with (inject_Z 20). rewrite <- Zlt_Qlt. lia. }
      lra.
Qed.

Section SimilarFacts.

Variable Math_sqrt : Q -> Q.
Variable Number_toFixed0 : Q -> string.

(** [getSimilarProducts] never recommends the product itself and returns
    at most [limit] products; when the product has a stored embedding
    every recommendation has a cosine above 0.3 to it as score, names it
    as source, and the list is ordered by score from the highest down. *)
Theorem getSimilarProducts_shape (productId : Z) (limit : nat) (w : World) :
  let rs := getSimilarProducts Math_sqrt Number_toFixed0 productId limit w in
  (List.length rs <= limit)%nat
  /\ (forall r, In r rs -> id (recommended r) <> productId)
  /\ forall e, getEmbeddingByProductId productId w = Some e ->
       StronglySorted (fun a b => score b <= score a) rs
       /\ forall r, In r rs ->
            3 # 10 < score r
            /\ sourceProductId r = Some productId
            /\ exists e', In (recommended r, e') (getProductsWithEmbeddings w)
                          /\ score r = cosineSimilarity Math_sqrt e e'.
Proof.
  cbv zeta. unfold getSimilarProducts.
  destruct (getEmbeddingByProductId productId w) as [e |] eqn:E.
  - assert (Hin : forall r,
              In r (firstn limit
                      (Array_sort (fun a b => score b - score a)
                         (flat_map
                            (fun pe : Product * list Q =>
                               let '(product, embedding) := pe in
                               if (id product =? productId)%Z then []
                               else
                                 if negb (Qle_bool
                                            (cosineSimilarity Math_sqrt e embedding)
                                            (3 # 10))
                                 then
                                   [{| recommended := product;
                                       score := cosineSimilarity Math_sqrt e embedding;
                                       reason :=
                                         (Number_toFixed0
                                            (cosineSimilarity Math_sqrt e embedding * 100)
                                          ++ "% similar")%string;
                                       sourceProductId := Some productId |}]
                                 else [])
                            (getProductsWithEmbeddings w)))) ->
              id (recommended r) <> productId
              /\ 3 # 10 < score r
              /\ sourceProductId r = Some productId
              /\ exists e', In (recommended r, e') (getProductsWithEmbeddings w)
                            /\ score r = cosineSimilarity Math_sqrt e e').
    { intros r H.
      apply (In_sublist _ _ _ (sublist_firstn _ _)) in H.
      apply Array_sort_In in H.
      apply List.in_flat_map in H as ([p e'] & Hpe & H).
      destruct (id p =? productId)%Z eqn:Eid; [destruct H |].
      destruct (negb _) eqn:Es; [| destruct H].
      destruct H as [<- | []]. cbn [recommended score sourceProductId].
      split; [now apply Z.eqb_neq |]. split.
      - apply negb_true_iff in Es. apply Qnot_le_lt. intros Hle.
        apply Qle_bool_iff in Hle. congruence.
      - split; [reflexivity |]. exists e'. auto. }
    split; [apply List.firstn_le_length |].
    split; [intros r H; apply (Hin r H) |].
    intros e0 He0. injection He0 as <-. split.
    + apply StronglySorted_firstn. apply (Array_sort_descending_sorted score).
    + intros r H. apply (Hin r H).
  - split; [| split; [| discriminate]].
    + unfold getCategoryBasedRecommendations.
      destruct (getProductsByIds [productId] w) as [| product ?];
        [apply coldStart_shape |].
      destruct (truthyString (category product));
        [| apply coldStart_shape].
      rewrite List.length_map. apply List.firstn_le_length.
    + intros r H. unfold getCategoryBasedRecommendations in H.
      assert (Hcold : In r (getColdStartRecommendations limit [productId] w) ->
                      id (recommended r) <> productId).
      { intros Hr Heq. apply (coldStart_respects_exclude _ _ _ _ Hr).
        left. now symmetry. }
      destruct (getProductsByIds [productId] w) as [| product ?]; [auto |].
      destruct (truthyString (category product)); [| auto].
      apply List.in_map_iff in H as (pe & <- & Hpe). cbn [recommended].
      apply (In_sublist _ _ _ (sublist_firstn _ _)) in Hpe.
      apply List.filter_In in Hpe as [_ Hpe].
      apply andb_true_iff in Hpe as [Hpe _]. apply negb_true_iff in Hpe.
      now apply Z.eqb_neq.
Qed.

End SimilarFacts.

(** ** The keyword search *)

Lemma ilike_only_percent (p t : string) :
  Forall (fun c => c = "%"%char) (list_ascii_of_string p) ->
  p <> EmptyString -> ilike p t = true.
Proof.
  revert t. induction p as [| c p IH]; intros t Hall Hne; [congruence |].
  cbn [list_ascii_of_string] in Hall.
  apply List.Forall_cons_iff in Hall as [-> Hall].
  rewrite ilike_percent. destruct p as [| d p].
  - erewrite anySuffix_ext; [apply anySuffix_empty |].
    intros [| e u]; reflexivity.
  - destruct t as [| e t]; cbn [anySuffix]; rewrite IH; try reflexivity;
      try assumption; discriminate.
Qed.

Lemma list_ascii_of_string_app (s t : string) :
  list_ascii_of_string (s ++ t)
  = list_ascii_of_string s ++ list_ascii_of_string t.
Proof. induction s as [| c s IH]; simpl; [reflexivity | now rewrite IH]. Qed.

Lemma includes_empty (s : string) : Js.includes s EmptyString = true.
Proof. destruct s; reflexivity. Qed.

(** What the keyword search returns are rows of the catalogue, in the
    order of the catalogue, at most [limit]; for a keyword without
    pattern characters each of them contains the trimmed keyword in its
    title, description or category, letter case apart, and every such
    product is returned when there are no more than [limit]. *)
Theorem searchProductsByKeyword_sound (keyword : string) (limit : nat) (db : Db) :
  let found := searchProductsByKeyword keyword limit (Some db) in
  let contains (p : Product) :=
    Js.includes (Js.toLowerCase (title p)) (Js.toLowerCase (Js.trim keyword))
    || Js.includes (Js.toLowerCase (Js.orEmpty (description p)))
         (Js.toLowerCase (Js.trim keyword))
    || Js.includes (Js.toLowerCase (Js.orEmpty (category p)))
         (Js.toLowerCase (Js.trim keyword)) in
  sublist found (products db)
  /\ (List.length found <= limit)%nat
  /\ (noLikeMeta (Js.trim keyword) = true ->
      Forall (fun p => contains p = true) found
      /\ ((List.length (List.filter contains (products db)) <= limit)%nat ->
          forall p, In p (products db) -> contains p = true -> In p found)).
Proof.
  cbv zeta. cbn [searchProductsByKeyword]. split; [| split].
  - etransitivity; [apply sublist_firstn | apply sublist_List_filter].
  - apply List.firstn_le_length.
  - intros Hm.
    assert (Heq : List.filter (keywordMatches keyword) (products db)
                  = List.filter
                      (fun p =>
                         Js.includes (Js.toLowerCase (title p))
                           (Js.toLowerCase (Js.trim keyword))
                         || Js.includes (Js.toLowerCase (Js.orEmpty (description p)))
                              (Js.toLowerCase (Js.trim keyword))
                         || Js.includes (Js.toLowerCase (Js.orEmpty (category p)))
                              (Js.toLowerCase (Js.trim keyword)))
                      (products db)).
    { apply List.filter_ext. intros p. now apply keywordMatches_substring. }
    rewrite Heq. split.
    + apply List.Forall_forall. intros p H.
      apply (In_sublist _ _ _ (sublist_firstn _ _)) in H.
      now apply List.filter_In in H.
    + intros Hlen p Hp Hc. rewrite List.firstn_all2 by exact Hlen.
      apply List.filter_In. auto.
Qed.

(** The pattern characters of the keyword are not escaped: a keyword
    that is blank, or made of [%] only once trimmed, matches every
    product, so the search returns the first [limit] rows of the
    catalogue. *)
Theorem searchProductsByKeyword_wildcard (keyword : string) (limit : nat) (db : Db) :
  Forall (fun c => c = "%"%char) (list_ascii_of_string (Js.trim keyword)) ->
  searchProductsByKeyword keyword limit (Some db) = firstn limit (products db).
Proof.
  intros Hall. cbn [searchProductsByKeyword]. f_equal.
  apply filter_every. apply List.Forall_forall. intros p _.
  unfold keywordMatches. cbv zeta. rewrite ilike_only_percent; [reflexivity | |].
  - change ("%" ++ Js.trim keyword ++ "%")%string
      with (String "%" (Js.trim keyword ++ "%")).
    cbn [list_ascii_of_string]. constructor; [reflexivity |].
    rewrite list_ascii_of_string_app. apply List.Forall_app. split; [exact Hall |].
    repeat constructor.
  - discriminate.
Qed.

(** ** The session cookie *)

Lemma append_cons (c : ascii) (s t : string) :
  (String c s ++ t)%string = String c (s ++ t).
Proof. reflexivity. Qed.

Lemma string_append_assoc (a b c : string) :
  ((a ++ b) ++ c)%string = (a ++ (b ++ c))%string.
Proof.
  induction a as [| x a IH]; [reflexivity |].
  rewrite !append_cons. now rewrite IH.
Qed.

Lemma prefix_split (p s : string) :
  String.prefix p s = true ->
  s = (p ++ dropChars (String.length p) s)%string.
Proof.
  revert s. induction p as [| c p IH]; intros s H; [reflexivity |].
  destruct s as [| d s]; [discriminate |]. cbn [String.prefix] in H.
  destruct (ascii_dec c d) as [-> | Hne]; [| discriminate].
  cbn [String.length dropChars]. rewrite append_cons. f_equal. now apply IH.
Qed.

Lemma prefix_append (p t : string) : String.prefix p (p ++ t) = true.
Proof.
  induction p as [| c p IH]; [now destruct t |].
  rewrite append_cons. cbn [String.prefix].
  destruct (ascii_dec c c); [exact IH | congruence].
Qed.

Lemma dropChars_append (p t : string) : dropChars (String.length p) (p ++ t) = t.
Proof.
  induction p as [| c p IH]; [now destruct t |].
  rewrite append_cons. exact IH.
Qed.

Lemma takeUntilSemicolon_split (s : string) :
  exists post, s = (takeUntilSemicolon s ++ post)%string.
Proof.
  induction s as [| c s [post IH]]; [now exists EmptyString |].
  cbn [takeUntilSemicolon]. destruct (Ascii.eqb c ";").
  - now exists (String c s).
  - exists post. rewrite append_cons. now f_equal.
Qed.

Lemma takeUntilSemicolon_idem (s : string) :
  takeUntilSemicolon (takeUntilSemicolon s) = takeUntilSemicolon s.
Proof.
  induction s as [| c s IH]; [reflexivity |]. cbn [takeUntilSemicolon].
  destruct (Ascii.eqb c ";") eqn:E; [reflexivity |].
  cbn [takeUntilSemicolon]. now rewrite E, IH.
Qed.

Lemma takeUntilSemicolon_append (v rest : string) :
  takeUntilSemicolon v = v ->
  rest = EmptyString \/ (exists rest', rest = String ";" rest') ->
  takeUntilSemicolon (v ++ rest) = v.
Proof.
  intros Hv Hrest. induction v as [| c v IH].
  - destruct Hrest as [-> | [rest' ->]]; reflexivity.
  - rewrite append_cons. cbn [takeUntilSemicolon] in *.
    destruct (Ascii.eqb c ";"); [discriminate |].
    injection Hv as Hv. now rewrite IH.
Qed.

Lemma matchHere_spec (cookies v : string) :
  matchHere cookies = Some v ->
  v <> EmptyString /\ takeUntilSemicolon v = v
  /\ exists post, cookies = (SESSION_COOKIE ++ "=" ++ v ++ post)%string.
Proof.
  unfold matchHere.
  destruct (String.prefix (SESSION_COOKIE ++ "=") cookies) eqn:E; [| discriminate].
  apply prefix_split in E.
  set (t := dropChars _ cookies) in *.
  destruct (takeUntilSemicolon_split t) as [post Ht].
  pose proof (takeUntilSemicolon_idem t) as Hidem.
  destruct (takeUntilSemicolon t) as [| c u] eqn:Et; [discriminate |].
  intros H. injection H as <-. split; [discriminate |]. split; [exact Hidem |].
  exists post. rewrite E at 1. rewrite Ht at 1.
  now rewrite <- string_append_assoc.
Qed.

Lemma matchSessionCookie_spec (cookies v : string) :
  matchSessionCookie cookies = Some v ->
  v <> EmptyString /\ takeUntilSemicolon v = v
  /\ exists pre post, cookies = (pre ++ SESSION_COOKIE ++ "=" ++ v ++ post)%string.
Proof.
  induction cookies as [| c cookies IH].
  - cbn [matchSessionCookie]. destruct (matchHere EmptyString) eqn:E; [| discriminate].
    intros H. injection H as ->. apply matchHere_spec in E as (Hne & Hv & post & Hc).
    split; [exact Hne |]. split; [exact Hv |]. now exists EmptyString, post.
  - cbn [matchSessionCookie]. destruct (matchHere (String c cookies)) eqn:E.
    + intros H. injection H as ->. apply matchHere_spec in E as (Hne & Hv & post & Hc).
      split; [exact Hne |]. split; [exact Hv |]. now exists EmptyString, post.
    + intros H. apply IH in H as (Hne & Hv & pre & post & Hc).
      split; [exact Hne |]. split; [exact Hv |].
      exists (String c pre), post. rewrite append_cons. now f_equal.
Qed.

(** [getOrCreateSessionId] either creates a session (the new id is
    returned and set as cookie) or returns, without setting a cookie, a
    value that is not empty, has no semicolon and stands in the cookie
    header right after [smartcart_session=]. *)
Theorem getOrCreateSessionId_cases (cookieHeader : option string) (nanoid32 : string) :
  getOrCreateSessionId cookieHeader nanoid32 = (nanoid32, Some nanoid32)
  \/ exists v pre post,
       getOrCreateSessionId cookieHeader nanoid32 = (v, None)
       /\ v <> EmptyString
       /\ takeUntilSemicolon v = v
       /\ cookieHeader = Some (pre ++ SESSION_COOKIE ++ "=" ++ v ++ post)%string.
Proof.
  unfold getOrCreateSessionId.
  destruct cookieHeader as [[| c cookies] |]; cbn [truthyString]; [now left | | now left].
  destruct (matchSessionCookie (String c cookies)) as [v |] eqn:E; [| now left].
  right. apply matchSessionCookie_spec in E as (Hne & Hv & pre & post & Hc).
  exists v, pre, post. rewrite Hc. auto.
Qed.

Lemma getOrCreateSessionId_of_match (cookies v nanoid32 : string) :
  matchSessionCookie cookies = Some v ->
  getOrCreateSessionId (Some cookies) nanoid32 = (v, None).
Proof.
  intros H. unfold getOrCreateSessionId. destruct cookies as [| c cookies].
  - cbn in H. discriminate.
  - cbn [truthyString]. now rewrite H.
Qed.

(** The cookie that the server sets is read back: for a header that
    starts with [smartcart_session=] followed by a value that is not
    empty and has no semicolon, then the end or a semicolon, the value is
    the session id and no cookie is set. *)
Theorem getOrCreateSessionId_reads_cookie (sid rest nanoid32 : string) :
  sid <> EmptyString ->
  takeUntilSemicolon sid = sid ->
  rest = EmptyString \/ (exists rest', rest = String ";" rest') ->
  getOrCreateSessionId (Some (SESSION_COOKIE ++ "=" ++ sid ++ rest)%string) nanoid32
  = (sid, None).
Proof.
  intros Hne Hv Hrest. apply getOrCreateSessionId_of_match.
  assert (Hhere : matchHere (SESSION_COOKIE ++ "=" ++ sid ++ rest)%string = Some sid).
  { unfold matchHere.
    rewrite <- (string_append_assoc SESSION_COOKIE "=" (sid ++ rest)).
    rewrite prefix_append, dropChars_append, takeUntilSemicolon_append by assumption.
    destruct sid; [congruence | reflexivity]. }
  destruct (SESSION_COOKIE ++ "=" ++ sid ++ rest)%string eqn:E;
    cbn [matchSessionCookie]; now rewrite Hhere.
Qed.

(** ** Cosine similarity and the embedding kernel over the reals *)

Lemma lowerChar_idem (c : ascii) : Js.lowerChar (Js.lowerChar c) = Js.lowerChar c.
Proof.
  destruct c as [[|] [|] [|] [|] [|] [|] [|] [|]]; vm_compute; reflexivity.
Qed.

Lemma toLowerCase_idem (s : string) :
  Js.toLowerCase (Js.toLowerCase s) = Js.toLowerCase s.
Proof.
  induction s as [| c s IH]; [reflexivity |].
  cbn [Js.toLowerCase]. now rewrite lowerChar_idem, IH.
Qed.

Module SimilarityFacts.

Import Similarity.
Import Lra.
Local Open Scope R_scope.

Ltac triple_ring :=
  apply pair_equal_spec; split; [apply pair_equal_spec; split |]; ring.

Lemma cosineSums_acc (a b : list R) (d A B : R) :
  fold_left
    (fun (acc : R * R * R) (xy : R * R) =>
       let '(dotProduct, normA, normB) := acc in
       let '(x, y) := xy in
       (dotProduct + x * y, normA + x * x, normB + y * y))
    (combine a b) (d, A, B)
  = let '(d', A', B') := cosineSums a b in (d + d', A + A', B + B').
Proof.
  unfold cosineSums. revert b d A B.
  induction a as [| x a IH]; intros b d A B.
  - cbn. triple_ring.
  - destruct b as [| y b]; [cbn; triple_ring |].
    cbn [combine fold_left]. rewrite IH, (IH b (0 + x * y) (0 + x * x) (0 + y * y)).
    destruct (fold_left _ (combine a b) (0, 0, 0)) as [[d' A'] B'].
    triple_ring.
Qed.

Lemma cosineSums_cons (x y : R) (a b : list R) :
  cosineSums (x :: a) (y :: b)
  = let '(d, A, B) := cosineSums a b in (x * y + d, x * x + A, y * y + B).
Proof.
  unfold cosineSums at 1. cbn [combine fold_left]. rewrite cosineSums_acc.
  destruct (cosineSums a b) as [[d A] B]. triple_ring.
Qed.

Lemma cosineSums_nil_r (a : list R) : cosineSums a [] = (0, 0, 0).
Proof. destruct a; reflexivity. Qed.

(** The inequality of Cauchy and Schwarz for the three sums. *)
Lemma cosineSums_bound (a b : list R) :
  let '(d, A, B) := cosineSums a b in 0 <= A /\ 0 <= B /\ d * d <= A * B.
Proof.
  revert b. induction a as [| x a IH]; intros b.
  - cbn. lra.
  - destruct b as [| y b]; [rewrite cosineSums_nil_r; lra |].
    rewrite cosineSums_cons. specialize (IH b).
    destruct (cosineSums a b) as [[d A] B]. destruct IH as (HA & HB & Hd).
    pose proof (Rle_0_sqr x) as Hx. pose proof (Rle_0_sqr y) as Hy.
    unfold Rsqr in Hx, Hy.
    split; [lra |]. split; [lra |].
    assert (Hmix : 2 * (x * y * d) <= x * x * B + y * y * A).
    { destruct (Req_dec A 0) as [-> | HA0].
      - assert (d = 0) by nra. subst d. nra.
      - assert (HApos : 0 < A) by lra.
        pose proof (Rle_0_sqr (A * y - x * d)) as Hs. unfold Rsqr in Hs.
        assert (Hp : 0 <= x * x * (A * B - d * d)) by (apply Rmult_le_pos; lra).
        assert (Hprod : 0 <= A * (x * x * B + y * y * A - 2 * (x * y * d))) by nra.
        nra. }
    nra.
Qed.

Lemma cosineSums_swap (a b : list R) :
  cosineSums b a = let '(d, A, B) := cosineSums a b in (d, B, A).
Proof.
  revert b. induction a as [| x a IH]; intros b.
  - now rewrite cosineSums_nil_r.
  - destruct b as [| y b]; [reflexivity |].
    rewrite !cosineSums_cons, IH. destruct (cosineSums a b) as [[d A] B].
    triple_ring.
Qed.

Lemma cosineSums_self (a : list R) :
  cosineSums a a
  = (Embedding.sumSquares a, Embedding.sumSquares a, Embedding.sumSquares a).
Proof.
  induction a as [| x a IH]; [reflexivity |].
  now rewrite cosineSums_cons, IH, EmbeddingFacts.sumSquares_cons.
Qed.

Lemma cosineSimilarity_self (a : list R) :
  cosineSimilarity a a = if Req_dec_T (Embedding.sumSquares a) 0 then 0 else 1.
Proof.
  unfold cosineSimilarity. rewrite Nat.eqb_refl, cosineSums_self. cbn [negb].
  rewrite sqrt_sqrt by apply EmbeddingFacts.sumSquares_nonneg.
  destruct (Req_dec_T (Embedding.sumSquares a) 0); [reflexivity |].
  field. assumption.
Qed.

(** The cosine similarity lies between -1 and 1 for all vectors, also
    for vectors of different lengths, where it is 0, and it is
    symmetric. *)
Theorem cosineSimilarity_range (a b : list R) :
  -1 <= cosineSimilarity a b <= 1
  /\ cosineSimilarity a b = cosineSimilarity b a
  /\ (List.length a <> List.length b -> cosineSimilarity a b = 0).
Proof.
  split; [| split].
  - unfold cosineSimilarity.
    destruct (negb (List.length a =? List.length b)%nat); [lra |].
    pose proof (cosineSums_bound a b) as H.
    destruct (cosineSums a b) as [[d A] B]. destruct H as (HA & HB & Hd).
    destruct (Req_dec_T (sqrt A * sqrt B) 0) as [_ | Hm]; [lra |].
    set (m := sqrt A * sqrt B) in *.
    assert (Hm0 : 0 < m).
    { pose proof (sqrt_pos A). pose proof (sqrt_pos B).
      assert (0 <= m) by (apply Rmult_le_pos; assumption). lra. }
    assert (Hmm : m * m = A * B).
    { unfold m. transitivity ((sqrt A * sqrt A) * (sqrt B * sqrt B)); [ring |].
      now rewrite !sqrt_sqrt. }
    assert (Hq : d / m * m = d) by (field; lra).
    assert (Hd' : - m <= d <= m) by nra.
    set (q := d / m) in *. split; nra.
  - unfold cosineSimilarity. rewrite (Nat.eqb_sym (List.length b)).
    rewrite (cosineSums_swap a b). destruct (cosineSums a b) as [[d A] B].
    now rewrite (Rmult_comm (sqrt B)).
  - intros Hne. unfold cosineSimilarity.
    apply Nat.eqb_neq in Hne. now rewrite Hne.
Qed.

(** Normalizing a second time changes nothing. *)
Lemma normalizeVector_idempotent (v : list R) :
  Embedding.normalizeVector (Embedding.normalizeVector v)
  = Embedding.normalizeVector v.
Proof.
  pose proof (EmbeddingFacts.normalizeVector_norm v) as Hn.
  unfold Embedding.l2norm in Hn.
  unfold Embedding.normalizeVector at 1.
  destruct (Req_dec_T (sqrt (Embedding.sumSquares (Embedding.normalizeVector v))) 0)
    as [_ | Hnz]; [reflexivity |].
  destruct (Req_dec_T (sqrt (Embedding.sumSquares v)) 0) as [_ | _];
    [congruence |].
  rewrite Hn. rewrite <- (List.map_id (Embedding.normalizeVector v)) at 2.
  apply List.map_ext. intros x. field.
Qed.

(** Two texts that differ in letter case only have the same embedding,
    so their similarity is 1, or 0 when the embedding is the zero
    vector. *)
Theorem embedding_ignores_case (text1 text2 : string) :
  Js.toLowerCase text1 = Js.toLowerCase text2 ->
  Embedding.generateDeterministicEmbedding text1
  = Embedding.generateDeterministicEmbedding text2
  /\ cosineSimilarity (Embedding.generateDeterministicEmbedding text1)
                      (Embedding.generateDeterministicEmbedding text2)
     = if Req_dec_T (Embedding.l2norm (Embedding.rawEmbedding text1)) 0
       then 0 else 1.
Proof.
  intros Hcase.
  assert (Heq : Embedding.generateDeterministicEmbedding text1
                = Embedding.generateDeterministicEmbedding text2).
  { unfold Embedding.generateDeterministicEmbedding, Embedding.rawEmbedding.
    cbv zeta. now rewrite Hcase. }
  split; [exact Heq |]. rewrite <- Heq.
  rewrite cosineSimilarity_self.
  pose proof (EmbeddingFacts.normalizeVector_norm (Embedding.rawEmbedding text1)) as Hn.
  fold (Embedding.generateDeterministicEmbedding text1) in Hn.
  unfold Embedding.l2norm in Hn at 1.
  destruct (Req_dec_T (Embedding.l2norm (Embedding.rawEmbedding text1)) 0) as [_ | _];
    destruct (Req_dec_T (Embedding.sumSquares
                           (Embedding.generateDeterministicEmbedding text1)) 0)
      as [Hz | Hnz]; try reflexivity.
  - exfalso. apply Hnz. apply sqrt_eq_0; [apply EmbeddingFacts.sumSquares_nonneg |].
    exact Hn.
  - exfalso. rewrite Hz, sqrt_0 in Hn. lra.
Qed.

End SimilarityFacts.

(** ** The properties at concrete inputs *)

Ltac distinct_ids :=
  vm_compute;
  repeat (apply NoDup_cons_2;
          [rewrite list_elem_of_In; simpl; intuition discriminate |]);
  apply NoDup_nil_2.

Lemma calculatePrecision_bounds_witness :
  (0 <= 2)%Z
  /\ 0 <= IR.calculatePrecision Samples.irResults Samples.irJudgments 2 1 <= 1.
Proof.
  split; [lia |].
  apply (IRFacts.calculatePrecision_bounds Samples.irResults Samples.irJudgments 2 1).
  lia.
Defined.

Lemma calculateRecall_monotone_witness :
  IR.calculateRecall Samples.irResults Samples.irJudgments 0 1
  <= IR.calculateRecall Samples.irResults Samples.irJudgments 1 1.
Proof.
  apply (IRFacts.calculateRecall_monotone Samples.irResults Samples.irJudgments 0 1).
  lia.
Defined.

Lemma calculateRecall_bounds_witness :
  NoDup (List.map IR.resultProductId Samples.irResults)
  /\ 0 <= IR.calculateRecall Samples.irResults Samples.irJudgments 2 1 <= 1.
Proof.
  assert (H : NoDup (List.map IR.resultProductId Samples.irResults)).
  { distinct_ids. }
  split; [exact H |]. apply IRFacts.calculateRecall_bounds. exact H.
Defined.

Lemma calculateAveragePrecision_bounds_witness :
  NoDup (List.map IR.resultProductId Samples.irResults)
  /\ 0 <= IR.calculateAveragePrecision Samples.irResults Samples.irJudgments 1 <= 1.
Proof.
  assert (H : NoDup (List.map IR.resultProductId Samples.irResults)).
  { distinct_ids. }
  split; [exact H |]. apply IRFacts.calculateAveragePrecision_bounds. exact H.
Defined.

Lemma calculateAllMetrics_no_relevant_witness :
  Forall (fun j => relevanceScore j = 0%Z) Samples.zeroJudgments
  /\ IR.ndcg (IR.calculateAllMetrics Samples.log2Q Samples.irResults
                Samples.zeroJudgments 10) == 0
  /\ IR.precision (IR.calculateAllMetrics Samples.log2Q Samples.irResults
                     Samples.zeroJudgments 10) == 0.
Proof.
  assert (H : Forall (fun j => relevanceScore j = 0%Z) Samples.zeroJudgments).
  { repeat constructor. }
  split; [exact H |].
  destruct (IRFacts.calculateAllMetrics_no_relevant Samples.log2Q Samples.irResults
              Samples.zeroJudgments 10 H) as (H1 & _ & H3 & _).
  split; assumption.
Defined.

Lemma calculateNDCG_ideal_order_witness :
  NoDup (List.map productId Samples.gradedJudgments)
  /\ IR.calculateNDCG Samples.log2Q Samples.idealResults Samples.gradedJudgments 3 == 1.
Proof.
  assert (H : NoDup (List.map productId Samples.gradedJudgments)).
  { distinct_ids. }
  split; [exact H |].
  apply IRFacts.calculateNDCG_ideal_order; [exact H | reflexivity |].
  intros Hz. vm_compute in Hz. discriminate.
Defined.

Lemma semanticSearch_results_complete_witness :
  exists r,
    In r (searchResultsOf
            (semanticSearch Scenario.sqrtQ Scenario.embedConst "desk lamp"
               defaultOptions 0 5 (Some Scenario.dbPrices)))
    /\ product r = Scenario.pricedProduct 2 (Some 10).
Proof.
  destruct (semanticSearch_results_complete Scenario.sqrtQ Scenario.embedConst
              "desk lamp" defaultOptions 0 5 (Some Scenario.dbPrices))
    with (s := scoreProduct Scenario.sqrtQ Scenario.embedConst "desk lamp"
                 (generateEmbedding Scenario.embedConst "desk lamp")
                 (fst (getActiveRankingWeights (Some Scenario.dbPrices)))
                 (minPriceInSet
                    (getAllProductsWithOptionalEmbeddings 5000 0 (Some Scenario.dbPrices)))
                 (maxPriceInSet
                    (getAllProductsWithOptionalEmbeddings 5000 0 (Some Scenario.dbPrices)))
                 0 (Scenario.pricedProduct 2 (Some 10), None))
    as (r & Hin & Hp & _).
  - vm_compute. lia.
  - vm_compute. lia.
  - right. left. reflexivity.
  - vm_compute. reflexivity.
  - exists r. split; [exact Hin | exact Hp].
Defined.

Lemma semanticSearch_subscores_in_range_witness :
  Forall validProduct (products Scenario.dbPrices)
  /\ Forall (fun r => 0 <= scorePrice (scores r) <= 1
                      /\ 1 # 10 <= scoreRecency (scores r) <= 1)
       (searchResultsOf
          (semanticSearch Scenario.sqrtQ Scenario.embedConst "desk lamp"
             defaultOptions 0 5 (Some Scenario.dbPrices))).
Proof.
  assert (H : Forall validProduct (products Scenario.dbPrices)).
  { repeat constructor; discriminate. }
  split; [exact H |]. apply List.Forall_forall. intros r Hr.
  destruct (semanticSearch_subscores_in_range Scenario.sqrtQ Scenario.embedConst
              "desk lamp" defaultOptions 0 5 Scenario.dbPrices H r Hr)
    as (_ & _ & Hprice & _ & Hrec).
  split; assumption.
Defined.

Lemma semanticSearch_read_back_witness :
  exists results w' log,
    semanticSearch Scenario.sqrtQ Scenario.embedConst "desk lamp" defaultOptions 0 5
      (Some Samples.dbSearched) = (Some (results, 2%Z, 5%Z), w')
    /\ getSearchLogById 2 w' = Some log
    /\ resultsCount log = List.length results
    /\ List.map explainedProductId (getExplanationsForSearch 2 w')
       = List.map (fun r => id (product r)) results.
Proof.
  destruct (semanticSearch_read_back Scenario.sqrtQ Scenario.embedConst "desk lamp"
              defaultOptions 0 5 Samples.dbSearched)
    as (results & logId0 & w' & log & H1 & H2 & _ & H3 & H4 & _).
  - vm_compute. lia.
  - repeat constructor. discriminate.
  - repeat constructor. discriminate.
  - assert (Hid : logId0 = 2%Z).
    { pose proof (f_equal (fun x => match fst x with
                                    | Some (_, n, _) => n
                                    | None => 0%Z
                                    end) H1) as H.
      vm_compute in H. now rewrite H. }
    subst logId0. exists results, w', log. repeat split; assumption.
Defined.

Lemma semanticSearch_writes_log_witness :
  exists db' log,
    semanticSearch Scenario.sqrtQ Scenario.embedConst "desk lamp" defaultOptions 0 5
      (Some Samples.dbSearched)
    = (Some (searchResultsOf
               (semanticSearch Scenario.sqrtQ Scenario.embedConst "desk lamp"
                  defaultOptions 0 5 (Some Samples.dbSearched)), 2%Z, 5%Z),
       Some db')
    /\ searchLogs db' = searchLogs Samples.dbSearched ++ [log]
    /\ logQuery log = "desk lamp"
    /\ resultsCount log = 3%nat.
Proof.
  destruct (semanticSearch_writes_log Scenario.sqrtQ Scenario.embedConst "desk lamp"
              defaultOptions 0 5 Samples.dbSearched)
    as (db' & log & rows & H1 & H2 & _ & H3 & _ & H4 & _).
  - vm_compute. lia.
  - exists db', log. split; [exact H1 |]. split; [exact H2 |].
    split; [exact H3 |]. rewrite H4. vm_compute. reflexivity.
Defined.

Lemma searchSemanticLocal_paths_witness :
  exists resp w',
    searchSemanticLocal Scenario.sqrtQ Scenario.embedConst Scenario.inputS5
      "sess" 0 5 (Some Scenario.dbS5) = (Some resp, w')
    /\ fallbackUsed resp = Some "keyword"
    /\ (List.length (results resp) <= 1)%nat.
Proof.
  destruct (searchSemanticLocal_paths Scenario.sqrtQ Scenario.embedConst
              Scenario.inputS5 "sess" 0 5 (Some Scenario.dbS5))
    as (ranked & logId0 & resp & w' & H1 & H2 & H3 & _ & _ & H4 & _).
  - vm_compute. lia.
  - exists resp, w'. split; [exact H2 |]. split; [| exact H4].
    apply H3.
    pose proof (f_equal (fun x => match fst x with
                                  | Some (rs, _, _) => rs
                                  | None => []
                                  end) H1) as H.
    vm_compute in H. now rewrite <- H.
Defined.

Lemma recordInteraction_read_back_witness :
  exists db',
    recordInteraction Samples.viewOfKettle (Some Samples.dbFeatured) = Some (Some db')
    /\ getSessionInteractions "s9" 6 (Some db') = [Samples.viewOfKettle].
Proof.
  destruct (recordInteraction_read_back Samples.viewOfKettle Samples.dbFeatured 5)
    as (db' & H1 & H2 & _).
  - vm_compute. lia.
  - exists db'. split; [exact H1 | exact H2].
Defined.

Lemma getColdStartRecommendations_count_witness :
  NoDup (List.map id (products Samples.dbFeatured))
  /\ List.length (getColdStartRecommendations 2 [1%Z] (Some Samples.dbFeatured)) = 2%nat.
Proof.
  assert (H : NoDup (List.map id (products Samples.dbFeatured))).
  { distinct_ids. }
  split; [exact H |].
  apply getColdStartRecommendations_count; [exact H | vm_compute; lia].
Defined.

Lemma searchProductsByKeyword_wildcard_witness :
  searchProductsByKeyword " % " 1 (Some Scenario.dbS5) = [Scenario.unicorn].
Proof.
  apply (searchProductsByKeyword_wildcard " % " 1 Scenario.dbS5).
  vm_compute. repeat constructor.
Defined.

Lemma getOrCreateSessionId_reads_cookie_witness :
  getOrCreateSessionId (Some "smartcart_session=V1StGXR8Z5jdHi6B; theme=dark")
    "fresh"
  = ("V1StGXR8Z5jdHi6B", None).
Proof.
  apply (getOrCreateSessionId_reads_cookie "V1StGXR8Z5jdHi6B" "; theme=dark" "fresh").
  - discriminate.
  - reflexivity.
  - right. eexists. reflexivity.
Defined.

Lemma embedding_ignores_case_witness :
  Embedding.generateDeterministicEmbedding "Desk Lamp"
  = Embedding.generateDeterministicEmbedding "desk LAMP".
Proof.
  apply (SimilarityFacts.embedding_ignores_case "Desk Lamp" "desk LAMP").
  reflexivity.
Defined.
